(** * Subcontractor research pipeline: a shallow embedding and its properties

    The development follows the Python sources [research.py] (class
    [ResearchEngine]) and [main.py] (the job manager).  Python values are
    embedded as [pyval], dictionaries as [gmap string pyval], raised
    exceptions as the [Raise] case of an error monad, IEEE binary64
    arithmetic as exact integers counted in units of [2^-1074], and the
    regular expressions of the extraction stage as a small backtracking
    matcher.  Library and network calls (HTTP, BeautifulSoup, the LLM
    service, the clock, the random generator, [urlparse], [re.compile] of
    user keywords) are the fields of the class [Env]. *)

From Stdlib Require Import ZArith Lia Bool List String Ascii Sorted Permutation SpecFloat.
From stdpp Require Import gmap strings pretty list.

Set Warnings "-abstract-large-number".

Local Open Scope string_scope.
Local Open Scope list_scope.
Local Open Scope Z_scope.

(** ** Python values, exceptions and the error monad *)

Inductive pyval : Type :=
  | PNone
  | PBool (b : bool)
  | PInt (z : Z)
  | PStr (s : string).

Global Instance pyval_eq_dec : EqDecision pyval.
Proof. solve_decision. Defined.

Inductive exn_kind : Type :=
  | ZeroDivisionError
  | OverflowError
  | TypeError
  | ValueError
  | AttributeError
  | KeyError
  | MemoryError
  | RegexError.

Global Instance exn_kind_eq_dec : EqDecision exn_kind.
Proof. solve_decision. Defined.

Record exn : Type := Exn { exn_type : exn_kind; exn_msg : string }.

Global Instance exn_eq_dec : EqDecision exn.
Proof. solve_decision. Defined.

Inductive result (A : Type) : Type :=
  | Ok (a : A)
  | Raise (e : exn).

Global Arguments Ok {A} a.
Global Arguments Raise {A} e.

Global Instance result_ret : MRet result := λ A a, Ok a.
Global Instance result_bind : MBind result := λ A B f m,
  match m with
  | Ok a => f a
  | Raise e => Raise e
  end.

(** [bool(v)]: Python truthiness. *)
Definition truthy (v : pyval) : bool :=
  match v with
  | PNone => false
  | PBool b => b
  | PInt z => negb (z =? 0)
  | PStr s => negb (String.eqb s "")
  end.

(** [d.get(k)]: a missing key reads as [None]. *)
Definition get (d : gmap string pyval) (k : string) : pyval :=
  default PNone (d !! k).

(** [d.get(k, dflt)]. *)
Definition get_or (d : gmap string pyval) (k : string) (dflt : pyval) : pyval :=
  default dflt (d !! k).

(** The integer a value denotes in a numeric context ([bool] is a subclass
    of [int]); [None] where Python raises [TypeError]. *)
Definition as_int (v : pyval) : option Z :=
  match v with
  | PInt z => Some z
  | PBool b => Some (Z.b2z b)
  | _ => None
  end.

Definition type_name (v : pyval) : string :=
  match v with
  | PNone => "NoneType"
  | PBool _ => "bool"
  | PInt _ => "int"
  | PStr _ => "str"
  end.

(** ** IEEE binary64, as Python's [float]

    A finite double is an integer multiple of [2^-1074]; [F_fin u] denotes
    [u * 2^-1074].  Rounding is to nearest, ties to even, on the grid of
    the binade of the exact value. *)

Module Float64.

Inductive float : Type :=
  | F_fin (u : Z)
  | F_inf (neg : bool)
  | F_nan.

Definition unit_exp : Z := 1074.
Definition one_units : Z := 2 ^ unit_exp.
Definition overflow_units : Z := 2 ^ 2098.

(** Nearest integer to [num / den], ties to even ([0 <= num], [0 < den]). *)
Definition rne (num den : Z) : Z :=
  let q := num / den in
  match (2 * (num mod den)) ?= den with
  | Lt => q
  | Gt => q + 1
  | Eq => if Z.even q then q else q + 1
  end.

(** Exponent of the grid step for the value [num / den] units: 53
    significant bits, never finer than one unit. *)
Definition grid (num den : Z) : Z := Z.max (Z.log2 (num / den) - 52) 0.

(** The double nearest to [num / den] units, in units. *)
Definition round_scaled (num den : Z) : Z :=
  let g := grid num den in
  rne num (den * 2 ^ g) * 2 ^ g.

(** The same for a signed numerator; overflow gives an infinity. *)
Definition round_signed (num den : Z) : float :=
  let u := round_scaled (Z.abs num) den in
  if overflow_units <=? u then F_inf (num <? 0)
  else F_fin (if num <? 0 then - u else u).

(** [float(z)] for an integer; an infinity stands for [OverflowError]. *)
Definition of_Z (z : Z) : float := round_signed (z * one_units) 1.

(** [a / b] on integers: the correctly rounded quotient. *)
Definition true_div (a b : Z) : result float :=
  if b =? 0 then Raise (Exn ZeroDivisionError "division by zero")
  else match round_signed (Z.sgn b * a * one_units) (Z.abs b) with
       | F_fin u => Ok (F_fin u)
       | _ => Raise (Exn OverflowError "integer division result too large for a float")
       end.

(** [x * y] on floats. *)
Definition fmul (x y : float) : float :=
  match x, y with
  | F_fin u, F_fin v => round_signed (u * v) one_units
  | F_nan, _ | _, F_nan => F_nan
  | F_inf s, F_fin v => if v =? 0 then F_nan else F_inf (xorb s (v <? 0))
  | F_fin u, F_inf s => if u =? 0 then F_nan else F_inf (xorb s (u <? 0))
  | F_inf s, F_inf t => F_inf (xorb s t)
  end.

(** [x < y] on floats. *)
Definition flt (x y : float) : bool :=
  match x, y with
  | F_fin u, F_fin v => u <? v
  | F_inf true, F_fin _ | F_fin _, F_inf false | F_inf true, F_inf false => true
  | _, _ => false
  end.

(** [int(x)]: truncation toward zero. *)
Definition to_int (x : float) : result Z :=
  match x with
  | F_fin u => Ok (Z.quot u one_units)
  | F_inf _ => Raise (Exn OverflowError "cannot convert float infinity to integer")
  | F_nan => Raise (Exn ValueError "cannot convert float NaN to integer")
  end.

(** The decimal [digits / 10^scale], as [float("...")] reads it. *)
Definition of_decimal (digits scale : Z) : float :=
  round_signed (digits * one_units) (10 ^ scale).

(** Translation to the Standard Library's specification of IEEE floats,
    used to cross-check the operations above. *)
Definition to_spec (x : float) : spec_float :=
  match x with
  | F_nan => S754_nan
  | F_inf s => S754_infinity s
  | F_fin 0 => S754_zero false
  | F_fin u =>
      let a := Z.abs u in
      let g := Z.max (Z.log2 a - 52) 0 in
      match a / 2 ^ g with
      | Zpos m => S754_finite (u <? 0) m (g - unit_exp)
      | _ => S754_nan
      end
  end.

Definition spec_of_Z (z : Z) : spec_float :=
  match z with
  | Z0 => S754_zero false
  | Zpos p => S754_finite false p 0
  | Zneg p => S754_finite true p 0
  end.

End Float64.

(** The constants of the format are large powers of two: they are kept
    folded during simplification. *)
Global Arguments Float64.one_units : simpl never.
Global Arguments Float64.overflow_units : simpl never.
Global Arguments Float64.round_scaled : simpl never.
Global Arguments Float64.round_signed : simpl never.
Global Arguments Float64.of_Z : simpl never.
Global Arguments Float64.of_decimal : simpl never.
Global Arguments Float64.true_div : simpl never.
Global Arguments Float64.fmul : simpl never.
Global Arguments Float64.to_int : simpl never.

(** ** Strings, as far as the pipeline uses [str] methods *)

Module Str.

Definition is_upper (c : ascii) : bool :=
  let n := nat_of_ascii c in (65 <=? n)%nat && (n <=? 90)%nat.
Definition is_lower (c : ascii) : bool :=
  let n := nat_of_ascii c in (97 <=? n)%nat && (n <=? 122)%nat.
Definition is_alpha (c : ascii) : bool := is_upper c || is_lower c.
Definition is_digit (c : ascii) : bool :=
  let n := nat_of_ascii c in (48 <=? n)%nat && (n <=? 57)%nat.
Definition is_word (c : ascii) : bool :=
  is_alpha c || is_digit c || Ascii.eqb c "_".
(** Whitespace of [str.strip] and of [\s] within ASCII. *)
Definition is_space (c : ascii) : bool :=
  let n := nat_of_ascii c in
  ((9 <=? n)%nat && (n <=? 13)%nat) || ((28 <=? n)%nat && (n <=? 32)%nat).

Definition lower_char (c : ascii) : ascii :=
  if is_upper c then ascii_of_nat (nat_of_ascii c + 32) else c.
Definition upper_char (c : ascii) : ascii :=
  if is_lower c then ascii_of_nat (nat_of_ascii c - 32) else c.

Fixpoint map_chars (f : ascii → ascii) (s : string) : string :=
  match s with
  | EmptyString => EmptyString
  | String c s' => String (f c) (map_chars f s')
  end.

Definition lower : string → string := map_chars lower_char.
Definition upper : string → string := map_chars upper_char.

(** [str.title()]: a letter is upper-cased after a non-letter and
    lower-cased after a letter. *)
Fixpoint title_go (after_letter : bool) (s : string) : string :=
  match s with
  | EmptyString => EmptyString
  | String c s' =>
      String (if after_letter then lower_char c else upper_char c)
             (title_go (is_alpha c) s')
  end.
Definition title : string → string := title_go false.

Definition startswith (s p : string) : bool := String.prefix p s.

(** [sub in s]. *)
Definition contains (s sub : string) : bool :=
  match String.index 0 sub s with
  | Some _ => true
  | None => String.eqb sub ""
  end.

(** [s.find(sub)], with [None] for [-1]. *)
Definition find (s sub : string) : option nat :=
  if String.eqb sub "" then Some 0%nat else String.index 0 sub s.

(** [s[a:b]] for [0 <= a]. *)
Definition slice (s : string) (a b : nat) : string :=
  String.substring a (b - a) s.

(** [s[n:]] and [s[:n]]. *)
Definition drop (n : nat) (s : string) : string :=
  String.substring n (String.length s - n) s.
Definition take (n : nat) (s : string) : string := String.substring 0 n s.

Fixpoint lstrip_by (p : ascii → bool) (s : string) : string :=
  match s with
  | EmptyString => EmptyString
  | String c s' => if p c then lstrip_by p s' else s
  end.
Definition rstrip_by (p : ascii → bool) (s : string) : string :=
  String.rev (lstrip_by p (String.rev s)).

(** [s.strip()] and [s.rstrip('/')]. *)
Definition strip (s : string) : string := rstrip_by is_space (lstrip_by is_space s).
Definition rstrip_slash (s : string) : string := rstrip_by (Ascii.eqb "/") s.

(** [s.replace(',', '')]. *)
Fixpoint remove_commas (s : string) : string :=
  match s with
  | EmptyString => EmptyString
  | String c s' =>
      if Ascii.eqb c "," then remove_commas s' else String c (remove_commas s')
  end.

Definition digit_val (c : ascii) : Z := Z.of_nat (nat_of_ascii c - 48).

(** Reads [ddd] or [ddd.ddd]: the integer of all digits and the number of
    digits after the point. *)
Fixpoint parse_decimal_go (s : string) (seen_dot : bool) (acc scale : Z)
  : option (Z * Z) :=
  match s with
  | EmptyString => Some (acc, scale)
  | String c s' =>
      if is_digit c then
        parse_decimal_go s' seen_dot (10 * acc + digit_val c)
                         (if seen_dot then scale + 1 else scale)
      else if Ascii.eqb c "." && negb seen_dot then parse_decimal_go s' true acc scale
      else None
  end.

Definition parse_decimal (s : string) : option (Z * Z) :=
  match s with
  | EmptyString => None
  | _ => parse_decimal_go s false 0 0
  end.

(** [float(s)] on the strings the bond patterns capture. *)
Definition to_float (s : string) : result Float64.float :=
  match parse_decimal s with
  | Some (digits, scale) => Ok (Float64.of_decimal digits scale)
  | None => Raise (Exn ValueError ("could not convert string to float: " +:+ s))
  end.

End Str.

(** ** Regular expressions: a backtracking matcher in the manner of [re]

    Greedy repetition, ordered alternation, numbered capturing groups and
    the word boundary; a continuation receives the last character read, the
    rest of the input and the groups captured so far. *)

Module Re.

Inductive regex : Type :=
  | Eps
  | Chr (p : ascii → bool)
  | Cat (r1 r2 : regex)
  | Alt (r1 r2 : regex)
  | Star (r : regex)
  | Group (i : nat) (r : regex)
  | WordB.

Definition captures : Type := list (nat * list ascii).

Definition is_word_opt (c : option ascii) : bool :=
  match c with
  | Some c => Str.is_word c
  | None => false
  end.

Fixpoint run {R : Type} (r : regex) (prev : option ascii) (s : list ascii)
    (cs : captures) (k : option ascii → list ascii → captures → option R)
  : option R :=
  match r with
  | Eps => k prev s cs
  | Chr p =>
      match s with
      | c :: s' => if p c then k (Some c) s' cs else None
      | [] => None
      end
  | Cat r1 r2 =>
      run r1 prev s cs (λ prev' s' cs', run r2 prev' s' cs' k)
  | Alt r1 r2 =>
      match run r1 prev s cs k with
      | Some x => Some x
      | None => run r2 prev s cs k
      end
  | Star r1 =>
      (fix loop (n : nat) (prev : option ascii) (s : list ascii) (cs : captures)
         : option R :=
         match n with
         | O => k prev s cs
         | S n' =>
             match run r1 prev s cs
                     (λ prev' s' cs',
                        if (length s' <? length s)%nat then loop n' prev' s' cs'
                        else None) with
             | Some x => Some x
             | None => k prev s cs
             end
         end) (length s) prev s cs
  | Group i r1 =>
      run r1 prev s cs
          (λ prev' s' cs',
             k prev' s' ((i, take (length s - length s') s) :: cs'))
  | WordB =>
      if xorb (is_word_opt prev) (is_word_opt (head s)) then k prev s cs
      else None
  end.

(** One attempt at the current position: the rest and the groups. *)
Definition match_here (r : regex) (prev : option ascii) (s : list ascii)
  : option (list ascii * captures) :=
  run r prev s [] (λ _ s' cs, Some (s', cs)).

(** Group [i] of a match; an unset group reads as the empty string. *)
Fixpoint group (i : nat) (cs : captures) : string :=
  match cs with
  | [] => ""
  | (j, w) :: cs' => if (i =? j)%nat then string_of_list_ascii w else group i cs'
  end.

(** All non-overlapping matches, left to right: the matched text with its
    groups.  None of the pipeline's patterns matches the empty string. *)
Fixpoint scan (fuel : nat) (r : regex) (prev : option ascii) (s : list ascii)
  : list (string * captures) :=
  match fuel with
  | O => []
  | S fuel' =>
      let skip :=
        match s with
        | [] => []
        | c :: s' => scan fuel' r (Some c) s'
        end in
      match match_here r prev s with
      | Some (s', cs) =>
          let w := take (length s - length s') s in
          match w with
          | [] => (string_of_list_ascii w, cs) :: skip
          | _ => (string_of_list_ascii w, cs) :: scan fuel' r (last w) s'
          end
      | None => skip
      end
  end.

Definition finditer (r : regex) (text : string) : list (string * captures) :=
  let s := list_ascii_of_string text in
  scan (S (length s)) r None s.

(** [re.findall] for a pattern without groups, with one group and with
    two groups. *)
Definition findall0 (r : regex) (text : string) : list string :=
  fst <$> finditer r text.
Definition findall1 (r : regex) (text : string) : list string :=
  (λ m, group 1 (snd m)) <$> finditer r text.
Definition findall2 (r : regex) (text : string) : list (string * string) :=
  (λ m, (group 1 (snd m), group 2 (snd m))) <$> finditer r text.

(** Pattern combinators. *)
Definition chr (c : ascii) : regex := Chr (Ascii.eqb c).
Definition chr_i (c : ascii) : regex :=
  Chr (λ x, Ascii.eqb (Str.lower_char x) (Str.lower_char c)).
Definition one_of (cs : string) : ascii → bool :=
  λ x, existsb (Ascii.eqb x) (list_ascii_of_string cs).
Definition plus (r : regex) : regex := Cat r (Star r).
Definition opt (r : regex) : regex := Alt r Eps.
Fixpoint rep (n : nat) (r : regex) : regex :=
  match n with
  | O => Eps
  | S n' => Cat r (rep n' r)
  end.
Fixpoint lit (s : string) : regex :=
  match s with
  | EmptyString => Eps
  | String c s' => Cat (chr c) (lit s')
  end.
Fixpoint lit_i (s : string) : regex :=
  match s with
  | EmptyString => Eps
  | String c s' => Cat (chr_i c) (lit_i s')
  end.
Definition space : regex := Chr Str.is_space.
Definition digit : regex := Chr Str.is_digit.
Definition seq (rs : list regex) : regex := foldr Cat Eps rs.
Fixpoint alts (rs : list regex) : regex :=
  match rs with
  | [] => Chr (λ _, false)
  | [r] => r
  | r :: rs' => Alt r (alts rs')
  end.

End Re.

(** The patterns of [_extract_data_from_pages] and [parse_project_history]. *)

Module Patterns.
Import Re.

(** [\b[A-Za-z0-9._%+-]+@[A-Za-z0-9.-]+\.[A-Z|a-z]{2,}\b] *)
Definition email_pattern : regex :=
  let local := Chr (λ c, Str.is_alpha c || Str.is_digit c || one_of "._%+-" c) in
  let host := Chr (λ c, Str.is_alpha c || Str.is_digit c || one_of ".-" c) in
  let tld := Chr (λ c, Str.is_alpha c || one_of "|" c) in
  seq [WordB; plus local; chr "@"; plus host; chr "."; rep 2 tld; Star tld; WordB].

(** [\(?\d{3}\)?[-.\s]?\d{3}[-.\s]?\d{4}] *)
Definition phone_pattern : regex :=
  let sep := opt (Chr (λ c, one_of "-." c || Str.is_space c)) in
  seq [opt (chr "("); rep 3 digit; opt (chr ")"); sep; rep 3 digit; sep; rep 4 digit].

(** The common prefix [bond(?:ed|ing)(?:\s+(?:up\s+)?to)?\s+\$(\d+(?:[,.]\d+)?)],
    compiled with [re.IGNORECASE]. *)
Definition bond_prefix : regex :=
  seq [lit_i "bond"; Alt (lit_i "ed") (lit_i "ing");
       opt (seq [plus space; opt (seq [lit_i "up"; plus space]); lit_i "to"]);
       plus space; chr "$";
       Group 1 (seq [plus digit; opt (seq [Chr (one_of ",."); plus digit])])].

(** [bond_patterns]: the prefix followed by [\s+(?:million|m)], and the
    prefix alone. *)
Definition bond_patterns : list regex :=
  [ seq [bond_prefix; plus space; Alt (lit_i "million") (lit_i "m")];
    bond_prefix ].

(** [address_patterns]:
    [(?:address|location)(?:[:\s]+)([^,]+),\s+([A-Z]{2})\s+\d{5}] and
    [([A-Za-z\s]+),\s+([A-Z]{2})\s+\d{5}]. *)
Definition address_tail : regex :=
  seq [chr ","; plus space; Group 2 (rep 2 (Chr Str.is_upper)); plus space; rep 5 digit].
Definition address_patterns : list regex :=
  [ seq [Alt (lit "address") (lit "location");
         plus (Chr (λ c, Ascii.eqb c ":" || Str.is_space c));
         Group 1 (plus (Chr (λ c, negb (Ascii.eqb c ","))));
         address_tail];
    seq [Group 1 (plus (Chr (λ c, Str.is_alpha c || Str.is_space c)));
         address_tail] ].

(** [Texas|TX|Austin|Dallas|Houston|San Antonio], with [re.IGNORECASE]. *)
Definition tx_pattern : regex :=
  alts [lit_i "Texas"; lit_i "TX"; lit_i "Austin"; lit_i "Dallas";
        lit_i "Houston"; lit_i "San Antonio"].

End Patterns.

(** ** The outside world

    What the engine obtains from libraries and services: the [netloc] of
    [urlparse] ([None] when it raises), the body of a GET answered with
    status 200 ([None] for any other status, a timeout or a transport
    error), the text [BeautifulSoup(html, 'html.parser').get_text(' ',
    strip=True)], the object decoded from the chat completion ([None] when
    the call fails or the answer is not a JSON object), the clock, the
    stream behind [random], and [re.compile(kw, re.IGNORECASE)] for a
    user keyword ([None] when the keyword is not a valid pattern). *)

Class Env : Type := {
  urlparse_netloc : string → option string;
  http_get : string → option string;
  soup_text : string → string;
  llm_call : string → string → option (gmap string pyval);
  now_isoformat : string;
  current_year : Z;
  entropy : nat → Z;
  re_compile_i : string → option Re.regex;
}.

Section Engine.
Context `{Env}.

(** [random.randint(a, b)] and [random.random()], threading the number of
    draws made so far. *)
Definition randint (a b : Z) (rng : nat) : Z * nat :=
  (a + entropy rng mod (b - a + 1), S rng).

Definition random (rng : nat) : Float64.float * nat :=
  (Float64.F_fin ((entropy rng mod 2 ^ 53) * 2 ^ 1021), S rng).

(** *** Discovery *)

Definition simulated_results (prefix source : string) (domains : list string)
  : list (gmap string pyval) :=
  imap (λ i domain,
          {[ "name" := PStr (prefix +:+ " " +:+ pretty (S i));
             "website" := PStr ("https://www." +:+ domain);
             "source" := PStr source ]}) domains.

Definition _search_google_custom (query : string) : list (gmap string pyval) :=
  simulated_results "Simulated Company" "google_search"
    (List.firstn 10
       ["austinmechanical.com"; "texasmechanicalservices.com";
        "precisionhvactx.com"; "elitemechanicalaustin.com";
        "centralteamechanical.com"; "alliancemechanical.net";
        "texasaircontrol.com"; "austinhvac.com"]).

Definition _search_yelp (trade city state : string) : list (gmap string pyval) :=
  simulated_results "Yelp Company" "yelp"
    ["austinmechanical.com"; "capitalcitymechanical.com"; "abcmechanical.com";
     "starrmechanical.com"; "foxservice.com"].

Definition _search_bbb (trade city state : string) : list (gmap string pyval) :=
  simulated_results "BBB Company" "bbb"
    ["precisionmechanical.com"; "reliablemechanical.com"; "qualitymechanical.com"].

Fixpoint _search_state_license_board_go (trade : string) (idx : list nat) (rng : nat)
  : list (gmap string pyval) * nat :=
  match idx with
  | [] => ([], rng)
  | i :: idx' =>
      let '(r, rng1) := randint 10000000 99999999 rng in
      let record : gmap string pyval :=
        {[ "name" := PStr ("Licensed " +:+ Str.title trade +:+ " Contractor " +:+ pretty i);
           "lic_number" := PStr ("TX" +:+ pretty r);
           "lic_active" := PBool true;
           "source" := PStr "license_board" ]} in
      let '(rest, rng2) := _search_state_license_board_go trade idx' rng1 in
      (record :: rest, rng2)
  end.

Definition _search_state_license_board (trade state : string) (rng : nat)
  : list (gmap string pyval) * nat :=
  _search_state_license_board_go trade (seq 1 5) rng.

Definition _extract_domain (url : pyval) : string :=
  if negb (truthy url) then ""
  else
    match url with
    | PStr u =>
        let u := if Str.startswith u "http://" || Str.startswith u "https://"
                 then u else "https://" +:+ u in
        match urlparse_netloc u with
        | Some domain =>
            if Str.startswith domain "www." then Str.drop 4 domain else domain
        | None => ""
        end
    | _ => ""
    end.

(** The outcomes of [asyncio.gather(..., return_exceptions=True)], merged
    in task order; a task that raised contributes nothing. *)
Definition merge_results (all_results : list (result (list (gmap string pyval))))
  : list (gmap string pyval) :=
  flat_map (λ results, match results with Ok l => l | Raise _ => [] end) all_results.

(** [unique_candidates]: an insertion-ordered dictionary keyed by domain. *)
Definition dedup_step (unique : list (string * gmap string pyval))
    (candidate : gmap string pyval) : list (string * gmap string pyval) :=
  let domain := _extract_domain (get_or candidate "website" (PStr "")) in
  if negb (String.eqb domain "") && negb (bool_decide (domain ∈ unique.*1))
  then unique ++ [(domain, candidate)]
  else unique.

Definition deduplicate (candidates : list (gmap string pyval))
  : list (gmap string pyval) :=
  (fold_left dedup_step candidates []).*2.

Definition search_queries (trade city state : string) (keywords : list string)
  : list string :=
  [trade +:+ " contractors " +:+ city +:+ " " +:+ state;
   trade +:+ " subcontractors " +:+ city +:+ " " +:+ state]
  ++ ((λ keyword, trade +:+ " " +:+ keyword +:+ " contractors " +:+ city +:+ " " +:+ state)
        <$> keywords).

Definition discover_candidates (trade city state : string) (keywords : list string)
    (rng : nat) : list (gmap string pyval) * nat :=
  let '(board, rng') := _search_state_license_board trade state rng in
  let all_results :=
    ((λ query, Ok (_search_google_custom query)) <$> search_queries trade city state keywords)
    ++ [Ok (_search_yelp trade city state); Ok (_search_bbb trade city state); Ok board] in
  (deduplicate (merge_results all_results), rng').

(** *** Profile extraction *)

(** The state of the page loop of [_extract_data_from_pages]. *)
Record extraction : Type := Extraction {
  extracted_data : gmap string pyval;
  best_evidence : string;
  best_evidence_page : string;
}.

Definition initial_extraction : extraction :=
  {| extracted_data :=
       {[ "email" := PNone; "phone_number" := PNone; "city" := PNone;
          "state" := PNone; "bond_amount" := PNone;
          "evidence_text" := PStr ""; "evidence_page" := PStr "" ]};
     best_evidence := "";
     best_evidence_page := "" |}.

(** Lines 361-371: the first e-mail address and the first phone number,
    unless the field is already set. *)
Definition look_for (field : string) (pattern : Re.regex) (text : string)
    (data : gmap string pyval) : gmap string pyval :=
  if negb (truthy (get data field)) then
    match Re.findall0 pattern text with
    | m :: _ => <[field := PStr m]> data
    | [] => data
    end
  else data.

(** Lines 379-383. *)
Definition look_for_address (text : string) (data : gmap string pyval)
  : gmap string pyval :=
  fold_left
    (λ data pattern,
       match Re.findall2 pattern text with
       | (c, s) :: _ =>
           if negb (truthy (get data "city") && truthy (get data "state"))
           then <["state" := PStr s]> (<["city" := PStr (Str.strip c)]> data)
           else data
       | [] => data
       end)
    Patterns.address_patterns data.

(** Lines 395-401: the body of the [try], up to the assigned integer. *)
Definition bond_value_of (text bond_str : string) : result Z :=
  bond_value ← Str.to_float (Str.remove_commas bond_str);
  let bond_value :=
    if Str.contains (Str.lower text) "million" || Str.contains (Str.lower text) "m"
    then Float64.fmul bond_value (Float64.of_Z 1000000)
    else bond_value in
  Float64.to_int bond_value.

(** Lines 405-415. *)
Definition update_evidence (page_path text bond_str : string) (st : extraction)
  : extraction :=
  match Str.find (Str.lower text) (Str.lower bond_str) with
  | Some bond_pos =>
      let start_pos := (bond_pos - 100)%nat in
      let end_pos := Nat.min (String.length text) (bond_pos + 100) in
      let evidence := Str.strip (Str.slice text start_pos end_pos) in
      if String.eqb (best_evidence st) ""
         || (String.length (best_evidence st) <? String.length evidence)%nat
      then {| extracted_data := extracted_data st;
              best_evidence := evidence;
              best_evidence_page := page_path |}
      else st
  | None => st
  end.

(** Lines 386-419: the loop over [bond_patterns], with its [break] after
    the first amount and its [continue] when the conversion raises. *)
Fixpoint look_for_bond (patterns : list Re.regex) (page_path text : string)
    (st : extraction) : extraction :=
  match patterns with
  | [] => st
  | pattern :: patterns' =>
      match Re.findall1 pattern text with
      | bond_str :: _ =>
          match bond_value_of text bond_str with
          | Ok n =>
              update_evidence page_path text bond_str
                {| extracted_data := <["bond_amount" := PInt n]> (extracted_data st);
                   best_evidence := best_evidence st;
                   best_evidence_page := best_evidence_page st |}
          | Raise _ => look_for_bond patterns' page_path text st
          end
      | [] => look_for_bond patterns' page_path text st
      end
  end.

(** One iteration of [for page_path, html in page_contents.items()]. *)
Definition process_page (st : extraction) (page : string * string) : extraction :=
  let '(page_path, html) := page in
  let text := soup_text html in
  let data := look_for "email" Patterns.email_pattern text (extracted_data st) in
  let data := look_for "phone_number" Patterns.phone_pattern text data in
  let data := look_for_address text data in
  look_for_bond Patterns.bond_patterns page_path text
    {| extracted_data := data;
       best_evidence := best_evidence st;
       best_evidence_page := best_evidence_page st |}.

(** The deterministic pass over all pages. *)
Definition deterministic_pass (page_contents : list (string * string)) : extraction :=
  fold_left process_page page_contents initial_extraction.

Definition _extract_with_llm (text website : string) : gmap string pyval :=
  default ∅ (llm_call (Str.take 15000 text) website).

(** Lines 423-443: the fallback fills only fields that are still falsy. *)
Definition llm_fill (llm_extracted data : gmap string pyval) : gmap string pyval :=
  fold_left
    (λ data field,
       if negb (truthy (get data field)) then
         match llm_extracted !! field with
         | Some v => <[field := v]> data
         | None => data
         end
       else data)
    ["city"; "state"; "bond_amount"; "email"; "phone_number"] data.

Definition _extract_data_from_pages (page_contents : list (string * string))
    (website : string) : gmap string pyval :=
  let st := deterministic_pass page_contents in
  let data := extracted_data st in
  let '(data, evidence) :=
    if negb (truthy (get data "city") && truthy (get data "state")
             && truthy (get data "bond_amount"))
    then
      let combined_text :=
        fold_left (λ acc page, acc +:+ Str.take 5000 (soup_text page.2))
                  (List.firstn 3 page_contents) "" in
      let llm_extracted := _extract_with_llm combined_text website in
      (llm_fill llm_extracted data,
       if truthy (get llm_extracted "evidence_text")
          && String.eqb (best_evidence st) ""
       then get llm_extracted "evidence_text"
       else PStr (best_evidence st))
    else (data, PStr (best_evidence st)) in
  <["evidence_page" := PStr (best_evidence_page st)]>
    (<["evidence_text" := evidence]> data).

Definition pages_to_visit : list string :=
  [""; "/about"; "/about-us"; "/company"; "/services"; "/projects";
   "/portfolio"; "/our-work"; "/case-studies"; "/contact"; "/contact-us"].

(** Lines 286-300: the pages answered with status 200, in visiting order. *)
Definition fetch_pages (website : string) : list (string * string) :=
  omap (λ path, (λ html, (path, html)) <$> http_get (Str.rstrip_slash website +:+ path))
       pages_to_visit.

Definition uncounted_fields : list string :=
  ["website"; "last_checked"; "evidence_url"; "evidence_text"].

(** Lines 317-318: [sum(1 for k, v in profile.items() if v is not None
    and k not in [...])]. *)
Definition populated_fields (profile : gmap string pyval) : nat :=
  length (filter (λ kv, kv.2 ≠ PNone ∧ kv.1 ∉ uncounted_fields) (map_to_list profile)).

(** [profile.update(extracted_data)]. *)
Definition update (profile extracted : gmap string pyval) : gmap string pyval :=
  extracted ∪ profile.

Definition copy_fields (fields : list string) (candidate profile : gmap string pyval)
  : gmap string pyval :=
  fold_left
    (λ profile field,
       match candidate !! field with
       | Some v => <[field := v]> profile
       | None => profile
       end)
    fields profile.

Definition _extract_single_profile (candidate : gmap string pyval)
  : result (option (gmap string pyval)) :=
  let website := get candidate "website" in
  if negb (truthy website) then Ok None
  else
    match website with
    | PStr website =>
        let website :=
          if Str.startswith website "http://" || Str.startswith website "https://"
          then website else "https://" +:+ website in
        let profile : gmap string pyval :=
          {[ "name" := get_or candidate "name" (PStr "");
             "website" := PStr website;
             "last_checked" := PStr now_isoformat ]} in
        let profile := copy_fields ["lic_number"; "lic_active"] candidate profile in
        let page_contents := fetch_pages website in
        match page_contents with
        | [] => Ok None
        | _ =>
            let extracted := _extract_data_from_pages page_contents website in
            let profile := update profile extracted in
            let evidence_page := get_or extracted "evidence_page" (PStr "") in
            let evidence_url :=
              match evidence_page with
              | PStr page =>
                  if truthy evidence_page then Str.rstrip_slash website +:+ page
                  else website
              | _ => website
              end in
            let profile := <["evidence_url" := PStr evidence_url]> profile in
            if (4 <=? populated_fields profile)%nat then Ok (Some profile)
            else Ok None
        end
    | v =>
        Raise (Exn AttributeError
                   ("'" +:+ type_name v +:+ "' object has no attribute 'startswith'"))
    end.

(** [candidates[i:i+batch_size] for i in range(0, len(candidates), batch_size)]. *)
Fixpoint batches {A : Type} (fuel batch_size : nat) (l : list A) : list (list A) :=
  match fuel, l with
  | O, _ | _, [] => []
  | S fuel', _ => List.firstn batch_size l :: batches fuel' batch_size (List.skipn batch_size l)
  end.

(** One batch: exceptions and empty results are skipped. *)
Definition extract_batch (batch : list (gmap string pyval)) : list (gmap string pyval) :=
  omap (λ candidate,
          match _extract_single_profile candidate with
          | Ok (Some profile) =>
              if bool_decide (profile = ∅) then None else Some profile
          | _ => None
          end) batch.

Definition extract_profiles (candidates : list (gmap string pyval))
  : list (gmap string pyval) :=
  flat_map extract_batch (batches (length candidates) 5 candidates).

(** *** License verification *)

Definition verify_license (profile : gmap string pyval) (rng : nat)
  : gmap string pyval * nat :=
  let '(profile, rng) :=
    if bool_decide (profile !! "lic_number" = None)
       || negb (truthy (get profile "lic_number"))
    then
      let '(r, rng') := randint 10000000 99999999 rng in
      (<["lic_number" := PStr ("TX" +:+ pretty r)]> profile, rng')
    else (profile, rng) in
  let '(x, rng) := random rng in
  (<["lic_active" := PBool (Float64.flt x (Float64.of_decimal 8 1))]> profile, rng).

Fixpoint verify_all (profiles : list (gmap string pyval)) (rng : nat)
  : list (gmap string pyval) * nat :=
  match profiles with
  | [] => ([], rng)
  | profile :: profiles' =>
      let '(profile, rng) := verify_license profile rng in
      let '(rest, rng) := verify_all profiles' rng in
      (profile :: rest, rng)
  end.

Definition verify_licenses (profiles : list (gmap string pyval)) (state : string)
    (rng : nat) : list (gmap string pyval) * nat :=
  if negb (String.eqb (Str.upper state) "TX") then (profiles, rng)
  else verify_all profiles rng.

(** *** Project history *)

Definition project_paths : list string :=
  ["/projects"; "/portfolio"; "/our-work"; "/case-studies"].

(** Lines 535-547: the body of the first project page answered with 200. *)
Fixpoint fetch_project_page (website : string) (paths : list string) : string :=
  match paths with
  | [] => ""
  | path :: paths' =>
      match http_get (Str.rstrip_slash website +:+ path) with
      | Some html => html
      | None => fetch_project_page website paths'
      end
  end.

(** Lines 567-571. *)
Definition estimate_project_count (tx_mentions year_mentions keyword_mentions : nat)
  : nat :=
  let tx_project_count := Nat.min tx_mentions year_mentions in
  if (0 <? keyword_mentions)%nat && (0 <? tx_project_count)%nat
  then Nat.min (tx_project_count + keyword_mentions / 2) 10
  else tx_project_count.

(** [[str(year) for year in range(current_year - 5, current_year + 1)]]. *)
Definition recent_years : list string :=
  (λ i, pretty (current_year - 5 + Z.of_nat i)) <$> seq 0 6.

(** [sum(len(re.findall(keyword, text, re.IGNORECASE)) for keyword in keywords)]. *)
Fixpoint count_keywords (keywords : list string) (text : string) : result nat :=
  match keywords with
  | [] => Ok 0%nat
  | keyword :: keywords' =>
      match re_compile_i keyword with
      | Some r =>
          n ← count_keywords keywords' text;
          Ok (length (Re.finditer r text) + n)%nat
      | None => Raise (Exn RegexError ("invalid pattern: " +:+ keyword))
      end
  end.

(** Lines 559-560: the two tallies. *)
Definition tx_mentions (text : string) : nat :=
  length (Re.findall0 Patterns.tx_pattern text).

Definition year_mentions (text : string) : nat :=
  foldr (λ year acc, (length (Re.findall0 (Re.lit year) text) + acc)%nat)
        0%nat recent_years.

(** Lines 550-571: the count for the fetched page; an empty body counts as
    no page. *)
Definition count_projects (project_html : string) (keywords : list string)
  : result nat :=
  if String.eqb project_html "" then Ok 0%nat
  else
    let text := soup_text project_html in
    keyword_mentions ← count_keywords keywords text;
    Ok (estimate_project_count (tx_mentions text) (year_mentions text) keyword_mentions).

Definition parse_profile_history (keywords : list string)
    (profile : gmap string pyval) : result (gmap string pyval) :=
  let website := get profile "website" in
  if negb (truthy website) then Ok profile
  else
    match website with
    | PStr website =>
        let project_html := fetch_project_page website project_paths in
        tx_project_count ← count_projects project_html keywords;
        Ok (<["tx_projects_past_5yrs" := PInt (Z.of_nat tx_project_count)]> profile)
    | v =>
        Raise (Exn AttributeError
                   ("'" +:+ type_name v +:+ "' object has no attribute 'rstrip'"))
    end.

Fixpoint parse_project_history (profiles : list (gmap string pyval))
    (state : string) (keywords : list string) : result (list (gmap string pyval)) :=
  match profiles with
  | [] => Ok []
  | profile :: profiles' =>
      profile ← parse_profile_history keywords profile;
      rest ← parse_project_history profiles' state keywords;
      Ok (profile :: rest)
  end.

(** *** Scoring and ranking *)

(** Factor 1, lines 591-594. *)
Definition geographic_factor (profile : gmap string pyval)
    (target_city target_state : string) : Z :=
  if bool_decide (get profile "city" = PStr target_city)
     && bool_decide (get profile "state" = PStr target_state) then 25
  else if bool_decide (get profile "state" = PStr target_state) then 15
  else 0.

(** Factor 2, lines 597-602. *)
Definition license_factor (profile : gmap string pyval) : Z :=
  match get profile "lic_active" with
  | PBool true => 25
  | PBool false => 0
  | _ => 10
  end.

(** Lines 612-613: [ratio = bond_amount / min_bond] and [int(25 * ratio)]. *)
Definition partial_points (bond_amount min_bond : Z) : result Z :=
  ratio ← Float64.true_div bond_amount min_bond;
  Float64.to_int (Float64.fmul (Float64.of_Z 25) ratio).

(** Lines 607-613 for an integer bond amount. *)
Definition bond_points (bond_amount min_bond : Z) : result Z :=
  if min_bond <=? bond_amount then Ok 25
  else partial_points bond_amount min_bond.

Definition not_comparable (op : string) (v : pyval) : exn :=
  Exn TypeError ("'" +:+ op +:+ "' not supported between instances of '"
                 +:+ type_name v +:+ "' and 'int'").

(** Factor 3, lines 605-613. *)
Definition bonding_factor (profile : gmap string pyval) (min_bond : Z) : result Z :=
  match get profile "bond_amount" with
  | PNone => Ok 0
  | v =>
      match as_int v with
      | Some bond_amount => bond_points bond_amount min_bond
      | None => Raise (not_comparable ">=" v)
      end
  end.

(** Factor 4, lines 616-620. *)
Definition project_factor (profile : gmap string pyval) : result Z :=
  let v := get_or profile "tx_projects_past_5yrs" (PInt 0) in
  match as_int v with
  | Some tx_projects => Ok (if 5 <=? tx_projects then 25 else 5 * tx_projects)
  | None => Raise (not_comparable ">=" v)
  end.

Definition score_profile (profile : gmap string pyval)
    (target_city target_state : string) (min_bond : Z) : result Z :=
  let score := 0 in
  let score := score + geographic_factor profile target_city target_state in
  let score := score + license_factor profile in
  bond ← bonding_factor profile min_bond;
  let score := score + bond in
  projects ← project_factor profile;
  Ok (score + projects).

(** The key of the final sort, [x.get("score", 0)]. *)
Definition score_of (profile : gmap string pyval) : Z :=
  default 0 (as_int (get_or profile "score" (PInt 0))).

(** [list.sort(key=..., reverse=True)] is stable: among equal scores the
    earlier profile stays first. *)
Fixpoint insert_desc (x : gmap string pyval) (l : list (gmap string pyval))
  : list (gmap string pyval) :=
  match l with
  | [] => [x]
  | y :: l' => if score_of x <? score_of y then y :: insert_desc x l' else x :: l
  end.

Definition sort_desc (l : list (gmap string pyval)) : list (gmap string pyval) :=
  foldr insert_desc [] l.

(** Lines 581-627: the loop, accumulating [ranked_results]. *)
Fixpoint rank_loop (profiles : list (gmap string pyval))
    (target_city target_state : string) (min_bond : Z)
    (ranked_results : list (gmap string pyval)) : result (list (gmap string pyval)) :=
  match profiles with
  | [] => Ok ranked_results
  | profile :: profiles' =>
      if negb (truthy (get profile "name")) || negb (truthy (get profile "website"))
      then rank_loop profiles' target_city target_state min_bond ranked_results
      else
        score ← score_profile profile target_city target_state min_bond;
        let profile := <["score" := PInt score]> profile in
        rank_loop profiles' target_city target_state min_bond
          (if 40 <=? score then ranked_results ++ [profile] else ranked_results)
  end.

(** The scored profiles with a score of at least 40, in the order of the
    input: what the result is claimed to hold. *)
Definition qualifying (profiles : list (gmap string pyval))
    (target_city target_state : string) (min_bond : Z) : list (gmap string pyval) :=
  omap (λ profile,
          if truthy (get profile "name") && truthy (get profile "website") then
            match score_profile profile target_city target_state min_bond with
            | Ok score =>
                if 40 <=? score then Some (<["score" := PInt score]> profile) else None
            | Raise _ => None
            end
          else None) profiles.

Definition score_and_rank (profiles : list (gmap string pyval))
    (target_city target_state : string) (min_bond : Z)
  : result (list (gmap string pyval)) :=
  ranked_results ← rank_loop profiles target_city target_state min_bond [];
  Ok (sort_desc ranked_results).

(** *** The pipeline *)

Definition run_research (trade city state : string) (min_bond : Z)
    (keywords : list string) (rng : nat) : result (list (gmap string pyval)) * nat :=
  let '(candidates, rng) := discover_candidates trade city state keywords rng in
  let profiles := extract_profiles candidates in
  let '(profiles, rng) := verify_licenses profiles state rng in
  (profiles ← parse_project_history profiles state keywords;
   score_and_rank profiles city state min_bond, rng).

End Engine.

(** ** The job manager ([main.py]) *)

Record job_request : Type := JobRequest {
  trade : string;
  city : string;
  state : string;
  min_bond : Z;
  keywords : list string;
}.

Record job : Type := Job {
  status : string;
  request : job_request;
  created_at : string;
  results : option (list (gmap string pyval));
  completed_at : option string;
  error : option string;
}.

Definition create_research_job (jobs_store : gmap string job) (job_id : string)
    (req : job_request) (now : string) : gmap string job :=
  <[job_id := {| status := "QUEUED"; request := req; created_at := now;
                 results := None; completed_at := None; error := None |}]> jobs_store.

Definition set_status (s : string) (j : job) : job :=
  {| status := s; request := request j; created_at := created_at j;
     results := results j; completed_at := completed_at j; error := error j |}.

Definition set_results (r : list (gmap string pyval)) (j : job) : job :=
  {| status := status j; request := request j; created_at := created_at j;
     results := Some r; completed_at := completed_at j; error := error j |}.

Definition set_completed_at (t : string) (j : job) : job :=
  {| status := status j; request := request j; created_at := created_at j;
     results := results j; completed_at := Some t; error := error j |}.

Definition set_error (msg : string) (j : job) : job :=
  {| status := status j; request := request j; created_at := created_at j;
     results := results j; completed_at := completed_at j; error := Some msg |}.

(** [jobs_store[job_id][field] = value]; a missing job raises [KeyError]. *)
Definition update_job (f : job → job) (job_id : string) (jobs_store : gmap string job)
  : result (gmap string job) :=
  match jobs_store !! job_id with
  | Some j => Ok (<[job_id := f j]> jobs_store)
  | None => Raise (Exn KeyError ("'" +:+ job_id +:+ "'"))
  end.

(** Lines 69-90 of [main.py], for a given outcome of
    [engine.run_research]: the [try] body after the call, and the handler
    [except Exception as e], where [str(e)] is the message of the error. *)
Definition process_research_job (jobs_store : gmap string job) (job_id : string)
    (outcome : result (list (gmap string pyval))) (now : string)
  : result (gmap string job) :=
  let handler (e : exn) (jobs_store : gmap string job) :=
    jobs_store ← update_job (set_status "FAILED") job_id jobs_store;
    update_job (set_error (exn_msg e)) job_id jobs_store in
  match update_job (set_status "PROCESSING") job_id jobs_store with
  | Raise e => handler e jobs_store
  | Ok jobs_store =>
      match outcome with
      | Raise e => handler e jobs_store
      | Ok ranked =>
          jobs_store ← update_job (set_status "SUCCEEDED") job_id jobs_store;
          jobs_store ← update_job (set_results ranked) job_id jobs_store;
          update_job (set_completed_at now) job_id jobs_store
      end
  end.

(** The job as the background task runs it, with the engine's pipeline. *)
Definition run_job `{Env} (jobs_store : gmap string job) (job_id : string)
    (req : job_request) (rng : nat) : result (gmap string job) * nat :=
  let '(outcome, rng) :=
    run_research (trade req) (city req) (state req) (min_bond req) (keywords req) rng in
  (process_research_job jobs_store job_id outcome now_isoformat, rng).

(** ** A small world for the examples

    A site of tag-free pages, for which BeautifulSoup returns the text
    unchanged; no LLM service; keywords read as literal patterns. *)

Fixpoint until_delimiter (s : string) : string :=
  match s with
  | EmptyString => EmptyString
  | String c s' =>
      if Re.one_of "/?#" c then EmptyString else String c (until_delimiter s')
  end.

(** [urlparse(url).netloc] for a URL that starts with its scheme. *)
Definition plain_netloc (url : string) : option string :=
  if Str.startswith url "https://" then Some (until_delimiter (Str.drop 8 url))
  else if Str.startswith url "http://" then Some (until_delimiter (Str.drop 7 url))
  else Some "".

Definition acme_site : gmap string string :=
  {[ "https://www.acme.com" :=
       "Acme Mechanical. Bonded up to $5 million. Call (512) 555-1234.";
     "https://www.acme.com/about" :=
       "Our history: bonding $2 million since 2019.";
     "https://www.acme.com/projects" :=
       "TX 2024 TX 2024 TX 2024 TX 2024 TX 2024 TX 2024 TX 2024 TX 2024 TX 2024 TX 2024 TX 2024" ]}.

Definition acme_world : Env :=
  {| urlparse_netloc := plain_netloc;
     http_get := λ url, acme_site !! url;
     soup_text := λ html, html;
     llm_call := λ _ _, None;
     now_isoformat := "2026-01-01T00:00:00";
     current_year := 2026;
     entropy := λ n, Z.of_nat n * 7919;
     re_compile_i := λ keyword, Some (Re.lit_i keyword) |}.

Definition acme_candidate : gmap string pyval :=
  {[ "name" := PStr "Acme Mechanical"; "website" := PStr "https://www.acme.com";
     "source" := PStr "yelp" ]}.

(** The first record of the license registry adapter in the example world. *)
Definition first_board_record : gmap string pyval :=
  {[ "name" := PStr "Licensed Hvac Contractor 1";
     "lic_number" := PStr "TX10000000";
     "lic_active" := PBool true;
     "source" := PStr "license_board" ]}.

(** A profile whose recorded bond amount is negative. *)
Definition indebted_profile : gmap string pyval :=
  {[ "name" := PStr "Indebted Mechanical"; "website" := PStr "https://indebted.example";
     "bond_amount" := PInt (-10) ]}.

(** The profile of the specification's worked example: exact location,
    active license, half the required bond, three projects. *)
Definition example_profile : gmap string pyval :=
  {[ "name" := PStr "Example Mechanical"; "website" := PStr "https://example.example";
     "city" := PStr "Austin"; "state" := PStr "TX"; "lic_active" := PBool true;
     "bond_amount" := PInt 2500000; "tx_projects_past_5yrs" := PInt 3 ]}.

(** Every bond amount that is present as a number is non-negative. *)
Definition bond_amount_nonneg (profile : gmap string pyval) : Prop :=
  ∀ b, as_int (get profile "bond_amount") = Some b → 0 <= b.

(** The numerator of the division [bond_amount / min_bond] of line 612,
    when the bonding factor of this profile evaluates it. *)
Definition division_numerator (profile : gmap string pyval) (min_bond : Z) : option Z :=
  match get profile "bond_amount" with
  | PNone => None
  | v =>
      match as_int v with
      | Some bond_amount => if min_bond <=? bond_amount then None else Some bond_amount
      | None => None
      end
  end.

(** A license number and a license status are recorded, neither [None]. *)
Definition licensed (profile : gmap string pyval) : Prop :=
  (∃ n, profile !! "lic_number" = Some n ∧ n ≠ PNone)
  ∧ ∃ b, profile !! "lic_active" = Some (PBool b).

(** What the project-history stage does to one profile: nothing when the
    profile has no site; else it records 0 when no project page is
    fetched, and the estimate for the tallies of the fetched page. *)
Definition history_recorded `{Env} (keywords : list string)
    (profile profile' : gmap string pyval) : Prop :=
  (truthy (get profile "website") = false ∧ profile' = profile)
  ∨ ∃ website count,
      get profile "website" = PStr website
      ∧ profile' = <["tx_projects_past_5yrs" := PInt (Z.of_nat count)]> profile
      ∧ let project_html := fetch_project_page website project_paths in
        let text := soup_text project_html in
        (project_html = "" ∧ count = 0%nat)
        ∨ ∃ keyword_mentions,
            count_keywords keywords text = Ok keyword_mentions
            ∧ count = estimate_project_count (tx_mentions text) (year_mentions text)
                                             keyword_mentions.

(** Every entry of [unique_candidates] is stored under its own domain,
    which is not empty, and comes from the candidate list. *)
Definition well_keyed `{Env} (candidates : list (gmap string pyval))
    (unique : list (string * gmap string pyval)) : Prop :=
  Forall (λ entry, entry.1 ≠ ""
                   ∧ entry.1 = _extract_domain (get_or entry.2 "website" (PStr ""))
                   ∧ entry.2 ∈ candidates) unique.

(** The fields that [models.py] declares [Optional]. *)
Definition optional_fields : list string :=
  ["email"; "phone_number"; "city"; "state"; "lic_active"; "lic_number";
   "bond_amount"; "tx_projects_past_5yrs"].

(** How many of them are non-null in a profile. *)
Definition populated_optional (profile : gmap string pyval) : nat :=
  length (filter (λ k, get profile k ≠ PNone) optional_fields).

(** Every key of the dictionary is one of [ks]. *)
Definition keys_within (ks : list string) (d : gmap string pyval) : Prop :=
  ∀ k, is_Some (d !! k) → k ∈ ks.

(** The keys a profile can have when it leaves the extraction. *)
Definition extraction_keys : list string :=
  ["name"; "website"; "last_checked"; "lic_number"; "lic_active"; "email";
   "phone_number"; "city"; "state"; "bond_amount"; "evidence_text";
   "evidence_page"; "evidence_url"].

(** The numeric fields hold numbers, and the bond amount is not negative. *)
Definition scorable (profile : gmap string pyval) : Prop :=
  (get profile "bond_amount" = PNone
   ∨ ∃ b, as_int (get profile "bond_amount") = Some b ∧ 0 <= b)
  ∧ ∃ t, as_int (get_or profile "tx_projects_past_5yrs" (PInt 0)) = Some t.

(** The order of the final list: scores never increase. *)
Definition score_ge (x y : gmap string pyval) : Prop := score_of y <= score_of x.

(** A score is recorded and lies between [lo] and [hi]. *)
Definition score_within (lo hi : Z) (profile : gmap string pyval) : Prop :=
  ∃ s, profile !! "score" = Some (PInt s) ∧ lo <= s <= hi.

(** ** Definitions for the properties of the other functions *)

(** The key under which [discover_candidates] files a candidate:
    [self._extract_domain(candidate.get("website", ""))]. *)
Definition domain_of `{Env} (candidate : gmap string pyval) : string :=
  _extract_domain (get_or candidate "website" (PStr "")).

(** [candidate] is the first entry of [candidates] with its domain. *)
Definition first_of_its_domain `{Env} (candidates : list (gmap string pyval))
    (candidate : gmap string pyval) : Prop :=
  ∃ before after,
    candidates = before ++ candidate :: after
    ∧ Forall (λ earlier, domain_of earlier ≠ domain_of candidate) before.

(** The [website] a candidate is compared by. *)
Definition website_of (candidate : gmap string pyval) : pyval :=
  get_or candidate "website" (PStr "").

(** What the three directory adapters deliver, whatever they are asked. *)
Definition directory_results : list (gmap string pyval) :=
  _search_google_custom "" ++ _search_yelp "" "" "" ++ _search_bbb "" "" "".

(** The keys of the dictionary [extracted_data] of lines 333-341. *)
Definition data_keys : list string :=
  ["email"; "phone_number"; "city"; "state"; "bond_amount"; "evidence_text";
   "evidence_page"].

(** The fields the LLM fallback may fill (line 435). *)
Definition llm_fields : list string :=
  ["city"; "state"; "bond_amount"; "email"; "phone_number"].

(** A world whose LLM service answers every call with the same object. *)
Definition llm_answer : gmap string pyval :=
  {[ "city" := PStr "Austin"; "state" := PStr "TX"; "bond_amount" := PStr "5 million";
     "email" := PStr "info@llm.example"; "phone_number" := PStr "000-000-0000";
     "evidence_text" := PStr "as the model read it" ]}.

Definition talkative_world : Env :=
  {| urlparse_netloc := plain_netloc;
     http_get := λ url, acme_site !! url;
     soup_text := λ html, html;
     llm_call := λ _ _, Some llm_answer;
     now_isoformat := "2026-01-01T00:00:00";
     current_year := 2026;
     entropy := λ n, Z.of_nat n * 7919;
     re_compile_i := λ keyword, Some (Re.lit_i keyword) |}.

(** Lines 425-428: the text handed to the LLM, from the first three pages. *)
Definition combined_text `{Env} (page_contents : list (string * string)) : string :=
  fold_left (λ acc page, acc +:+ Str.take 5000 (soup_text page.2))
            (List.firstn 3 page_contents) "".

(** Line 423: the pattern pass found city, state and bond amount. *)
Definition complete (data : gmap string pyval) : bool :=
  truthy (get data "city") && truthy (get data "state")
  && truthy (get data "bond_amount").

(** A page on which the patterns find everything they look for. *)
Definition contact_page : list (string * string) :=
  [("/contact",
    "Acme Mechanical, bonded up to $5 million. Call (512) 555-1234 or write to office@acme.com. Visit us in Austin, TX 78701")].

(** Lines 262-263 (and 214-215): an address without scheme is read as an
    [https] address. *)
Definition with_scheme (website : string) : string :=
  if Str.startswith website "http://" || Str.startswith website "https://"
  then website else "https://" +:+ website.

(** What license verification may change in a profile: the two license
    fields, and of those the number only when it is missing or empty. *)
Definition license_update (profile profile' : gmap string pyval) : Prop :=
  (∀ k, k ≠ "lic_number" → k ≠ "lic_active" → profile' !! k = profile !! k)
  ∧ (truthy (get profile "lic_number") = true →
     profile' !! "lic_number" = profile !! "lic_number").

(** The [website] entry is a string, or falsy (such a profile is skipped). *)
Definition site_is_text (profile : gmap string pyval) : Prop :=
  truthy (get profile "website") = false ∨ ∃ website, get profile "website" = PStr website.

(** The profile has a site on which a project page answers with a body. *)
Definition has_project_page `{Env} (profile : gmap string pyval) : Prop :=
  ∃ website, get profile "website" = PStr website ∧ website ≠ ""
             ∧ fetch_project_page website project_paths ≠ "".

(** A world like [acme_world] in which a keyword with an unescaped [+] at
    its start is not a pattern. *)
Definition strict_world : Env :=
  {| urlparse_netloc := plain_netloc;
     http_get := λ url, acme_site !! url;
     soup_text := λ html, html;
     llm_call := λ _ _, None;
     now_isoformat := "2026-01-01T00:00:00";
     current_year := 2026;
     entropy := λ n, Z.of_nat n * 7919;
     re_compile_i := λ keyword,
       if Str.startswith keyword "+" then None else Some (Re.lit_i keyword) |}.

(** The profiles of a list that have a given score, in their order. *)
Definition with_score (score : Z) (profiles : list (gmap string pyval))
  : list (gmap string pyval) :=
  filter (λ profile, score_of profile = score) profiles.

(** The loop of [score_and_rank] scores the profile: it has a name and a
    site. *)
Definition is_scored (profile : gmap string pyval) : Prop :=
  truthy (get profile "name") = true ∧ truthy (get profile "website") = true.

(** A profile as the LLM of [talkative_world] completes it: the bond
    amount is a string. *)
Definition misread_profile : gmap string pyval :=
  {[ "name" := PStr "Misread Mechanical"; "website" := PStr "https://misread.example";
     "bond_amount" := PStr "5 million" ]}.

(** A licensed contractor of whom only the state is known: 40 points. *)
Definition texan_profile (name : string) : gmap string pyval :=
  {[ "name" := PStr name; "website" := PStr "https://texan.example";
     "state" := PStr "TX"; "lic_active" := PBool true ]}.

(** The [website] entry is an address with its scheme. *)
Definition has_scheme (profile : gmap string pyval) : Prop :=
  ∃ website, profile !! "website" = Some (PStr website)
             ∧ Str.startswith website "http://" || Str.startswith website "https://" = true.

(** A world in which the first site of the directories answers. *)
Definition austin_site : gmap string string :=
  {[ "https://www.austinmechanical.com" :=
       "Austin Mechanical, bonded up to $5 million. Call (512) 555-1234 or write to office@austinmechanical.com. Our address: Austin, TX 78701";
     "https://www.austinmechanical.com/projects" :=
       "Hotel retrofit, Austin TX, 2024. Office tower, Dallas TX, 2023." ]}.

Definition austin_world : Env :=
  {| urlparse_netloc := plain_netloc;
     http_get := λ url, austin_site !! url;
     soup_text := λ html, html;
     llm_call := λ _ _, None;
     now_isoformat := "2026-01-01T00:00:00";
     current_year := 2026;
     entropy := λ n, Z.of_nat n * 7919;
     re_compile_i := λ keyword, Some (Re.lit_i keyword) |}.

(** *** The status endpoint (lines 92-110 of [main.py])

    What [get_research_results] answers: the [HTTPException] with status
    404, one of the response bodies, or [None] when no branch returns. *)
Inductive response : Type :=
  | NotFound (detail : string)
  | StatusMessage (status message : string)
  | StatusResults (status : string) (results : option (list (gmap string pyval)))
  | NoBody.

Definition get_research_results (jobs_store : gmap string job) (job_id : string)
  : response :=
  match jobs_store !! job_id with
  | None => NotFound "Job not found"
  | Some job =>
      if String.eqb (status job) "QUEUED" then
        StatusMessage "QUEUED" "Job is queued for processing"
      else if String.eqb (status job) "PROCESSING" then
        StatusMessage "PROCESSING" "Job is currently being processed"
      else if String.eqb (status job) "FAILED" then
        StatusMessage "FAILED"
          ("Job processing failed: " +:+ default "Unknown error" (error job))
      else if String.eqb (status job) "SUCCEEDED" then
        StatusResults "SUCCEEDED" (results job)
      else NoBody
  end.

(** The record of a job that was created and then processed. *)
Definition finished_job (req : job_request) (created : string)
    (outcome : result (list (gmap string pyval))) (now : string) : job :=
  match outcome with
  | Ok ranked =>
      {| status := "SUCCEEDED"; request := req; created_at := created;
         results := Some ranked; completed_at := Some now; error := None |}
  | Raise e =>
      {| status := "FAILED"; request := req; created_at := created;
         results := None; completed_at := None; error := Some (exn_msg e) |}
  end.

(** A bond amount the scoring can work with: none, or a number that is
    not negative. *)
Definition plain_amount (v : pyval) : Prop :=
  v = PNone ∨ ∃ b, as_int v = Some b ∧ 0 <= b.

(** Whatever the LLM answers, a [bond_amount] in its object is such an
    amount. *)
Definition llm_amounts_plain `{Env} : Prop :=
  ∀ text website v, _extract_with_llm text website !! "bond_amount" = Some v →
                    plain_amount v.

(** * Properties *)

(** ** Rounding to nearest is monotone *)

Module Float64Facts.
Import Float64.

Lemma one_units_pos : 0 < one_units.
Proof. unfold one_units. by apply Z.pow_pos_nonneg. Qed.

(** From here on the constants of the format are used through their
    lemmas only; evaluation goes through [vm_compute]. *)
Global Opaque one_units overflow_units of_Z.

Lemma rne_floor num den :
  0 < den → num / den <= rne num den <= num / den + 1.
Proof.
  intros Hd. unfold rne.
  destruct (2 * (num mod den) ?= den); [destruct (Z.even _)|..]; lia.
Qed.

Lemma rne_exact k den : 0 < den → rne (k * den) den = k.
Proof.
  intros Hd. unfold rne.
  rewrite Z.mod_mul, Z.div_mul by lia.
  destruct (Z.compare_spec (2 * 0) den); [lia | reflexivity | lia].
Qed.

Lemma div_le_cross a b c d :
  0 < b → 0 < d → a * d <= c * b → a / b <= c / d.
Proof.
  intros Hb Hd Hle.
  apply Z.div_le_lower_bound; [lia|].
  pose proof (Z.mul_div_le a b Hb).
  apply (Z.mul_le_mono_pos_r _ _ b); [lia|].
  nia.
Qed.

(** The order of two fractions is kept by rounding each to an integer. *)
Lemma rne_le_cross a b c d :
  0 < b → 0 < d → a * d <= c * b → rne a b <= rne c d.
Proof.
  intros Hb Hd Hle.
  pose proof (div_le_cross a b c d Hb Hd Hle) as Hq.
  pose proof (rne_floor a b Hb) as [_ Ha].
  pose proof (rne_floor c d Hd) as [Hc _].
  destruct (Z.eq_dec (a / b) (c / d)) as [Heq|Hne]; [|lia].
  pose proof (Z.div_mod a b ltac:(lia)) as Ea.
  pose proof (Z.div_mod c d ltac:(lia)) as Ec.
  pose proof (Z.mod_pos_bound a b Hb) as Ba.
  pose proof (Z.mod_pos_bound c d Hd) as Bc.
  assert (Hr : (a mod b) * d <= (c mod d) * b) by nia.
  unfold rne. rewrite <- Heq.
  destruct (Z.compare_spec (2 * (a mod b)) b) as [E1|L1|G1];
  destruct (Z.compare_spec (2 * (c mod d)) d) as [E2|L2|G2];
    try destruct (Z.even (a / b)); try lia; exfalso; nia.
Qed.

Lemma rne_le_int num den k : 0 < den → num <= k * den → rne num den <= k.
Proof.
  intros Hd Hle. rewrite <- (rne_exact k 1) by lia.
  apply rne_le_cross; lia.
Qed.

Lemma rne_ge_int num den k : 0 < den → k * den <= num → k <= rne num den.
Proof.
  intros Hd Hle. rewrite <- (rne_exact k 1) at 1 by lia.
  apply rne_le_cross; lia.
Qed.

Lemma grid_nonneg num den : 0 <= grid num den.
Proof. unfold grid. lia. Qed.

Lemma grid_upper num den :
  0 < den → 0 <= num → num < 2 ^ (grid num den + 53) * den.
Proof.
  intros Hd Hn. unfold grid.
  assert (Hq : 0 <= num / den) by (apply Z.div_pos; lia).
  assert (Hlt : num / den < 2 ^ (Z.max (Z.log2 (num / den) - 52) 0 + 53)).
  { destruct (Z.eq_dec (num / den) 0) as [->|Hz].
    - simpl. lia.
    - pose proof (Z.log2_spec (num / den) ltac:(lia)) as [_ Hu].
      eapply Z.lt_le_trans; [exact Hu|].
      apply Z.pow_le_mono_r; [lia|].
      pose proof (Z.log2_nonneg (num / den)). lia. }
  pose proof (Z.div_mod num den ltac:(lia)).
  pose proof (Z.mod_pos_bound num den Hd).
  nia.
Qed.

Lemma grid_lower num den :
  0 < den → 0 <= num → 0 < grid num den → 2 ^ (grid num den + 52) * den <= num.
Proof.
  intros Hd Hn. unfold grid. intros Hg.
  assert (Hq : 0 < num / den).
  { destruct (Z.eq_dec (num / den) 0) as [E|E]; [rewrite E in Hg; simpl in Hg; lia|].
    pose proof (Z.div_pos num den). lia. }
  pose proof (Z.log2_spec (num / den) Hq) as [Hl _].
  replace (Z.max (Z.log2 (num / den) - 52) 0 + 52) with (Z.log2 (num / den)) by lia.
  pose proof (Z.mul_div_le num den Hd). nia.
Qed.

Lemma grid_le_cross a b c d :
  0 < b → 0 < d → 0 <= a → a * d <= c * b → grid a b <= grid c d.
Proof.
  intros Hb Hd Ha Hle. unfold grid.
  pose proof (div_le_cross a b c d Hb Hd Hle).
  pose proof (Z.log2_le_mono (a / b) (c / d)). lia.
Qed.

(** Rounding to the nearest double keeps the order of the exact values. *)
Lemma round_scaled_le_cross a b c d :
  0 < b → 0 < d → 0 <= a → a * d <= c * b →
  round_scaled a b <= round_scaled c d.
Proof.
  intros Hb Hd Ha Hle.
  assert (Hc : 0 <= c) by nia.
  pose proof (grid_le_cross a b c d Hb Hd Ha Hle) as Hg.
  pose proof (grid_nonneg a b) as G1.
  unfold round_scaled.
  set (g1 := grid a b) in *. set (g2 := grid c d) in *.
  assert (P1 : 0 < 2 ^ g1) by (apply Z.pow_pos_nonneg; lia).
  assert (P2 : 0 < 2 ^ g2) by (apply Z.pow_pos_nonneg; lia).
  destruct (Z.eq_dec g1 g2) as [E|NE].
  - rewrite <- E. apply Z.mul_le_mono_nonneg_r; [lia|].
    apply rne_le_cross; nia.
  - assert (Hlt : g1 < g2) by lia.
    pose proof (grid_upper a b Hb Ha) as U. fold g1 in U.
    pose proof (grid_lower c d Hd Hc ltac:(fold g2; lia)) as L. fold g2 in L.
    rewrite Z.pow_add_r in U, L by lia.
    assert (R1 : rne a (b * 2 ^ g1) <= 2 ^ 53) by (apply rne_le_int; nia).
    assert (R2 : 2 ^ 52 <= rne c (d * 2 ^ g2)) by (apply rne_ge_int; nia).
    assert (Hp : 2 ^ 53 * 2 ^ g1 <= 2 ^ 52 * 2 ^ g2).
    { replace g2 with (g1 + 1 + (g2 - g1 - 1)) by lia.
      rewrite !Z.pow_add_r by lia.
      assert (0 < 2 ^ (g2 - g1 - 1)) by (apply Z.pow_pos_nonneg; lia).
      change (2 ^ 53) with (2 ^ 52 * 2). change (2 ^ 1) with 2. nia. }
    nia.
Qed.

Lemma round_scaled_nonneg num den :
  0 < den → 0 <= num → 0 <= round_scaled num den.
Proof.
  intros Hd Hn. unfold round_scaled.
  pose proof (grid_nonneg num den) as Hg.
  assert (0 < 2 ^ grid num den) by (apply Z.pow_pos_nonneg; lia).
  assert (0 <= rne num (den * 2 ^ grid num den)).
  { apply (rne_ge_int _ _ 0); nia. }
  nia.
Qed.

(** Equal fractions round to the same double. *)
Lemma round_scaled_eq_cross a b c d :
  0 < b → 0 < d → 0 <= a → a * d = c * b → round_scaled a b = round_scaled c d.
Proof.
  intros Hb Hd Ha Heq.
  assert (0 <= c) by nia.
  apply Z.le_antisymm; apply round_scaled_le_cross; lia.
Qed.

(** The signed rounding is monotone wherever it stays finite. *)
Lemma round_signed_mono n1 n2 d u1 u2 :
  0 < d → n1 <= n2 →
  round_signed n1 d = F_fin u1 → round_signed n2 d = F_fin u2 → u1 <= u2.
Proof.
  intros Hd Hle. unfold round_signed.
  pose proof (round_scaled_nonneg (Z.abs n1) d Hd (Z.abs_nonneg _)) as N1.
  pose proof (round_scaled_nonneg (Z.abs n2) d Hd (Z.abs_nonneg _)) as N2.
  destruct (overflow_units <=? _); [discriminate|].
  destruct (overflow_units <=? _); [discriminate|].
  intros [= <-] [= <-].
  destruct (Z.ltb_spec n1 0) as [S1|S1], (Z.ltb_spec n2 0) as [S2|S2]; try lia.
  - assert (round_scaled (Z.abs n2) d <= round_scaled (Z.abs n1) d); [|lia].
    apply round_scaled_le_cross; try lia. nia.
  - apply round_scaled_le_cross; try lia. nia.
Qed.

(** Below a finite result the rounding stays finite, for non-negative
    exact values. *)
Lemma round_signed_finite_below n1 n2 d u2 :
  0 < d → 0 <= n1 <= n2 → round_signed n2 d = F_fin u2 →
  ∃ u1, round_signed n1 d = F_fin u1.
Proof.
  intros Hd [H0 Hle]. unfold round_signed.
  destruct (Z.leb_spec overflow_units (round_scaled (Z.abs n2) d)) as [|Hfin];
    [discriminate|]. intros _.
  assert (round_scaled (Z.abs n1) d <= round_scaled (Z.abs n2) d).
  { apply round_scaled_le_cross; try lia. nia. }
  destruct (Z.leb_spec overflow_units (round_scaled (Z.abs n1) d)); [lia|].
  eauto.
Qed.

Lemma round_signed_one m : 0 < m → round_signed (m * one_units) m = F_fin one_units.
Proof.
  intros Hm. unfold round_signed.
  pose proof one_units_pos as Hone.
  rewrite Z.abs_eq by nia.
  rewrite (round_scaled_eq_cross (m * one_units) m one_units 1) by nia.
  replace (m * one_units <? 0) with false by (symmetry; apply Z.ltb_ge; nia).
  vm_compute. reflexivity.
Qed.

Lemma round_signed_zero d : 0 < d → round_signed 0 d = F_fin 0.
Proof.
  intros Hd. unfold round_signed.
  rewrite (round_scaled_eq_cross (Z.abs 0) d 0 1) by (simpl; lia).
  vm_compute. reflexivity.
Qed.

Lemma of_Z_25 : of_Z 25 = F_fin (25 * one_units).
Proof. vm_compute. reflexivity. Qed.

Lemma fmul_25_one : fmul (of_Z 25) (F_fin one_units) = F_fin (25 * one_units).
Proof. vm_compute. reflexivity. Qed.

Lemma fmul_25_zero : fmul (of_Z 25) (F_fin 0) = F_fin 0.
Proof. vm_compute. reflexivity. Qed.

(** [25 * x] is monotone in [x] wherever it stays finite. *)
Lemma fmul_25_mono u1 u2 w1 w2 :
  u1 <= u2 →
  fmul (of_Z 25) (F_fin u1) = F_fin w1 → fmul (of_Z 25) (F_fin u2) = F_fin w2 →
  w1 <= w2.
Proof.
  intros Hle. rewrite of_Z_25. unfold fmul.
  pose proof one_units_pos as Hone.
  apply round_signed_mono; [done|]. nia.
Qed.

Lemma fmul_25_finite u :
  0 <= u <= one_units → ∃ w, fmul (of_Z 25) (F_fin u) = F_fin w.
Proof.
  intros [H0 H1].
  pose proof one_units_pos as Hone.
  pose proof fmul_25_one as Htop. rewrite of_Z_25 in *. unfold fmul in *.
  eapply round_signed_finite_below; [done| |exact Htop]. nia.
Qed.

Lemma to_int_mono w1 w2 f1 f2 :
  w1 <= w2 → to_int (F_fin w1) = Ok f1 → to_int (F_fin w2) = Ok f2 → f1 <= f2.
Proof.
  intros Hle [= <-] [= <-].
  apply Z.quot_le_mono; [apply one_units_pos|done].
Qed.

(** The quotient of integers, for a positive divisor. *)
Lemma true_div_pos b m :
  0 < m →
  true_div b m = match round_signed (b * one_units) m with
                 | F_fin u => Ok (F_fin u)
                 | _ => Raise (Exn OverflowError "integer division result too large for a float")
                 end.
Proof.
  intros Hm. unfold true_div.
  destruct (Z.eqb_spec m 0); [lia|].
  rewrite Z.sgn_pos, Z.abs_eq by lia.
  by replace (1 * b * one_units) with (b * one_units) by lia.
Qed.

Lemma true_div_mono b1 b2 m x1 x2 :
  0 < m → b1 <= b2 →
  true_div b1 m = Ok x1 → true_div b2 m = Ok x2 →
  ∃ u1 u2, x1 = F_fin u1 ∧ x2 = F_fin u2 ∧ u1 <= u2.
Proof.
  intros Hm Hle. rewrite !true_div_pos by done.
  pose proof one_units_pos as Hone.
  destruct (round_signed (b1 * one_units) m) as [u1| |] eqn:E1; try discriminate.
  destruct (round_signed (b2 * one_units) m) as [u2| |] eqn:E2; try discriminate.
  intros [= <-] [= <-]. exists u1, u2. split_and!; [done..|].
  eapply round_signed_mono; [exact Hm| |exact E1|exact E2]. nia.
Qed.

Lemma true_div_unit b m :
  0 < m → 0 <= b <= m →
  ∃ u, true_div b m = Ok (F_fin u) ∧ 0 <= u <= one_units.
Proof.
  intros Hm [H0 H1]. rewrite true_div_pos by done.
  pose proof one_units_pos as Hone.
  pose proof (round_signed_one m Hm) as Htop.
  destruct (round_signed_finite_below (b * one_units) (m * one_units) m _ Hm
              ltac:(nia) Htop) as [u Hu].
  rewrite Hu. exists u. split; [done|]. split.
  - eapply (round_signed_mono 0 (b * one_units) m); [done| |by apply round_signed_zero|done].
    nia.
  - eapply (round_signed_mono (b * one_units) (m * one_units) m); [done| |done|done].
    nia.
Qed.

End Float64Facts.

(** ** The bonding factor *)

Section BondPoints.
Import Float64 Float64Facts.

Lemma bond_points_full b m : m <= b → bond_points b m = Ok 25.
Proof. intros Hle. unfold bond_points. by rewrite (proj2 (Z.leb_le m b) Hle). Qed.

Lemma bond_points_below b m : b < m → bond_points b m = partial_points b m.
Proof. intros Hlt. unfold bond_points. by rewrite (proj2 (Z.leb_gt m b) Hlt). Qed.

(** A result of the partial branch unfolds into its three steps. *)
Lemma partial_points_inv b m f :
  partial_points b m = Ok f →
  ∃ u w, true_div b m = Ok (F_fin u) ∧ fmul (of_Z 25) (F_fin u) = F_fin w
         ∧ f = Z.quot w one_units.
Proof.
  unfold partial_points. intros Hf.
  destruct (true_div b m) as [x|e] eqn:Hdiv; [|discriminate Hf].
  assert (∃ u, x = F_fin u) as [u ->].
  { unfold true_div in Hdiv. destruct (m =? 0); [discriminate Hdiv|].
    destruct (round_signed _ _); [|discriminate Hdiv..].
    injection Hdiv as <-. eauto. }
  simpl in Hf.
  destruct (fmul (of_Z 25) (F_fin u)) as [w| |] eqn:Hmul;
    unfold to_int in Hf; [|discriminate Hf..].
  injection Hf as <-. eauto.
Qed.

(** On a non-negative fraction the partial branch is monotone in the
    fraction, whatever its representation. *)
Lemma partial_points_cross b1 m1 b2 m2 f1 f2 :
  0 < m1 → 0 < m2 → 0 <= b1 → b1 * m2 <= b2 * m1 →
  partial_points b1 m1 = Ok f1 → partial_points b2 m2 = Ok f2 → f1 <= f2.
Proof.
  intros Hm1 Hm2 Hb1 Hle H1 H2.
  apply partial_points_inv in H1 as (u1 & w1 & D1 & M1 & ->).
  apply partial_points_inv in H2 as (u2 & w2 & D2 & M2 & ->).
  pose proof one_units_pos as Hone.
  assert (Hb2 : 0 <= b2) by nia.
  assert (Hu : u1 <= u2).
  { rewrite true_div_pos in D1, D2 by done.
    unfold round_signed in D1, D2.
    replace (b1 * one_units <? 0) with false in D1 by (symmetry; apply Z.ltb_ge; nia).
    replace (b2 * one_units <? 0) with false in D2 by (symmetry; apply Z.ltb_ge; nia).
    rewrite Z.abs_eq in D1, D2 by nia.
    destruct (overflow_units <=? _) in D1; [discriminate D1|].
    destruct (overflow_units <=? _) in D2; [discriminate D2|].
    injection D1 as <-. injection D2 as <-.
    apply round_scaled_le_cross; nia. }
  apply Z.quot_le_mono; [done|].
  by eapply fmul_25_mono.
Qed.

Lemma partial_points_mono b1 b2 m f1 f2 :
  0 < m → b1 <= b2 →
  partial_points b1 m = Ok f1 → partial_points b2 m = Ok f2 → f1 <= f2.
Proof.
  intros Hm Hle H1 H2.
  apply partial_points_inv in H1 as (u1 & w1 & D1 & M1 & ->).
  apply partial_points_inv in H2 as (u2 & w2 & D2 & M2 & ->).
  destruct (true_div_mono b1 b2 m _ _ Hm Hle D1 D2) as (? & ? & E1 & E2 & Hu).
  injection E1 as <-. injection E2 as <-.
  apply Z.quot_le_mono; [apply one_units_pos|].
  by eapply fmul_25_mono.
Qed.

(** At or below the minimum, with a non-negative amount, the partial
    branch returns, between 0 and 25. *)
Lemma partial_points_unit b m :
  0 < m → 0 <= b <= m → ∃ f, partial_points b m = Ok f ∧ 0 <= f <= 25.
Proof.
  intros Hm Hb.
  pose proof one_units_pos as Hone.
  destruct (true_div_unit b m Hm Hb) as (u & Hdiv & Hu).
  destruct (fmul_25_finite u Hu) as [w Hw].
  exists (Z.quot w one_units). split.
  { unfold partial_points. rewrite Hdiv. simpl. rewrite Hw. reflexivity. }
  pose proof (fmul_25_mono 0 u 0 w ltac:(lia) fmul_25_zero Hw).
  pose proof (fmul_25_mono u one_units w _ ltac:(lia) Hw fmul_25_one).
  split.
  - apply Z.quot_pos; lia.
  - apply Z.quot_le_upper_bound; lia.
Qed.

(** Whenever the minimum is positive the partial branch gives at most 25
    below the minimum. *)
Lemma partial_points_le_25 b m f :
  0 < m → b < m → partial_points b m = Ok f → f <= 25.
Proof.
  intros Hm Hlt Hf.
  destruct (partial_points_unit m m Hm ltac:(lia)) as (f' & Hf' & Hb).
  pose proof (partial_points_mono b m m f f' Hm ltac:(lia) Hf Hf'). lia.
Qed.

(** On the fractions [k / 25] the partial branch is exact. *)
Lemma partial_points_grid k : 0 <= k <= 25 → partial_points k 25 = Ok k.
Proof.
  intros Hk.
  assert (Hall : forallb (λ k, match partial_points k 25 with
                               | Ok f => f =? k
                               | Raise _ => false
                               end) (seqZ 0 26) = true)
    by (vm_compute; reflexivity).
  rewrite forallb_forall in Hall.
  specialize (Hall k). 
  destruct (partial_points k 25) as [f|e].
  - f_equal. apply Z.eqb_eq, Hall, list_elem_of_In, elem_of_seqZ. lia.
  - exfalso. apply Bool.diff_false_true, Hall, list_elem_of_In, elem_of_seqZ. lia.
Qed.

Lemma bond_points_floor b m f :
  0 < m → 0 <= b < m → bond_points b m = Ok f →
  25 * b / m <= f <= 25 * b / m + 1.
Proof.
  intros Hm Hb. rewrite bond_points_below by lia. intros Hf.
  set (k := 25 * b / m).
  assert (Hk : k * m <= 25 * b < (k + 1) * m).
  { pose proof (Z.mul_div_le (25 * b) m Hm).
    pose proof (Z.mul_succ_div_gt (25 * b) m Hm). subst k. lia. }
  assert (0 <= k <= 24) by nia.
  split.
  - eapply (partial_points_cross k 25 b m); [lia..| |exact Hf].
    apply partial_points_grid. lia.
  - eapply (partial_points_cross b m (k + 1) 25); [lia..|exact Hf|].
    apply partial_points_grid. lia.
Qed.

Lemma bond_points_le_25 b m f : 0 <= m → bond_points b m = Ok f → f <= 25.
Proof.
  intros Hm. unfold bond_points.
  destruct (Z.leb_spec m b) as [Hle|Hlt]; [intros [= <-]; lia|].
  destruct (Z.eq_dec m 0) as [->|Hne].
  - unfold partial_points, true_div. simpl. intros Hf. discriminate Hf.
  - apply partial_points_le_25; lia.
Qed.

Lemma bond_points_mono b1 b2 m f1 f2 :
  0 < m → b1 <= b2 →
  bond_points b1 m = Ok f1 → bond_points b2 m = Ok f2 → f1 <= f2.
Proof.
  intros Hm Hle H1 H2.
  destruct (Z.le_gt_cases m b2) as [Hfull|Hpart].
  - rewrite bond_points_full in H2 by done. injection H2 as <-.
    apply (bond_points_le_25 b1 m); [lia|exact H1].
  - rewrite bond_points_below in H1, H2 by lia.
    by eapply partial_points_mono.
Qed.

(** A division by zero is raised only for a negative amount against a
    minimum of zero. *)
Lemma bond_points_zero_division b m e :
  bond_points b m = Raise e → exn_type e = ZeroDivisionError → m = 0 ∧ b < 0.
Proof.
  unfold bond_points.
  destruct (Z.leb_spec m b) as [Hle|Hlt]; [intros Hf; discriminate Hf|].
  unfold partial_points, true_div. destruct (Z.eqb_spec m 0) as [->|Hne].
  - intros _ _. lia.
  - destruct (round_signed _ _) as [u| |]; simpl.
    + destruct (fmul (of_Z 25) (F_fin u)); unfold to_int; intros Hf Hk.
      * discriminate Hf.
      * injection Hf as <-. discriminate Hk.
      * injection Hf as <-. discriminate Hk.
    + intros Hf Hk. injection Hf as <-. discriminate Hk.
    + intros Hf Hk. injection Hf as <-. discriminate Hk.
Qed.

End BondPoints.

(** C6, as the specification states it, fails on large amounts: for the
    amount [10^17 - 1] against the minimum [25 * 10^17] the exact value of
    [25 * b / m] is just below 1, so its floor is 0, while the two
    roundings of [int(25 * (b / m))] give 1. *)
Lemma bond_points_not_always_floor :
  0 < 25 * 10 ^ 17 ∧ 0 <= 10 ^ 17 - 1 < 25 * 10 ^ 17
  ∧ bond_points (10 ^ 17 - 1) (25 * 10 ^ 17) = Ok 1
  ∧ 25 * (10 ^ 17 - 1) / (25 * 10 ^ 17) = 0.
Proof. vm_compute. repeat split; congruence. Qed.

(** C6 (amended): for a minimum [m > 0], an amount [b >= m] earns exactly
    25; an amount [0 <= b < m] earns [int(25 * (b / m))] computed in double
    precision, which lies in [0, 25] and is [floor(25*b/m)] or, through
    rounding, one more; and the points never decrease when [b] grows. *)
Theorem bond_points_spec (b m : Z) :
  0 < m →
  (m <= b → bond_points b m = Ok 25)
  ∧ (0 <= b < m →
       ∃ f, bond_points b m = Ok f ∧ 0 <= f <= 25
            ∧ 25 * b / m <= f <= 25 * b / m + 1)
  ∧ (∀ b' f f', b <= b' →
       bond_points b m = Ok f → bond_points b' m = Ok f' → f <= f').
Proof.
  intros Hm. split_and!.
  - apply bond_points_full.
  - intros Hb.
    destruct (partial_points_unit b m Hm ltac:(lia)) as (f & Hf & Hrange).
    rewrite <- bond_points_below in Hf by lia.
    exists f. split_and!; [exact Hf|lia..| |].
    all: by apply (bond_points_floor b m f Hm Hb).
  - intros b' f f' Hle. by apply bond_points_mono.
Qed.

Lemma bond_points_spec_witness :
  0 < 5000000
  ∧ bond_points 7000000 5000000 = Ok 25
  ∧ ∃ f, bond_points 2500000 5000000 = Ok f ∧ 0 <= f <= 25
         ∧ 25 * 2500000 / 5000000 <= f <= 25 * 2500000 / 5000000 + 1.
Proof.
  pose proof (bond_points_spec 7000000 5000000 ltac:(lia)) as (Hfull & _ & _).
  pose proof (bond_points_spec 2500000 5000000 ltac:(lia)) as (_ & Hpart & _).
  split; [lia|]. split; [apply Hfull; lia|apply Hpart; lia].
Defined.

(** ** Scoring and ranking *)

Section Scoring.

Lemma geographic_factor_range p c s : 0 <= geographic_factor p c s <= 25.
Proof. unfold geographic_factor. repeat case_match; lia. Qed.

Lemma license_factor_range p : 0 <= license_factor p <= 25.
Proof. unfold license_factor. repeat case_match; lia. Qed.

Lemma bonding_factor_le_25 p m f : 0 <= m → bonding_factor p m = Ok f → f <= 25.
Proof.
  intros Hm. unfold bonding_factor.
  destruct (get p "bond_amount") as [|b|z|s]; simpl.
  - intros [= <-]. lia.
  - apply bond_points_le_25, Hm.
  - apply bond_points_le_25, Hm.
  - intros Hf. discriminate Hf.
Qed.

Lemma project_factor_le_25 p f : project_factor p = Ok f → f <= 25.
Proof.
  unfold project_factor.
  destruct (as_int _) as [tx|]; [|intros Hf; discriminate Hf].
  intros [= <-]. destruct (Z.leb_spec 5 tx); lia.
Qed.

(** The score is the sum of the four factors, when both fallible factors
    return. *)
Lemma score_profile_inv p c s m x :
  score_profile p c s m = Ok x →
  ∃ bond projects,
    bonding_factor p m = Ok bond ∧ project_factor p = Ok projects
    ∧ x = geographic_factor p c s + license_factor p + bond + projects.
Proof.
  unfold score_profile.
  destruct (bonding_factor p m) as [bond|e]; simpl; [|intros Hx; discriminate Hx].
  destruct (project_factor p) as [projects|e]; simpl; [|intros Hx; discriminate Hx].
  intros [= <-]. exists bond, projects. split_and!; [done..|lia].
Qed.

Lemma score_profile_le_100 p c s m x :
  0 <= m → score_profile p c s m = Ok x → x <= 100.
Proof.
  intros Hm (bond & projects & Hb & Hp & ->)%score_profile_inv.
  pose proof (geographic_factor_range p c s).
  pose proof (license_factor_range p).
  pose proof (bonding_factor_le_25 p m bond Hm Hb).
  pose proof (project_factor_le_25 p projects Hp).
  lia.
Qed.

Lemma score_of_insert p x : score_of (<["score" := PInt x]> p) = x.
Proof. unfold score_of, get_or. by rewrite lookup_insert_eq. Qed.

(** The stable insertion sort. *)
Lemma insert_desc_perm x l : Permutation (x :: l) (insert_desc x l).
Proof.
  induction l as [|y l IH]; simpl; [done|].
  destruct (score_of x <? score_of y); [|done].
  rewrite perm_swap. by constructor.
Qed.

Lemma sort_desc_perm l : Permutation l (sort_desc l).
Proof.
  induction l as [|x l IH]; simpl; [done|].
  rewrite <- insert_desc_perm. by constructor.
Qed.

Lemma insert_desc_sorted x l :
  StronglySorted score_ge l → StronglySorted score_ge (insert_desc x l).
Proof.
  induction 1 as [|y l Hsorted IH Hall]; simpl.
  - repeat constructor.
  - destruct (Z.ltb_spec (score_of x) (score_of y)) as [Hlt|Hge].
    + constructor; [exact IH|].
      rewrite <- insert_desc_perm. constructor; [|exact Hall].
      unfold score_ge. lia.
    + constructor; [by constructor|].
      constructor; [unfold score_ge; lia|].
      eapply Forall_impl; [exact Hall|].
      unfold score_ge. intros z Hz. lia.
Qed.

Lemma sort_desc_sorted l : StronglySorted score_ge (sort_desc l).
Proof.
  induction l as [|x l IH]; simpl; [constructor|].
  by apply insert_desc_sorted.
Qed.

(** The loop appends the qualifying profiles to its accumulator. *)
Lemma rank_loop_spec profiles c s m acc out :
  rank_loop profiles c s m acc = Ok out → out = acc ++ qualifying profiles c s m.
Proof.
  revert acc. induction profiles as [|p profiles IH]; intros acc; simpl.
  - intros [= <-]. by rewrite app_nil_r.
  - unfold qualifying. simpl. fold (qualifying profiles c s m).
    destruct (truthy (get p "name")), (truthy (get p "website")); simpl;
      try apply IH.
    destruct (score_profile p c s m) as [x|e]; simpl; [|intros Hx; discriminate Hx].
    intros Hout%IH. destruct (40 <=? x); simpl; [|exact Hout].
    by rewrite <- app_assoc in Hout.
Qed.

(** A failure of the loop is the failure of scoring one of the profiles. *)
Lemma rank_loop_raise profiles c s m acc e :
  rank_loop profiles c s m acc = Raise e →
  ∃ p, p ∈ profiles ∧ score_profile p c s m = Raise e.
Proof.
  revert acc. induction profiles as [|p profiles IH]; intros acc; simpl.
  - intros Hx. discriminate Hx.
  - destruct (negb _ || negb _).
    + intros (q & Hq & Hs)%IH. exists q. split; [by constructor|done].
    + destruct (score_profile p c s m) as [x|e'] eqn:Hp; simpl.
      * intros (q & Hq & Hs)%IH. exists q. split; [by constructor|done].
      * intros [= <-]. exists p. split; [constructor|done].
Qed.

Lemma qualifying_scores profiles c s m :
  0 <= m → Forall (score_within 40 100) (qualifying profiles c s m).
Proof.
  intros Hm. induction profiles as [|p profiles IH]; [constructor|].
  unfold qualifying. simpl. fold (qualifying profiles c s m).
  destruct (truthy _ && truthy _); [|exact IH].
  destruct (score_profile p c s m) as [x|e] eqn:Hx; [|exact IH].
  destruct (Z.leb_spec 40 x); [|exact IH].
  constructor; [|exact IH].
  exists x. split; [apply lookup_insert_eq|].
  pose proof (score_profile_le_100 p c s m x Hm Hx). lia.
Qed.

End Scoring.

(** C1, as the specification states it, fails for a negative minimum: the
    amount [-10] against the minimum [-1] is below the minimum, the ratio
    is 10, and the bonding factor alone is 250. *)
Lemma score_and_rank_above_100 :
  ∃ out, score_and_rank [indebted_profile] "Austin" "TX" (-1) = Ok out
         ∧ ¬ Forall (score_within 0 100) out.
Proof.
  exists [<["score" := PInt 260]> indebted_profile]. split.
  - vm_compute. reflexivity.
  - intros Hall. apply Forall_inv in Hall as (x & Hx & Hrange).
    rewrite lookup_insert_eq in Hx. injection Hx as <-. lia.
Qed.

(** C1 (amended): for every profile list, target city/state and minimum
    [min_bond >= 0], the list returned by [score_and_rank] holds exactly the
    scored profiles with a score of at least 40, every score in it lies in
    [0, 100], and it is sorted by score in descending order. *)
Theorem score_and_rank_spec (profiles : list (gmap string pyval))
    (target_city target_state : string) (min_bond : Z)
    (out : list (gmap string pyval)) :
  0 <= min_bond →
  score_and_rank profiles target_city target_state min_bond = Ok out →
  Permutation out (qualifying profiles target_city target_state min_bond)
  ∧ Forall (score_within 0 100) out
  ∧ StronglySorted score_ge out.
Proof.
  intros Hm. unfold score_and_rank.
  destruct (rank_loop _ _ _ _ _) as [ranked|e] eqn:Hloop; simpl;
    [|intros Hx; discriminate Hx].
  intros [= <-]. apply rank_loop_spec in Hloop. simpl in Hloop. subst ranked.
  split_and!.
  - symmetry. apply sort_desc_perm.
  - rewrite <- sort_desc_perm.
    eapply Forall_impl; [by apply qualifying_scores|].
    intros p (x & Hx & Hrange). exists x. split; [done|lia].
  - apply sort_desc_sorted.
Qed.

Lemma score_and_rank_spec_witness :
  ∃ out, score_and_rank [indebted_profile; example_profile] "Austin" "TX" 5000000 = Ok out
         ∧ Permutation out (qualifying [indebted_profile; example_profile] "Austin" "TX" 5000000)
         ∧ Forall (score_within 0 100) out
         ∧ StronglySorted score_ge out.
Proof.
  exists [<["score" := PInt 77]> example_profile].
  assert (Hrun : score_and_rank [indebted_profile; example_profile] "Austin" "TX" 5000000
                 = Ok [<["score" := PInt 77]> example_profile])
    by (vm_compute; reflexivity).
  split; [exact Hrun|].
  apply (score_and_rank_spec _ "Austin" "TX" 5000000); [lia|exact Hrun].
Defined.

(** ** Division by zero *)

Lemma score_profile_raise p c s m e :
  score_profile p c s m = Raise e →
  bonding_factor p m = Raise e ∨ project_factor p = Raise e.
Proof.
  unfold score_profile.
  destruct (bonding_factor p m) as [bond|e1]; simpl; [|intros [= <-]; by left].
  destruct (project_factor p) as [projects|e2]; simpl; [intros Hx; discriminate Hx|].
  intros [= <-]. by right.
Qed.

Lemma project_factor_raise p e : project_factor p = Raise e → exn_type e = TypeError.
Proof.
  unfold project_factor. destruct (as_int _); [intros Hx; discriminate Hx|].
  by intros [= <-].
Qed.

(** The bonding factor divides exactly when [division_numerator] says so. *)
Lemma bonding_factor_division p m :
  bonding_factor p m =
    match division_numerator p m with
    | Some b => partial_points b m
    | None =>
        match get p "bond_amount" with
        | PNone => Ok 0
        | v => match as_int v with
               | Some _ => Ok 25
               | None => Raise (not_comparable ">=" v)
               end
        end
    end.
Proof.
  unfold bonding_factor, division_numerator, bond_points.
  destruct (get p "bond_amount") as [|b|z|s]; simpl; try reflexivity.
  - by destruct (m <=? Z.b2z b).
  - by destruct (m <=? z).
Qed.

Lemma bonding_factor_zero_division p m e :
  bonding_factor p m = Raise e → exn_type e = ZeroDivisionError →
  ∃ b, as_int (get p "bond_amount") = Some b ∧ m = 0 ∧ b < 0.
Proof.
  unfold bonding_factor.
  destruct (get p "bond_amount") as [|b|z|s]; simpl.
  - intros Hx. discriminate Hx.
  - intros Hx Hk. exists (Z.b2z b). split; [done|].
    by apply (bond_points_zero_division _ _ e).
  - intros Hx Hk. exists z. split; [done|].
    by apply (bond_points_zero_division _ _ e).
  - intros [= <-] Hk. discriminate Hk.
Qed.

(** C10: for every [min_bond >= 0] and every profile list whose present
    bond amounts are [>= 0], [score_and_rank] never raises a division by
    zero; the division [bond_amount / min_bond] is evaluated only for
    [bond_amount < min_bond], and then [min_bond >= 1]. *)
Theorem score_and_rank_no_zero_division (profiles : list (gmap string pyval))
    (target_city target_state : string) (min_bond : Z) :
  0 <= min_bond →
  Forall bond_amount_nonneg profiles →
  (∀ e, score_and_rank profiles target_city target_state min_bond = Raise e →
        exn_type e ≠ ZeroDivisionError)
  ∧ (∀ p b, p ∈ profiles → division_numerator p min_bond = Some b →
            b < min_bond ∧ 1 <= min_bond
            ∧ ∃ ratio, Float64.true_div b min_bond = Ok ratio).
Proof.
  intros Hm Hall. rewrite Forall_forall in Hall. split.
  - intros e. unfold score_and_rank.
    destruct (rank_loop _ _ _ _ _) as [ranked|e'] eqn:Hloop; simpl;
      [intros Hx; discriminate Hx|].
    intros [= <-] Hk.
    apply rank_loop_raise in Hloop as (p & Hp & Hscore).
    apply score_profile_raise in Hscore as [Hbond|Hproj].
    + destruct (bonding_factor_zero_division p min_bond e' Hbond Hk)
        as (b & Hb & _ & Hneg).
      specialize (Hall p Hp b Hb). lia.
    + apply project_factor_raise in Hproj. congruence.
  - intros p b Hp Hdiv.
    assert (Hb : as_int (get p "bond_amount") = Some b ∧ b < min_bond).
    { unfold division_numerator in Hdiv.
      destruct (get p "bond_amount") as [|x|z|s]; simpl in *; try discriminate Hdiv.
      - destruct (Z.leb_spec min_bond (Z.b2z x)); [discriminate Hdiv|].
        injection Hdiv as <-. done.
      - destruct (Z.leb_spec min_bond z); [discriminate Hdiv|].
        injection Hdiv as <-. done. }
    destruct Hb as [Hb Hlt]. specialize (Hall p Hp b Hb).
    split_and!; [lia..|].
    destruct (Float64Facts.true_div_unit b min_bond ltac:(lia) ltac:(lia))
      as (u & Hu & _).
    eauto.
Qed.

Lemma score_and_rank_no_zero_division_witness :
  0 <= 5000000 ∧ Forall bond_amount_nonneg [example_profile]
  ∧ (∀ e, score_and_rank [example_profile] "Austin" "TX" 5000000 = Raise e →
          exn_type e ≠ ZeroDivisionError)
  ∧ division_numerator example_profile 5000000 = Some 2500000.
Proof.
  assert (Hnonneg : Forall bond_amount_nonneg [example_profile]).
  { constructor; [|constructor]. intros b Hb. vm_compute in Hb.
    injection Hb as <-. lia. }
  split; [lia|]. split; [exact Hnonneg|]. split.
  - apply (score_and_rank_no_zero_division [example_profile] "Austin" "TX" 5000000);
      [lia|exact Hnonneg].
  - vm_compute. reflexivity.
Defined.

(** ** Scoring returns on well-typed profiles *)

Lemma bonding_factor_returns p m :
  0 <= m →
  (get p "bond_amount" = PNone
   ∨ ∃ b, as_int (get p "bond_amount") = Some b ∧ 0 <= b) →
  ∃ f, bonding_factor p m = Ok f.
Proof.
  intros Hm Hbond. unfold bonding_factor.
  destruct Hbond as [->|(b & Hb & Hpos)]; [eauto|].
  assert (Hpoints : ∃ f, bond_points b m = Ok f).
  { destruct (Z.le_gt_cases m b) as [Hfull|Hpart].
    - rewrite bond_points_full by done. eauto.
    - rewrite bond_points_below by done.
      destruct (partial_points_unit b m ltac:(lia) ltac:(lia)) as (f & Hf & _). eauto. }
  destruct (get p "bond_amount") as [|x|z|s]; simpl in *;
    [discriminate Hb|injection Hb as <-; exact Hpoints
    |injection Hb as <-; exact Hpoints|discriminate Hb].
Qed.

Lemma rank_loop_returns profiles c s m acc :
  0 <= m → Forall scorable profiles → ∃ out, rank_loop profiles c s m acc = Ok out.
Proof.
  intros Hm Hall. revert acc.
  induction Hall as [|p profiles [Hbond [t Ht]] Hall IH]; intros acc; simpl; [eauto|].
  destruct (negb _ || negb _); [apply IH|].
  unfold score_profile.
  destruct (bonding_factor_returns p m Hm Hbond) as [f ->]. simpl.
  unfold project_factor. rewrite Ht. simpl. apply IH.
Qed.

(** On well-typed profiles and a non-negative minimum the ranking returns. *)
Lemma score_and_rank_returns profiles c s m :
  0 <= m → Forall scorable profiles → ∃ out, score_and_rank profiles c s m = Ok out.
Proof.
  intros Hm Hall. unfold score_and_rank.
  destruct (rank_loop_returns profiles c s m [] Hm Hall) as [ranked ->].
  simpl. eauto.
Qed.

(** ** Profile extraction: the retention rule *)

Section Retention.
Context `{Env}.

Lemma _extract_single_profile_populated candidate profile :
  _extract_single_profile candidate = Ok (Some profile) →
  (4 <= populated_fields profile)%nat.
Proof.
  unfold _extract_single_profile.
  destruct (negb (truthy (get candidate "website"))); [intros Hx; discriminate Hx|].
  destruct (get candidate "website") as [| | |website];
    try (intros Hx; discriminate Hx).
  destruct (fetch_pages _) as [|page pages]; [intros Hx; discriminate Hx|].
  match goal with
  | |- (if (4 <=? populated_fields ?p)%nat then _ else _) = _ → _ =>
      destruct (Nat.leb_spec 4 (populated_fields p)) as [Hle|Hlt]
  end; [|intros Hx; discriminate Hx].
  intros Hx. injection Hx as <-. exact Hle.
Qed.

Lemma extract_batch_elem batch profile :
  profile ∈ extract_batch batch →
  ∃ candidate, candidate ∈ batch ∧ _extract_single_profile candidate = Ok (Some profile).
Proof.
  unfold extract_batch. intros (candidate & Hin & Hsome)%list_elem_of_omap.
  exists candidate. split; [exact Hin|].
  destruct (_extract_single_profile candidate) as [[p|]|e];
    try discriminate Hsome.
  destruct (bool_decide (p = ∅)); [discriminate Hsome|].
  by injection Hsome as <-.
Qed.

Lemma batches_elem {A} fuel n (l : list A) batch x :
  batch ∈ batches fuel n l → x ∈ batch → x ∈ l.
Proof.
  revert l. induction fuel as [|fuel IH]; intros l; simpl.
  - destruct l; intros Hb; by apply elem_of_nil in Hb.
  - destruct l as [|a l]; [intros Hb; by apply elem_of_nil in Hb|].
    intros [->|Hb]%elem_of_cons Hx.
    + rewrite <- (firstn_skipn n (a :: l)). apply elem_of_app. by left.
    + rewrite <- (firstn_skipn n (a :: l)). apply elem_of_app. right. by eapply IH.
Qed.

End Retention.


(** ** Discovery: candidates without a site *)

Section Discovery.
Context `{Env}.

Lemma _extract_domain_falsy url : truthy url = false → _extract_domain url = "".
Proof. intros Hf. unfold _extract_domain. by rewrite Hf. Qed.

Lemma _extract_domain_nonempty url :
  _extract_domain url ≠ "" → ∃ w, url = PStr w ∧ w ≠ "".
Proof.
  unfold _extract_domain. destruct url as [|b|z|w]; simpl.
  - done.
  - by destruct (negb b).
  - by destruct (negb (negb (z =? 0))).
  - destruct (String.eqb_spec w "") as [->|Hne]; simpl; [done|]. eauto.
Qed.

Lemma dedup_step_well_keyed candidates unique candidate :
  candidate ∈ candidates → well_keyed candidates unique →
  well_keyed candidates (dedup_step unique candidate).
Proof.
  intros Hin Hu. unfold dedup_step.
  destruct (String.eqb_spec (_extract_domain (get_or candidate "website" (PStr ""))) "")
    as [Heq|Hne]; simpl; [exact Hu|].
  destruct (bool_decide _); simpl; [exact Hu|].
  apply Forall_app. split; [exact Hu|]. by repeat constructor.
Qed.

Lemma fold_dedup_well_keyed candidates rest unique :
  (∀ c, c ∈ rest → c ∈ candidates) → well_keyed candidates unique →
  well_keyed candidates (fold_left dedup_step rest unique).
Proof.
  revert unique. induction rest as [|c rest IH]; intros unique Hsub Hu; simpl; [exact Hu|].
  apply IH.
  - intros c' Hc'. apply Hsub. by right.
  - apply dedup_step_well_keyed; [apply Hsub; by left|exact Hu].
Qed.

Lemma deduplicate_elem candidates candidate :
  candidate ∈ deduplicate candidates →
  candidate ∈ candidates
  ∧ _extract_domain (get_or candidate "website" (PStr "")) ≠ "".
Proof.
  unfold deduplicate. intros ([domain c] & -> & Hin)%list_elem_of_fmap.
  pose proof (fold_dedup_well_keyed candidates candidates [] (λ _ H, H)
                ltac:(constructor)) as Hkeyed.
  unfold well_keyed in Hkeyed. rewrite Forall_forall in Hkeyed.
  destruct (Hkeyed _ Hin) as (Hne & Heq & Hc). simpl in *. split; [exact Hc|congruence].
Qed.

(** The records of the license registry carry no [website] key. *)
Lemma license_board_no_website trade idx rng record :
  record ∈ (_search_state_license_board_go trade idx rng).1 →
  record !! "website" = None.
Proof.
  revert rng. induction idx as [|i idx IH]; intros rng; simpl.
  - intros Hin. by apply elem_of_nil in Hin.
  - destruct (_search_state_license_board_go trade idx (S rng)) as [rest rng2] eqn:Hrest.
    simpl. intros [->|Hin]%elem_of_cons.
    + by simplify_map_eq.
    + apply (IH (S rng)). by rewrite Hrest.
Qed.

End Discovery.

(** C8: for every set of adapter results, a candidate whose [website] is
    missing, empty, or yields an empty normalized domain is excluded from
    the discovery output; in particular every record of the license
    registry adapter, which carries no [website], is dropped by the
    deduplication. *)
Theorem discovery_drops_siteless `{Env}
    (all_results : list (result (list (gmap string pyval))))
    (candidate : gmap string pyval) :
  (candidate !! "website" = None
   ∨ truthy (get candidate "website") = false
   ∨ _extract_domain (get_or candidate "website" (PStr "")) = "") →
  (candidate ∉ deduplicate (merge_results all_results))
  ∧ (∀ trade city state keywords rng,
       candidate ∉ (discover_candidates trade city state keywords rng).1)
  ∧ (∀ trade city state keywords rng record,
       record ∈ (_search_state_license_board trade state rng).1 →
       record !! "website" = None
       ∧ (record ∉ deduplicate (merge_results all_results))
       ∧ (record ∉ (discover_candidates trade city state keywords rng).1)).
Proof.
  assert (Hdrop : ∀ c cs, _extract_domain (get_or c "website" (PStr "")) = "" →
                          c ∉ deduplicate cs).
  { intros c cs Hempty [_ Hne]%deduplicate_elem. done. }
  assert (Hmissing : ∀ c, c !! "website" = None →
                          _extract_domain (get_or c "website" (PStr "")) = "").
  { intros c Hnone. unfold get_or. rewrite Hnone. by apply _extract_domain_falsy. }
  assert (Hdiscover : ∀ c trade city state keywords rng,
            _extract_domain (get_or c "website" (PStr "")) = "" →
            c ∉ (discover_candidates trade city state keywords rng).1).
  { intros c trade city state keywords rng Hempty. unfold discover_candidates.
    destruct (_search_state_license_board trade state rng) as [board rng'].
    simpl. by apply Hdrop. }
  intros Hsite.
  assert (Hempty : _extract_domain (get_or candidate "website" (PStr "")) = "").
  { destruct Hsite as [Hnone|[Hfalsy|Hempty]]; [by apply Hmissing| |exact Hempty].
    unfold get, get_or in *. destruct (candidate !! "website") as [v|]; simpl in *;
      by apply _extract_domain_falsy. }
  split_and!.
  - by apply Hdrop.
  - intros. by apply Hdiscover.
  - intros trade city state keywords rng record Hrec.
    apply license_board_no_website in Hrec.
    split_and!; [exact Hrec|apply Hdrop|apply Hdiscover]; by apply Hmissing.
Qed.

Lemma discovery_drops_siteless_witness :
  first_board_record !! "website" = None
  ∧ (first_board_record ∉ (@discover_candidates acme_world "hvac" "Austin" "TX" [] 0).1).
Proof.
  assert (Hnone : first_board_record !! "website" = None) by (vm_compute; reflexivity).
  pose proof (@discovery_drops_siteless acme_world [] first_board_record
                (or_introl Hnone)) as (_ & Hdrop & _).
  split; [exact Hnone|exact (Hdrop "hvac" "Austin" "TX" [] 0%nat)].
Defined.

Example first_board_record_found :
  head (@_search_state_license_board acme_world "hvac" "TX" 0).1 = Some first_board_record.
Proof. vm_compute. reflexivity. Qed.

(** ** License verification *)

Section Licenses.
Context `{Env}.

Lemma verify_license_licensed profile rng : licensed (verify_license profile rng).1.
Proof.
  unfold verify_license, randint, random.
  destruct (bool_decide (profile !! "lic_number" = None)
            || negb (truthy (get profile "lic_number"))) eqn:Hmissing; simpl.
  - split.
    + eexists. split;
        [rewrite lookup_insert_ne by done; apply lookup_insert_eq|discriminate].
    + eexists. apply lookup_insert_eq.
  - apply orb_false_iff in Hmissing as [Hkey Htruthy].
    apply bool_decide_eq_false in Hkey. apply negb_false_iff in Htruthy.
    split.
    + unfold get in Htruthy.
      destruct (profile !! "lic_number") as [n|] eqn:Hn; [|done].
      exists n. split; [by rewrite lookup_insert_ne|].
      intros ->. discriminate Htruthy.
    + eexists. apply lookup_insert_eq.
Qed.

Lemma verify_all_licensed profiles rng : Forall licensed (verify_all profiles rng).1.
Proof.
  revert rng. induction profiles as [|p profiles IH]; intros rng; simpl; [constructor|].
  pose proof (verify_license_licensed p rng) as Hp.
  destruct (verify_license p rng) as [p' rng1].
  pose proof (IH rng1) as Hrest.
  destruct (verify_all profiles rng1) as [rest rng2].
  simpl in *. by constructor.
Qed.

(** The project-history stage leaves the license fields as they are. *)
Lemma parse_profile_history_license keywords profile profile' :
  parse_profile_history keywords profile = Ok profile' →
  profile' !! "lic_number" = profile !! "lic_number"
  ∧ profile' !! "lic_active" = profile !! "lic_active".
Proof.
  unfold parse_profile_history.
  destruct (negb (truthy (get profile "website"))); [by intros [= <-]|].
  destruct (get profile "website") as [| | |website];
    try (intros Hx; discriminate Hx).
  destruct (count_projects _ _) as [n|e]; simpl; [|intros Hx; discriminate Hx].
  intros [= <-]. by rewrite !lookup_insert_ne.
Qed.

Lemma parse_project_history_licensed profiles state keywords scored :
  parse_project_history profiles state keywords = Ok scored →
  Forall licensed profiles → Forall licensed scored.
Proof.
  revert scored. induction profiles as [|p profiles IH]; intros scored; simpl.
  - intros [= <-] _. constructor.
  - destruct (parse_profile_history keywords p) as [p'|e] eqn:Hp; simpl;
      [|intros Hx; discriminate Hx].
    destruct (parse_project_history profiles state keywords) as [rest|e]; simpl;
      [|intros Hx; discriminate Hx].
    intros [= <-] [Hlic Hall]%Forall_cons. constructor; [|by apply IH].
    apply parse_profile_history_license in Hp as [Hn Ha].
    unfold licensed. by rewrite Hn, Ha.
Qed.

Lemma licensed_factor profile :
  licensed profile → license_factor profile = 0 ∨ license_factor profile = 25.
Proof.
  intros [_ [b Hb]]. unfold license_factor, get. rewrite Hb. simpl.
  destruct b; auto.
Qed.

End Licenses.

(** C9: for every profile list verified under jurisdiction "TX" (in any
    letter case), every profile in the output of [verify_licenses] has a
    non-null [lic_number] and a non-null [lic_active]; hence, for the
    profiles that the pipeline then scores, the license factor is 0 or 25
    and the +10 branch for an unknown status is never taken. *)
Theorem verify_licenses_tx `{Env} (profiles : list (gmap string pyval))
    (state : string) (rng : nat) :
  Str.upper state = "TX" →
  Forall licensed (verify_licenses profiles state rng).1
  ∧ (∀ keywords scored,
       parse_project_history (verify_licenses profiles state rng).1 state keywords
       = Ok scored →
       Forall (λ profile, license_factor profile = 0 ∨ license_factor profile = 25)
              scored).
Proof.
  intros Htx.
  assert (Hall : Forall licensed (verify_licenses profiles state rng).1).
  { unfold verify_licenses. rewrite Htx. simpl. apply verify_all_licensed. }
  split; [exact Hall|].
  intros keywords scored Hscored.
  eapply Forall_impl; [by eapply parse_project_history_licensed|].
  intros profile. apply licensed_factor.
Qed.

Lemma verify_licenses_tx_witness :
  Str.upper "tx" = "TX"
  ∧ Forall licensed (@verify_licenses acme_world [example_profile; indebted_profile] "tx" 0).1.
Proof.
  assert (Htx : Str.upper "tx" = "TX") by (vm_compute; reflexivity).
  split; [exact Htx|].
  apply (@verify_licenses_tx acme_world [example_profile; indebted_profile] "tx" 0%nat Htx).
Defined.

(** ** Project history *)

Section History.
Context `{Env}.

Lemma count_projects_estimate project_html keywords n :
  count_projects project_html keywords = Ok n →
  (project_html = "" ∧ n = 0%nat)
  ∨ ∃ keyword_mentions,
      count_keywords keywords (soup_text project_html) = Ok keyword_mentions
      ∧ n = estimate_project_count (tx_mentions (soup_text project_html))
                                   (year_mentions (soup_text project_html))
                                   keyword_mentions.
Proof.
  unfold count_projects. destruct (String.eqb_spec project_html "") as [->|Hne].
  - intros [= <-]. by left.
  - destruct (count_keywords keywords _) as [kw|e]; simpl; [|intros Hx; discriminate Hx].
    intros [= <-]. right. eauto.
Qed.

Lemma parse_profile_history_recorded keywords profile profile' :
  parse_profile_history keywords profile = Ok profile' →
  history_recorded keywords profile profile'.
Proof.
  unfold parse_profile_history, history_recorded.
  destruct (truthy (get profile "website")) eqn:Hsite; simpl.
  - destruct (get profile "website") as [| | |website];
      try (intros Hx; discriminate Hx).
    destruct (count_projects _ _) as [n|e] eqn:Hn; simpl; [|intros Hx; discriminate Hx].
    intros [= <-]. right. exists website, n. split_and!; [done..|].
    by apply count_projects_estimate.
  - intros [= <-]. by left.
Qed.

End History.

Lemma estimate_project_count_boosted tx yr kw :
  (0 < kw)%nat → (0 < Nat.min tx yr)%nat →
  estimate_project_count tx yr kw = Nat.min (Nat.min tx yr + kw / 2) 10.
Proof.
  intros Hkw Hm. unfold estimate_project_count.
  by rewrite (proj2 (Nat.ltb_lt 0 kw) Hkw), (proj2 (Nat.ltb_lt 0 _) Hm).
Qed.

Lemma estimate_project_count_plain tx yr kw :
  kw = 0%nat ∨ Nat.min tx yr = 0%nat →
  estimate_project_count tx yr kw = Nat.min tx yr.
Proof.
  intros Hcase. unfold estimate_project_count.
  destruct (Nat.ltb_spec 0 kw), (Nat.ltb_spec 0 (Nat.min tx yr)); simpl; lia.
Qed.

(** C3, as the specification states it, fails without keywords: on a
    project page with eleven mentions of "TX" and eleven of the year 2024
    the count is 11, above the ceiling of 10. *)
Lemma project_count_above_10 :
  match @parse_profile_history acme_world [] acme_candidate with
  | Ok profile' =>
      ∃ n, profile' !! "tx_projects_past_5yrs" = Some (PInt n) ∧ ¬ n <= 10
  | Raise _ => False
  end.
Proof. vm_compute. exists 11. split; [reflexivity|]. intros Hle. by apply Hle. Qed.

(** C3 (amended): the count assigned by [parse_project_history] is a
    non-negative integer; it is the minimum of the location tally and the
    recent-year tally, replaced by the minimum of 10 and that minimum plus
    half the keyword mentions when both the minimum and the keyword
    mentions are positive.  It is at most 10 in that boosted case, and
    without boost it is the minimum of the tallies, whatever its size. *)
Theorem parse_project_history_count `{Env} (profiles : list (gmap string pyval))
    (state : string) (keywords : list string) (out : list (gmap string pyval)) :
  parse_project_history profiles state keywords = Ok out →
  Forall2 (history_recorded keywords) profiles out
  ∧ ∀ tx yr kw : nat,
      let count := estimate_project_count tx yr kw in
      0 <= Z.of_nat count
      ∧ ((0 < kw)%nat → (0 < Nat.min tx yr)%nat →
           count = Nat.min (Nat.min tx yr + kw / 2) 10 ∧ (count <= 10)%nat)
      ∧ (kw = 0%nat ∨ Nat.min tx yr = 0%nat → count = Nat.min tx yr).
Proof.
  intros Hrun. split.
  - revert out Hrun. induction profiles as [|p profiles IH]; intros out; simpl.
    + intros [= <-]. constructor.
    + destruct (parse_profile_history keywords p) as [p'|e] eqn:Hp; simpl;
        [|intros Hx; discriminate Hx].
      destruct (parse_project_history profiles state keywords) as [rest|e]; simpl;
        [|intros Hx; discriminate Hx].
      intros [= <-].
      constructor; [by apply parse_profile_history_recorded|by apply IH].
  - intros tx yr kw count. subst count. split_and!.
    + lia.
    + intros Hkw Hm. rewrite estimate_project_count_boosted by done. lia.
    + apply estimate_project_count_plain.
Qed.

Lemma parse_project_history_count_witness :
  ∃ out, @parse_project_history acme_world [acme_candidate; indebted_profile] "TX" ["hvac"] = Ok out
         ∧ Forall2 (@history_recorded acme_world ["hvac"]) [acme_candidate; indebted_profile] out.
Proof.
  exists [<["tx_projects_past_5yrs" := PInt 11]> acme_candidate;
          <["tx_projects_past_5yrs" := PInt 0]> indebted_profile].
  assert (Hrun : @parse_project_history acme_world [acme_candidate; indebted_profile] "TX" ["hvac"]
                 = Ok [<["tx_projects_past_5yrs" := PInt 11]> acme_candidate;
                       <["tx_projects_past_5yrs" := PInt 0]> indebted_profile])
    by (vm_compute; reflexivity).
  split; [exact Hrun|].
  apply (@parse_project_history_count acme_world _ "TX" ["hvac"] _ Hrun).
Defined.

(** ** The job manager *)

Lemma update_job_present f job_id jobs_store j :
  jobs_store !! job_id = Some j →
  update_job f job_id jobs_store = Ok (<[job_id := f j]> jobs_store).
Proof. intros Hj. unfold update_job. by rewrite Hj. Qed.

(** C7, as the specification states it, fails for an error whose string
    form is empty, such as [MemoryError()]: the recorded message is then
    the empty string. *)
Lemma failed_job_with_empty_message :
  match process_research_job
          (create_research_job ∅ "job-1" (JobRequest "hvac" "Austin" "TX" 5000000 [])
                               "2026-01-01T00:00:00")
          "job-1" (Raise (Exn MemoryError "")) "2026-01-01T00:01:00" with
  | Ok jobs_store =>
      (status <$> jobs_store !! "job-1") = Some "FAILED"
      ∧ (jobs_store !! "job-1") ≫= error = Some ""
  | Raise _ => False
  end.
Proof. vm_compute. split; reflexivity. Qed.

(** C7 (amended): for every job whose pipeline raises an unhandled error,
    the job record ends in status FAILED, its error message is the string
    of the raised error, non-empty exactly when that string is non-empty,
    and its results field stays unpopulated; the other jobs are untouched. *)
Theorem process_research_job_failure (jobs_store : gmap string job)
    (job_id : string) (j : job) (e : exn) (now : string) :
  jobs_store !! job_id = Some j →
  results j = None →
  ∃ jobs_store' j',
    process_research_job jobs_store job_id (Raise e) now = Ok jobs_store'
    ∧ jobs_store' !! job_id = Some j'
    ∧ status j' = "FAILED"
    ∧ error j' = Some (exn_msg e)
    ∧ (exn_msg e ≠ "" ↔ error j' ≠ Some "")
    ∧ results j' = None
    ∧ request j' = request j ∧ created_at j' = created_at j
    ∧ completed_at j' = completed_at j
    ∧ ∀ other, other ≠ job_id → jobs_store' !! other = jobs_store !! other.
Proof.
  intros Hj Hresults. unfold process_research_job.
  rewrite (update_job_present _ _ _ j Hj). simpl.
  rewrite (update_job_present _ job_id _ (set_status "PROCESSING" j))
    by apply lookup_insert_eq.
  simpl.
  rewrite (update_job_present _ job_id _ (set_status "FAILED" (set_status "PROCESSING" j)))
    by apply lookup_insert_eq.
  eexists _, _. split; [reflexivity|]. split; [apply lookup_insert_eq|].
  simpl. split_and!; try done.
  - split; intros Hne; congruence.
  - intros other Hother. by rewrite !lookup_insert_ne.
Qed.

Lemma process_research_job_failure_witness :
  ∃ jobs_store' j',
    process_research_job
      (create_research_job ∅ "job-1" (JobRequest "hvac" "Austin" "TX" 0 [])
                           "2026-01-01T00:00:00")
      "job-1" (Raise (Exn ZeroDivisionError "division by zero")) "2026-01-01T00:01:00"
    = Ok jobs_store'
    ∧ jobs_store' !! "job-1" = Some j'
    ∧ status j' = "FAILED"
    ∧ error j' = Some "division by zero"
    ∧ results j' = None.
Proof.
  destruct (process_research_job_failure
              (create_research_job ∅ "job-1" (JobRequest "hvac" "Austin" "TX" 0 [])
                                   "2026-01-01T00:00:00")
              "job-1" _ (Exn ZeroDivisionError "division by zero")
              "2026-01-01T00:01:00"
              (lookup_insert_eq _ _ _) eq_refl)
    as (jobs_store' & j' & Hrun & Hj & Hstatus & Herror & _ & Hresults & _).
  exists jobs_store', j'. by split_and!.
Defined.

(** A successful pipeline, for comparison: the results are stored. *)
Lemma process_research_job_success jobs_store job_id j ranked now :
  jobs_store !! job_id = Some j →
  ∃ jobs_store' j',
    process_research_job jobs_store job_id (Ok ranked) now = Ok jobs_store'
    ∧ jobs_store' !! job_id = Some j'
    ∧ status j' = "SUCCEEDED" ∧ results j' = Some ranked
    ∧ completed_at j' = Some now ∧ error j' = error j.
Proof.
  intros Hj. unfold process_research_job.
  rewrite (update_job_present _ _ _ j Hj). simpl.
  rewrite (update_job_present _ job_id _ (set_status "PROCESSING" j))
    by apply lookup_insert_eq.
  simpl.
  rewrite (update_job_present _ job_id _ (set_status "SUCCEEDED" (set_status "PROCESSING" j)))
    by apply lookup_insert_eq.
  simpl.
  erewrite (update_job_present _ job_id) by apply lookup_insert_eq.
  eexists _, _. split; [reflexivity|]. split; [apply lookup_insert_eq|]. done.
Qed.

(** ** The deterministic pass of the extraction *)

Section Precedence.
Context `{Env}.

(** E-mail address and phone number are guarded: a value that is set is
    kept. *)
Lemma look_for_keeps field pattern text data :
  truthy (get data field) = true → look_for field pattern text data = data.
Proof. intros Hset. unfold look_for. by rewrite Hset. Qed.

Lemma look_for_other field pattern text data k :
  k ≠ field → get (look_for field pattern text data) k = get data k.
Proof.
  intros Hne. unfold look_for.
  destruct (negb _); [|done]. destruct (Re.findall0 _ _); [done|].
  unfold get. by rewrite lookup_insert_ne.
Qed.

(** City and state are guarded together: once both are set they are kept. *)
Lemma look_for_address_keeps text data :
  truthy (get data "city") && truthy (get data "state") = true →
  look_for_address text data = data.
Proof.
  intros Hset. unfold look_for_address.
  induction Patterns.address_patterns as [|pattern patterns IH]; simpl; [done|].
  destruct (Re.findall2 pattern text) as [|[c s] ms]; [exact IH|].
  rewrite Hset. simpl. exact IH.
Qed.

Lemma look_for_address_other text data k :
  k ≠ "city" → k ≠ "state" → get (look_for_address text data) k = get data k.
Proof.
  intros Hc Hs. unfold look_for_address. revert data.
  induction Patterns.address_patterns as [|pattern patterns IH]; intros data; simpl;
    [done|].
  rewrite IH. destruct (Re.findall2 pattern text) as [|[c s] ms]; [done|].
  destruct (negb _); [|done].
  unfold get. by rewrite !lookup_insert_ne.
Qed.

Lemma update_evidence_data page_path text bond_str st :
  extracted_data (update_evidence page_path text bond_str st) = extracted_data st.
Proof.
  unfold update_evidence. destruct (Str.find _ _); [|done].
  by destruct (_ || _).
Qed.

Lemma look_for_bond_other patterns page_path text st k :
  k ≠ "bond_amount" →
  get (extracted_data (look_for_bond patterns page_path text st)) k
  = get (extracted_data st) k.
Proof.
  intros Hne. induction patterns as [|pattern patterns IH]; simpl; [done|].
  destruct (Re.findall1 pattern text) as [|bond_str ms]; [exact IH|].
  destruct (bond_value_of text bond_str) as [n|e]; [|exact IH].
  rewrite update_evidence_data. simpl. unfold get. by rewrite lookup_insert_ne.
Qed.

(** Across pages: an e-mail address or a phone number found on an earlier
    page survives every later page. *)
Lemma process_page_keeps_contact st page field :
  field = "email" ∨ field = "phone_number" →
  truthy (get (extracted_data st) field) = true →
  get (extracted_data (process_page st page)) field = get (extracted_data st) field.
Proof.
  intros Hfield Hset. destruct page as [page_path html]. unfold process_page.
  rewrite look_for_bond_other by (destruct Hfield as [-> | ->]; done).
  simpl.
  rewrite look_for_address_other by (destruct Hfield as [-> | ->]; done).
  destruct Hfield as [-> | ->].
  - rewrite look_for_other by done. by rewrite look_for_keeps.
  - rewrite look_for_keeps; by rewrite look_for_other.
Qed.

End Precedence.

(** C4 on the code: the bond amount has no such guard.  The home page of
    the example site states 5 million and the about page, visited later, 2
    million; the pass returns 2,000,000, while the home page alone gives
    5,000,000 and the evidence kept is still the home page's. *)
Lemma later_page_overrides_bond_amount :
  let home := ("", "Acme Mechanical. Bonded up to $5 million. Call (512) 555-1234.") in
  let about := ("/about", "Our history: bonding $2 million since 2019.") in
  get (extracted_data (@deterministic_pass acme_world [home])) "bond_amount"
  = PInt 5000000
  ∧ get (extracted_data (@deterministic_pass acme_world [home; about])) "bond_amount"
    = PInt 2000000
  ∧ best_evidence_page (@deterministic_pass acme_world [home; about]) = "".
Proof. vm_compute. repeat split; reflexivity. Qed.

(** C5 on the code: the amount is multiplied whenever the page text holds
    the letter "m".  The page below has neither the word "million" nor an
    "m" after the amount, the second bond pattern captures "500,000", and
    the extracted amount is 500,000,000,000; on a page without any "m" the
    same amount stays 500,000, and "$5 million" gives 5,000,000. *)
Lemma any_letter_m_multiplies_bond :
  let text := "Bonded up to $500,000 for commercial projects" in
  Str.contains (Str.lower text) "million" = false
  ∧ (λ pattern, Re.findall1 pattern text) <$> Patterns.bond_patterns
    = [[]; ["500,000"]]
  ∧ bond_value_of text "500,000" = Ok 500000000000
  ∧ get (extracted_data (@process_page acme_world initial_extraction ("", text)))
        "bond_amount" = PInt 500000000000
  ∧ bond_value_of "Bonded up to $500,000" "500,000" = Ok 500000
  ∧ bond_value_of "Bonded up to $5 million" "5" = Ok 5000000.
Proof. vm_compute. repeat split; reflexivity. Qed.

(** ** Profile extraction: which entries are counted *)

Ltac in_keys :=
  solve [repeat first [apply list_elem_of_here | apply list_elem_of_further]].

Lemma keys_within_empty ks : keys_within ks ∅.
Proof. intros k [v Hv]. by rewrite lookup_empty in Hv. Qed.

Lemma keys_within_insert ks k v d :
  k ∈ ks → keys_within ks d → keys_within ks (<[k := v]> d).
Proof.
  intros Hk Hd k'. destruct (decide (k = k')) as [<-|Hne]; [done|].
  rewrite lookup_insert_ne by done. apply Hd.
Qed.

Lemma keys_within_union ks d1 d2 :
  keys_within ks d1 → keys_within ks d2 → keys_within ks (d1 ∪ d2).
Proof.
  intros H1 H2 k [Hk|Hk]%lookup_union_is_Some; [by apply H1|by apply H2].
Qed.

Section Keys.
Context `{Env}.

Lemma look_for_keys field pattern text data :
  field ∈ extraction_keys → keys_within extraction_keys data →
  keys_within extraction_keys (look_for field pattern text data).
Proof.
  intros Hfield Hdata. unfold look_for. destruct (negb _); [|exact Hdata].
  destruct (Re.findall0 _ _); [exact Hdata|]. by apply keys_within_insert.
Qed.

Lemma look_for_address_keys text data :
  keys_within extraction_keys data →
  keys_within extraction_keys (look_for_address text data).
Proof.
  unfold look_for_address. revert data.
  induction Patterns.address_patterns as [|pattern patterns IH]; intros data Hdata;
    simpl; [exact Hdata|].
  apply IH. destruct (Re.findall2 pattern text) as [|[c s] ms]; [exact Hdata|].
  destruct (negb _); [|exact Hdata].
  apply keys_within_insert; [in_keys|]. apply keys_within_insert; [in_keys|exact Hdata].
Qed.

Lemma look_for_bond_keys patterns page_path text st :
  keys_within extraction_keys (extracted_data st) →
  keys_within extraction_keys
    (extracted_data (look_for_bond patterns page_path text st)).
Proof.
  intros Hst. induction patterns as [|pattern patterns IH]; simpl; [exact Hst|].
  destruct (Re.findall1 pattern text) as [|bond_str ms]; [exact IH|].
  destruct (bond_value_of text bond_str) as [n|e]; [|exact IH].
  rewrite update_evidence_data. simpl.
  apply keys_within_insert; [in_keys|exact Hst].
Qed.

Lemma process_page_keys st page :
  keys_within extraction_keys (extracted_data st) →
  keys_within extraction_keys (extracted_data (process_page st page)).
Proof.
  intros Hst. destruct page as [page_path html]. unfold process_page.
  apply look_for_bond_keys. simpl. apply look_for_address_keys.
  apply look_for_keys; [in_keys|]. apply look_for_keys; [in_keys|exact Hst].
Qed.

Lemma deterministic_pass_keys page_contents :
  keys_within extraction_keys (extracted_data (deterministic_pass page_contents)).
Proof.
  unfold deterministic_pass.
  assert (Hinit : keys_within extraction_keys (extracted_data initial_extraction)).
  { unfold initial_extraction. simpl.
    repeat (apply keys_within_insert; [in_keys|]).
    apply keys_within_empty. }
  revert Hinit. generalize initial_extraction.
  induction page_contents as [|page pages IH]; intros st Hst; simpl; [exact Hst|].
  apply IH. by apply process_page_keys.
Qed.

Lemma llm_fill_keys llm_extracted data :
  keys_within extraction_keys data →
  keys_within extraction_keys (llm_fill llm_extracted data).
Proof.
  unfold llm_fill.
  assert (Hfields : Forall (λ field, field ∈ extraction_keys)
                      ["city"; "state"; "bond_amount"; "email"; "phone_number"])
    by (repeat constructor; in_keys).
  revert data Hfields.
  generalize ["city"; "state"; "bond_amount"; "email"; "phone_number"].
  intros fields. induction fields as [|field fields IH]; intros data Hfields Hdata;
    simpl; [exact Hdata|].
  apply Forall_cons in Hfields as [Hfield Hfields].
  apply IH; [exact Hfields|].
  destruct (negb _); [|exact Hdata].
  destruct (llm_extracted !! field); [|exact Hdata].
  by apply keys_within_insert.
Qed.

Lemma _extract_data_from_pages_keys page_contents website :
  keys_within extraction_keys (_extract_data_from_pages page_contents website).
Proof.
  unfold _extract_data_from_pages.
  pose proof (deterministic_pass_keys page_contents) as Hpass.
  destruct (negb _).
  - apply keys_within_insert; [in_keys|]. apply keys_within_insert; [in_keys|].
    by apply llm_fill_keys.
  - apply keys_within_insert; [in_keys|]. apply keys_within_insert; [in_keys|].
    exact Hpass.
Qed.

Lemma copy_fields_keys fields candidate profile :
  Forall (λ field, field ∈ extraction_keys) fields →
  keys_within extraction_keys profile →
  keys_within extraction_keys (copy_fields fields candidate profile).
Proof.
  unfold copy_fields. revert profile.
  induction fields as [|field fields IH]; intros profile Hfields Hprofile; simpl;
    [exact Hprofile|].
  apply Forall_cons in Hfields as [Hfield Hfields].
  apply IH; [exact Hfields|].
  destruct (candidate !! field); [by apply keys_within_insert|exact Hprofile].
Qed.

(** The keys of a profile that leaves the extraction. *)
Lemma _extract_single_profile_keys candidate profile :
  _extract_single_profile candidate = Ok (Some profile) →
  keys_within extraction_keys profile.
Proof.
  unfold _extract_single_profile.
  destruct (negb (truthy (get candidate "website"))); [intros Hx; discriminate Hx|].
  destruct (get candidate "website") as [| | |website];
    try (intros Hx; discriminate Hx).
  destruct (fetch_pages _) as [|page pages]; [intros Hx; discriminate Hx|].
  destruct (_ <=? _)%nat; [|intros Hx; discriminate Hx].
  intros Hx. injection Hx as <-.
  apply keys_within_insert; [in_keys|]. unfold update.
  apply keys_within_union; [apply _extract_data_from_pages_keys|].
  repeat case_match;
    repeat (apply keys_within_insert; [in_keys|]); apply keys_within_empty.
Qed.

End Keys.

(** Of the entries counted by [populated_fields], at most two are not
    optional fields: [name] and [evidence_page]. *)
Lemma populated_fields_bound (profile : gmap string pyval) :
  keys_within extraction_keys profile →
  (populated_fields profile <= 2 + populated_optional profile)%nat.
Proof.
  intros Hkeys. unfold populated_fields, populated_optional.
  set (counted := filter (λ kv : string * pyval, kv.2 ≠ PNone ∧ kv.1 ∉ uncounted_fields)
                         (map_to_list profile)).
  set (present := filter (λ k, get profile k ≠ PNone) optional_fields).
  change (length counted <= length ("name" :: "evidence_page" :: present))%nat.
  rewrite <- (length_fmap fst counted).
  apply submseteq_length, NoDup_submseteq.
  - apply (sublist_NoDup _ (map_to_list profile).*1);
      first [apply NoDup_fst_map_to_list | apply fmap_sublist, sublist_filter].
  - intros k ([k' v] & -> & Hin)%list_elem_of_fmap. simpl.
    apply list_elem_of_filter in Hin as [[Hv Hk] Hin]. simpl in *.
    apply elem_of_map_to_list in Hin.
    assert (Hget : get profile k' ≠ PNone) by (unfold get; by rewrite Hin).
    pose proof (Hkeys k' ltac:(eauto)) as Hknown.
    unfold extraction_keys, uncounted_fields in *.
    repeat (apply elem_of_cons in Hknown as [->|Hknown]);
      first [ by apply elem_of_nil in Hknown
            | exfalso; apply Hk; in_keys
            | in_keys
            | do 2 apply list_elem_of_further; apply list_elem_of_filter;
              split; [exact Hget|in_keys] ].
Qed.

(** C2, as the specification states it, fails: in the example world the
    Acme site yields a phone number and a bond amount only, two optional
    fields, and the profile is in the extraction output, because [name]
    and [evidence_page] are counted as well. *)
Lemma retained_with_two_optional_fields :
  match @extract_profiles acme_world [acme_candidate] with
  | [profile] =>
      populated_optional profile = 2%nat
      ∧ ¬ (4 <= populated_optional profile)%nat
      ∧ populated_fields profile = 4%nat
      ∧ (get profile "email", get profile "city", get profile "state",
         get profile "lic_number", get profile "lic_active")
        = (PNone, PNone, PNone, PNone, PNone)
      ∧ get profile "phone_number" = PStr "(512) 555-1234"
      ∧ get profile "bond_amount" = PInt 2000000
      ∧ get profile "evidence_page" = PStr ""
  | _ => False
  end.
Proof. vm_compute. split_and!; try reflexivity. lia. Qed.

(** C2 (amended): a profile appears in the extraction output only if at
    least 4 entries of its dictionary other than [website], [last_checked],
    [evidence_url] and [evidence_text] are non-null; [name] and
    [evidence_page] are among the entries counted, so that at least 2 of
    the optional fields are non-null: a profile with fewer than 2
    populated optional fields never appears in the extraction output. *)
Theorem extract_profiles_populated `{Env} (candidates : list (gmap string pyval))
    (profile : gmap string pyval) :
  profile ∈ extract_profiles candidates →
  (4 <= populated_fields profile)%nat
  ∧ (populated_fields profile <= 2 + populated_optional profile)%nat
  ∧ (2 <= populated_optional profile)%nat
  ∧ ∃ candidate, candidate ∈ candidates
                 ∧ _extract_single_profile candidate = Ok (Some profile).
Proof.
  unfold extract_profiles. intros Hin.
  apply list_elem_of_In, in_flat_map in Hin as (batch & Hbatch & Hin).
  apply list_elem_of_In in Hbatch, Hin.
  apply extract_batch_elem in Hin as (candidate & Hc & Hrun).
  pose proof (_extract_single_profile_populated candidate profile Hrun) as Hcount.
  pose proof (populated_fields_bound profile
                (_extract_single_profile_keys candidate profile Hrun)) as Hbound.
  split_and!; [exact Hcount|exact Hbound|lia|].
  exists candidate. split; [|exact Hrun].
  by eapply batches_elem.
Qed.

Lemma extract_profiles_populated_witness :
  length (@extract_profiles acme_world [acme_candidate]) = 1%nat
  ∧ Forall (λ profile, (4 <= populated_fields profile)%nat
                       ∧ (2 <= populated_optional profile)%nat)
           (@extract_profiles acme_world [acme_candidate]).
Proof.
  split; [vm_compute; reflexivity|].
  apply Forall_forall. intros profile Hin.
  destruct (@extract_profiles_populated acme_world [acme_candidate] profile Hin)
    as (Hcount & _ & Hoptional & _).
  by split.
Defined.

(** ** Cross-checks of the arithmetic and of the worked examples *)

(** The quotient and the product agree with the Standard Library's
    specification of IEEE binary64 ([prec = 53], [emax = 1024]) on the
    operands of this development: ties, subnormal results, overflow. *)
Example true_div_agrees_with_SFdiv :
  forallb
    (λ '(a, b),
       match Float64.round_signed (Z.sgn b * a * 2 ^ 1074) (Z.abs b) with
       | x =>
           match Float64.to_spec x,
                 SFdiv 53 1024 (Float64.spec_of_Z a) (Float64.spec_of_Z b) with
           | S754_finite s m e, S754_finite s' m' e' =>
               Bool.eqb s s' && Pos.eqb m m' && Z.eqb e e'
           | S754_zero _, S754_zero _ => true
           | S754_infinity s, S754_infinity s' => Bool.eqb s s'
           | _, _ => false
           end
       end)
    [(1, 3); (2, 3); (1, 25); (7, 25); (2500000, 5000000);
     (10 ^ 17 - 1, 25 * 10 ^ 17); (1, 10 ^ 320); (3, 10 ^ 323);
     (5, 2 ^ 1075); (3, 2 ^ 1075); (1, 2 ^ 1075);
     (2 ^ 1024 - 2 ^ 970, 1); (2 ^ 1024 - 2 ^ 970 - 1, 1);
     (2 ^ 53 + 1, 1); (2 ^ 53 + 3, 1); (-7, 3); (7, -3); (-10, -1); (10 ^ 400, 1)]
  = true.
Proof. vm_compute. reflexivity. Qed.

Example fmul_agrees_with_SFmul :
  forallb
    (λ '(a, b),
       match Float64.true_div a b with
       | Ok x =>
           match Float64.to_spec (Float64.fmul (Float64.of_Z 25) x),
                 SFmul 53 1024 (Float64.spec_of_Z 25)
                       (SFdiv 53 1024 (Float64.spec_of_Z a) (Float64.spec_of_Z b)) with
           | S754_finite s m e, S754_finite s' m' e' =>
               Bool.eqb s s' && Pos.eqb m m' && Z.eqb e e'
           | S754_zero _, S754_zero _ => true
           | S754_infinity s, S754_infinity s' => Bool.eqb s s'
           | _, _ => false
           end
       | Raise _ => false
       end)
    [(1, 3); (2, 3); (1, 25); (7, 25); (24, 25); (2500000, 5000000);
     (10 ^ 17 - 1, 25 * 10 ^ 17); (1, 10 ^ 320); (3, 2 ^ 1075); (-7, 3);
     (-10, -1); (2 ^ 1023, 1)]
  = true.
Proof. vm_compute. reflexivity. Qed.

(** The worked example of the specification: half the required bond with
    an exact location, an active license and three projects scores
    25 + 25 + 12 + 15 = 77. *)
Example worked_example_scores_77 :
  score_profile example_profile "Austin" "TX" 5000000 = Ok 77
  ∧ geographic_factor example_profile "Austin" "TX" = 25
  ∧ license_factor example_profile = 25
  ∧ bonding_factor example_profile 5000000 = Ok 12
  ∧ project_factor example_profile = Ok 15.
Proof. vm_compute. repeat split; reflexivity. Qed.

(** The whole job in the example world: the Acme site is not among the
    simulated candidates, none of which answers, so the job succeeds with
    an empty ranking. *)
Example run_job_in_example_world :
  match (@run_job acme_world
           (create_research_job ∅ "job-1" (JobRequest "hvac" "Austin" "TX" 5000000 [])
                                "2026-01-01T00:00:00")
           "job-1" (JobRequest "hvac" "Austin" "TX" 5000000 []) 0).1 with
  | Ok jobs_store =>
      (status <$> jobs_store !! "job-1") = Some "SUCCEEDED"
      ∧ (jobs_store !! "job-1") ≫= results = Some []
  | Raise _ => False
  end.
Proof. vm_compute. split; reflexivity. Qed.

(** * Properties of the other functions *)

(** ** Discovery: the deduplication by domain *)

Section Deduplication.
Context `{Env}.

Lemma dedup_step_cases unique candidate :
  (dedup_step unique candidate = unique
   ∧ (domain_of candidate = "" ∨ domain_of candidate ∈ unique.*1))
  ∨ (dedup_step unique candidate = unique ++ [(domain_of candidate, candidate)]
     ∧ domain_of candidate ≠ "" ∧ domain_of candidate ∉ unique.*1).
Proof.
  unfold dedup_step, domain_of.
  destruct (String.eqb_spec (_extract_domain (get_or candidate "website" (PStr ""))) "")
    as [Heq|Hne]; simpl; [left; auto|].
  destruct (bool_decide_reflect
              (_extract_domain (get_or candidate "website" (PStr "")) ∈ unique.*1))
    as [Hin|Hnin]; simpl; [left; auto|right; auto].
Qed.

(** The dictionary after the loop: the entries it had, followed by the new
    ones, each filed under its own non-empty domain, no domain twice, in
    the order of the candidates, each the first candidate of its domain. *)
Lemma fold_dedup_added candidates unique :
  ∃ added,
    fold_left dedup_step candidates unique = unique ++ added
    ∧ sublist added.*2 candidates
    ∧ Forall (λ entry, entry.1 = domain_of entry.2 ∧ entry.1 ≠ ""
                       ∧ entry.1 ∉ unique.*1) added
    ∧ NoDup added.*1
    ∧ Forall (first_of_its_domain candidates) added.*2
    ∧ Forall (λ c, domain_of c = "" ∨ domain_of c ∈ (unique ++ added).*1) candidates.
Proof.
  revert unique. induction candidates as [|c candidates IH]; intros unique; simpl.
  { exists []. rewrite app_nil_r. split_and!; by constructor. }
  destruct (dedup_step_cases unique c) as [[-> Hseen]|(-> & Hne & Hnew)].
  - destruct (IH unique) as (added & -> & Hsub & Hkeys & Hnodup & Hfirst & Hall).
    exists added. split_and!; [done|by apply sublist_cons|done|done| |].
    + rewrite Forall_forall in Hkeys.
      rewrite Forall_fmap in Hfirst |- *.
      rewrite Forall_forall in Hfirst |- *.
      intros entry Hentry. destruct (Hfirst _ Hentry) as (before & after & -> & Hbefore).
      destruct (Hkeys _ Hentry) as (Heq & Hne & Hnew).
      exists (c :: before), after. split; [done|]. constructor; [|done].
      cbn beta. rewrite <- Heq. destruct Hseen as [->|Hin]; [done|].
      intros Hsame. apply Hnew. by rewrite <- Hsame.
    + constructor; [|done]. destruct Hseen as [?|Hin]; [by left|right].
      rewrite fmap_app. apply elem_of_app. by left.
  - destruct (IH (unique ++ [(domain_of c, c)]))
      as (added & -> & Hsub & Hkeys & Hnodup & Hfirst & Hall).
    exists ((domain_of c, c) :: added).
    assert (Hfresh : domain_of c ∉ added.*1).
    { intros ((d & c') & Heq & Hin)%list_elem_of_fmap. simpl in Heq. subst d.
      rewrite Forall_forall in Hkeys. destruct (Hkeys _ Hin) as (_ & _ & Hout).
      apply Hout. simpl. rewrite fmap_app. apply elem_of_app. right. by left. }
    split_and!.
    + by rewrite <- app_assoc.
    + simpl. by apply sublist_skip.
    + constructor; [done|]. eapply Forall_impl; [exact Hkeys|].
      intros entry (? & ? & Hout). split_and!; [done..|].
      intros Hin. apply Hout. rewrite fmap_app. apply elem_of_app. by left.
    + simpl. by constructor.
    + simpl. constructor; [by exists [], candidates|].
      rewrite Forall_forall in Hkeys.
      rewrite Forall_fmap in Hfirst |- *.
      rewrite Forall_forall in Hfirst |- *.
      intros entry Hentry. destruct (Hfirst _ Hentry) as (before & after & -> & Hbefore).
      destruct (Hkeys _ Hentry) as (Heq & _ & _).
      exists (c :: before), after. split; [done|]. constructor; [|done].
      cbn beta. rewrite <- Heq. intros Hsame. apply Hfresh.
      apply list_elem_of_fmap. exists entry. by split.
    + rewrite <- app_assoc in Hall. simpl in Hall. constructor; [|done].
      right. rewrite fmap_app. apply elem_of_app. right. by left.
Qed.

Lemma deduplicate_added candidates :
  ∃ added,
    deduplicate candidates = added.*2
    ∧ sublist added.*2 candidates
    ∧ Forall (λ entry, entry.1 = domain_of entry.2 ∧ entry.1 ≠ "") added
    ∧ NoDup added.*1
    ∧ Forall (first_of_its_domain candidates) added.*2
    ∧ Forall (λ c, domain_of c = "" ∨ domain_of c ∈ added.*1) candidates.
Proof.
  destruct (fold_dedup_added candidates []) as (added & Heq & Hsub & Hkeys & Hnd & Hf & Hall).
  exists added. unfold deduplicate. rewrite Heq. simpl.
  split_and!; [done..| |done|done|done].
  eapply Forall_impl; [exact Hkeys|]. by intros entry (? & ? & _).
Qed.

Lemma added_domains (added : list (string * gmap string pyval)) :
  Forall (λ entry, entry.1 = domain_of entry.2 ∧ entry.1 ≠ "") added →
  domain_of <$> added.*2 = added.*1.
Proof.
  induction 1 as [|[d c] added [Heq _] _ IH]; [done|].
  rewrite !fmap_cons. cbn [fst snd] in *. by rewrite IH, <- Heq.
Qed.

(** Candidates that add nothing: no domain, or a domain already filed. *)
Lemma fold_dedup_absorbed candidates unique :
  Forall (λ c, domain_of c = "" ∨ domain_of c ∈ unique.*1) candidates →
  fold_left dedup_step candidates unique = unique.
Proof.
  induction 1 as [|c candidates Hc _ IH]; simpl; [done|].
  destruct (dedup_step_cases unique c) as [[-> _]|(_ & Hne & Hnew)]; [done|].
  by destruct Hc.
Qed.

Lemma fold_dedup_covers candidates unique :
  Forall (λ c, domain_of c = "" ∨ domain_of c ∈ (fold_left dedup_step candidates unique).*1)
         candidates.
Proof.
  destruct (fold_dedup_added candidates unique) as (added & -> & _ & _ & _ & _ & Hall).
  exact Hall.
Qed.

Lemma fold_dedup_keeps candidates unique d :
  d ∈ unique.*1 → d ∈ (fold_left dedup_step candidates unique).*1.
Proof.
  destruct (fold_dedup_added candidates unique) as (added & -> & _).
  intros Hin. rewrite fmap_app. apply elem_of_app. by left.
Qed.

End Deduplication.

(** X1: the candidates returned by the deduplication have pairwise distinct
    domains, none of them empty, and they come in the order in which the
    adapters delivered them. *)
Theorem deduplicate_unique_domains `{Env} (candidates : list (gmap string pyval)) :
  NoDup (domain_of <$> deduplicate candidates)
  ∧ ("" ∉ (domain_of <$> deduplicate candidates))
  ∧ sublist (deduplicate candidates) candidates.
Proof.
  destruct (deduplicate_added candidates) as (added & -> & Hsub & Hkeys & Hnd & _).
  rewrite (added_domains _ Hkeys). split_and!; [done| |done].
  intros ((d & c) & Heq & Hin)%list_elem_of_fmap.
  rewrite Forall_forall in Hkeys. destruct (Hkeys _ Hin) as [_ Hne]. by apply Hne.
Qed.

(** X2: the first candidate of a domain wins.  A non-empty domain is
    represented in the output exactly when a candidate has it, and the
    candidate kept for it is the first one with that domain. *)
Theorem deduplicate_first_wins `{Env} (candidates : list (gmap string pyval)) :
  (∀ domain, domain ∈ (domain_of <$> deduplicate candidates)
             ↔ domain ≠ "" ∧ domain ∈ (domain_of <$> candidates))
  ∧ Forall (first_of_its_domain candidates) (deduplicate candidates).
Proof.
  destruct (deduplicate_added candidates) as (added & -> & Hsub & Hkeys & Hnd & Hfirst & Hall).
  split; [|done]. intros domain. rewrite (added_domains _ Hkeys). split.
  - intros Hin. split.
    + apply list_elem_of_fmap in Hin as ((d & c) & -> & Hin).
      rewrite Forall_forall in Hkeys. by destruct (Hkeys _ Hin).
    + rewrite <- (added_domains _ Hkeys) in Hin.
      apply list_elem_of_fmap in Hin as (c & -> & Hin).
      apply list_elem_of_fmap. exists c. split; [done|].
      by eapply elem_of_sublist.
  - intros [Hne (c & -> & Hin)%list_elem_of_fmap].
    rewrite Forall_forall in Hall. by destruct (Hall _ Hin).
Qed.

(** ** Discovery: what the simulated adapters amount to *)

Section Adapters.
Context `{Env}.

Lemma merge_results_app all_results more :
  merge_results (all_results ++ more) = merge_results all_results ++ merge_results more.
Proof. apply flat_map_app. Qed.

Lemma merge_google queries :
  merge_results ((λ query, Ok (_search_google_custom query)) <$> queries)
  = flat_map (λ _, _search_google_custom "") queries.
Proof. induction queries as [|q queries IH]; simpl; [done|]. by rewrite <- IH. Qed.

Lemma fold_dedup_repeated {A} (again : list A) candidates unique :
  Forall (λ c, domain_of c = "" ∨ domain_of c ∈ unique.*1) candidates →
  fold_left dedup_step (flat_map (λ _, candidates) again) unique = unique.
Proof.
  intros Hall. induction again as [|a again IH]; simpl; [done|].
  rewrite fold_left_app, (fold_dedup_absorbed candidates unique Hall). exact IH.
Qed.

Lemma license_board_no_domain trade idx rng :
  Forall (λ record, domain_of record = "")
         (_search_state_license_board_go trade idx rng).1.
Proof.
  apply Forall_forall. intros record Hin%license_board_no_website.
  unfold domain_of, get_or. by rewrite Hin.
Qed.

Lemma license_board_draws trade idx rng :
  (_search_state_license_board_go trade idx rng).2 = (length idx + rng)%nat.
Proof.
  revert rng. induction idx as [|i idx IH]; intros rng; simpl; [done|].
  specialize (IH (S rng)).
  destruct (_search_state_license_board_go trade idx (S rng)) as [rest rng2].
  simpl in *. lia.
Qed.

(** Every search query returns the same eight sites, and the registry
    records have no domain: what is left is the deduplicated union of the
    three directories. *)
Lemma discover_candidates_directories trade city state keywords rng :
  discover_candidates trade city state keywords rng
  = (deduplicate directory_results, (5 + rng)%nat).
Proof.
  unfold discover_candidates, _search_state_license_board.
  pose proof (license_board_no_domain trade (seq 1 5) rng) as Hboard.
  pose proof (license_board_draws trade (seq 1 5) rng) as Hdraws.
  destruct (_search_state_license_board_go trade (seq 1 5) rng) as [board rng'].
  simpl in Hboard, Hdraws. subst rng'. f_equal.
  unfold deduplicate, directory_results. f_equal.
  rewrite merge_results_app, merge_google.
  change (merge_results [Ok (_search_yelp trade city state);
                         Ok (_search_bbb trade city state); Ok board])
    with (_search_yelp "" "" "" ++ _search_bbb "" "" "" ++ board ++ []).
  rewrite app_nil_r. unfold search_queries.
  match goal with
  | |- context [flat_map ?f ([?a; ?b] ++ ?l)] =>
      change (flat_map f ([a; b] ++ l))
        with (_search_google_custom "" ++ flat_map f (b :: l))
  end.
  rewrite !fold_left_app.
  rewrite (fold_dedup_repeated _ _ _ (fold_dedup_covers _ [])).
  apply fold_dedup_absorbed.
  eapply Forall_impl; [exact Hboard|]. intros record Hrecord. by left.
Qed.

End Adapters.

(** X3: the discovery does not depend on the request.  Whatever the trade,
    the place and the keywords, it returns the same candidates, and it
    takes five numbers from the random stream. *)
Theorem discover_candidates_ignores_request `{Env}
    (trade city state : string) (keywords : list string) (rng : nat)
    (trade' city' state' : string) (keywords' : list string) (rng' : nat) :
  (discover_candidates trade city state keywords rng).1
  = (discover_candidates trade' city' state' keywords' rng').1
  ∧ (discover_candidates trade city state keywords rng).2 = (5 + rng)%nat.
Proof.
  pose proof (discover_candidates_directories trade city state keywords rng) as Hrun.
  pose proof (discover_candidates_directories trade' city' state' keywords' rng') as Hrun'.
  rewrite Hrun, Hrun'. cbn [fst snd]. split; reflexivity.
Qed.

Lemma deduplicate_length `{Env} (candidates : list (gmap string pyval)) :
  (length (deduplicate candidates)
   <= length (remove_dups (website_of <$> candidates)))%nat.
Proof.
  destruct (deduplicate_added candidates) as (added & Hout & Hsub & Hkeys & Hnd & _).
  rewrite <- (added_domains _ Hkeys), <- Hout in Hnd.
  change domain_of with (_extract_domain ∘ website_of) in Hnd.
  rewrite list_fmap_compose in Hnd. apply NoDup_fmap_1 in Hnd.
  rewrite <- (length_fmap website_of). apply submseteq_length.
  apply NoDup_submseteq; [exact Hnd|].
  intros w (c & -> & Hin)%list_elem_of_fmap.
  apply elem_of_remove_dups, list_elem_of_fmap. exists c. split; [done|].
  rewrite <- Hout in Hsub. by eapply elem_of_sublist.
Qed.

Lemma discover_candidates_length `{Env}
    (trade city state : string) (keywords : list string) (rng : nat) :
  (length (discover_candidates trade city state keywords rng).1 <= 15)%nat.
Proof.
  pose proof (discover_candidates_directories trade city state keywords rng) as Hrun.
  rewrite Hrun. cbn [fst].
  etrans; [apply deduplicate_length|]. apply Nat.leb_le. vm_compute. reflexivity.
Qed.

(** X4: the discovery returns at most fifteen candidates, all of them
    entries of the three directories in their order: the sixteen
    directory entries name fifteen sites. *)
Theorem discover_candidates_at_most_15 `{Env}
    (trade city state : string) (keywords : list string) (rng : nat) :
  (length (discover_candidates trade city state keywords rng).1 <= 15)%nat
  ∧ sublist (discover_candidates trade city state keywords rng).1 directory_results.
Proof.
  split; [apply discover_candidates_length|].
  pose proof (discover_candidates_directories trade city state keywords rng) as Hrun.
  rewrite Hrun. cbn [fst].
  destruct (deduplicate_added directory_results) as (added & -> & Hsub & _). done.
Qed.

(** ** Discovery: deduplicating twice *)

Lemma fold_dedup_distinct `{Env} candidates unique :
  NoDup (unique.*1 ++ (domain_of <$> candidates)) →
  "" ∉ (domain_of <$> candidates) →
  fold_left dedup_step candidates unique
  = unique ++ ((λ candidate, (domain_of candidate, candidate)) <$> candidates).
Proof.
  revert unique. induction candidates as [|c candidates IH]; intros unique Hnodup Hne.
  { by rewrite app_nil_r. }
  rewrite fmap_cons in Hnodup, Hne. cbn [fold_left].
  apply NoDup_app in Hnodup as (Hunique & Hfresh & Hrest).
  apply NoDup_cons in Hrest as [Hc Hrest].
  destruct (dedup_step_cases unique c) as [[_ [Hempty|Hseen]]|(-> & _ & _)].
  - destruct Hne. rewrite Hempty. left.
  - destruct (Hfresh _ Hseen). left.
  - rewrite IH.
    + by rewrite <- app_assoc.
    + rewrite fmap_app. cbn [fmap list_fmap fst]. rewrite <- app_assoc. cbn [app].
      apply NoDup_app. split_and!; [done| |by apply NoDup_cons].
      intros d Hd. apply Hfresh. exact Hd.
    + intros Hin. apply Hne. by right.
Qed.

(** X5: deduplicating twice changes nothing, and a candidate list whose
    domains are already distinct and not empty passes unchanged. *)
Theorem deduplicate_idempotent `{Env} (candidates : list (gmap string pyval)) :
  deduplicate (deduplicate candidates) = deduplicate candidates
  ∧ (NoDup (domain_of <$> candidates) → "" ∉ (domain_of <$> candidates) →
     deduplicate candidates = candidates).
Proof.
  assert (Hfixed : ∀ l, NoDup (domain_of <$> l) → "" ∉ (domain_of <$> l) →
                        deduplicate l = l).
  { intros l Hnodup Hne. unfold deduplicate.
    rewrite fold_dedup_distinct by done. cbn [app].
    rewrite <- list_fmap_compose. apply list_fmap_id. }
  split; [|apply Hfixed].
  destruct (deduplicate_added candidates) as (added & Heq & _ & Hkeys & Hnodup & _).
  apply Hfixed; rewrite Heq, (added_domains _ Hkeys); [done|].
  intros ((d & c) & Hd & Hin)%list_elem_of_fmap.
  rewrite Forall_forall in Hkeys. destruct (Hkeys _ Hin) as [_ Hne]. by apply Hne.
Qed.

(** ** Discovery: the normalisation of a site address *)

Lemma substring_all (s : string) : String.substring 0 (String.length s) s = s.
Proof. induction s as [|c s IH]; simpl; [done|]. by rewrite IH. Qed.

Lemma drop_www (host : string) : Str.drop 4 ("www." +:+ host) = host.
Proof. unfold Str.drop. simpl. rewrite Nat.sub_0_r. apply substring_all. Qed.

Lemma startswith_www (host : string) : Str.startswith ("www." +:+ host) "www." = true.
Proof. by destruct host. Qed.

(** X6: [_extract_domain] reads an address without scheme as an [https]
    address, strips one leading [www.] from the host that [urlparse]
    reports, and answers the empty domain, never an exception, when
    [urlparse] raises or the address is empty or not a string. *)
Theorem extract_domain_normalises `{Env} (url host : string) :
  (url ≠ "" → Str.startswith url "http://" = false →
     Str.startswith url "https://" = false →
     _extract_domain (PStr url) = _extract_domain (PStr ("https://" +:+ url)))
  ∧ (urlparse_netloc ("https://" +:+ url) = Some ("www." +:+ host) →
     _extract_domain (PStr ("https://" +:+ url)) = host)
  ∧ (urlparse_netloc ("https://" +:+ url) = Some host →
     Str.startswith host "www." = false →
     _extract_domain (PStr ("https://" +:+ url)) = host)
  ∧ (urlparse_netloc ("https://" +:+ url) = None →
     _extract_domain (PStr ("https://" +:+ url)) = "")
  ∧ (∀ v, truthy v = false ∨ (∀ s, v ≠ PStr s) → _extract_domain v = "").
Proof.
  assert (Hscheme : ∀ rest, Str.startswith ("https://" +:+ rest) "http://"
                            || Str.startswith ("https://" +:+ rest) "https://" = true)
    by (by intros [|c rest]).
  assert (Htruthy : ∀ rest, negb (truthy (PStr ("https://" +:+ rest))) = false)
    by reflexivity.
  split_and!.
  - intros Hne Hhttp Hhttps. unfold _extract_domain at 1.
    destruct url as [|c url]; [done|]. cbn [truthy String.eqb negb].
    rewrite Hhttp, Hhttps. cbn [orb].
    unfold _extract_domain. by rewrite Htruthy, Hscheme.
  - intros Hnetloc. unfold _extract_domain.
    by rewrite Htruthy, Hscheme, Hnetloc, startswith_www, drop_www.
  - intros Hnetloc Hwww. unfold _extract_domain.
    by rewrite Htruthy, Hscheme, Hnetloc, Hwww.
  - intros Hnetloc. unfold _extract_domain. by rewrite Htruthy, Hscheme, Hnetloc.
  - intros v [Hfalsy|Hother]; unfold _extract_domain.
    + by rewrite Hfalsy.
    + destruct (negb (truthy v)); [done|]. destruct v; try done. by destruct (Hother s).
Qed.

(** ** Profile extraction: the batches *)

Lemma batches_concat {A} (fuel n : nat) (l : list A) :
  (0 < n)%nat → (length l <= fuel)%nat → concat (batches fuel n l) = l.
Proof.
  intros Hn. revert l. induction fuel as [|fuel IH]; intros l Hlen.
  - destruct l; [done|simpl in Hlen; lia].
  - destruct l as [|a l]; [done|].
    cbn [batches concat]. rewrite IH; [apply firstn_skipn|].
    rewrite length_skipn. simpl in *. lia.
Qed.

Lemma batches_sizes {A} (fuel n : nat) (l : list A) :
  (0 < n)%nat →
  Forall (λ batch, (1 <= length batch <= n)%nat) (batches fuel n l).
Proof.
  intros Hn. revert l. induction fuel as [|fuel IH]; intros l.
  - destruct l; constructor.
  - destruct l as [|a l]; [constructor|].
    cbn [batches]. constructor; [|apply IH].
    rewrite length_firstn. simpl. lia.
Qed.

Lemma flat_map_omap {A B} (f : A → option B) (ls : list (list A)) :
  flat_map (omap f) ls = omap f (concat ls).
Proof.
  induction ls as [|l ls IH]; simpl; [done|]. by rewrite IH, omap_app.
Qed.

Lemma omap_length_le {A B} (f : A → option B) (l : list A) :
  (length (omap f l) <= length l)%nat.
Proof. induction l as [|a l IH]; csimpl; [done|]. destruct (f a); csimpl; lia. Qed.

Lemma extract_profiles_as_batch `{Env} (candidates : list (gmap string pyval)) :
  extract_profiles candidates = extract_batch candidates.
Proof.
  unfold extract_profiles, extract_batch.
  rewrite flat_map_omap, batches_concat; [done|lia|done].
Qed.

(** X7: processing the candidates in batches of five loses, repeats and
    reorders nothing: the batches are non-empty slices of at most five
    candidates whose concatenation is the candidate list, and the profiles
    come out as if the candidates were processed in one batch. *)
Theorem extract_profiles_batching `{Env} (candidates : list (gmap string pyval)) :
  extract_profiles candidates = extract_batch candidates
  ∧ concat (batches (length candidates) 5 candidates) = candidates
  ∧ Forall (λ batch, (1 <= length batch <= 5)%nat)
           (batches (length candidates) 5 candidates)
  ∧ (length (extract_profiles candidates) <= length candidates)%nat.
Proof.
  split_and!.
  - apply extract_profiles_as_batch.
  - apply batches_concat; lia.
  - apply batches_sizes; lia.
  - rewrite extract_profiles_as_batch. unfold extract_batch. apply omap_length_le.
Qed.

(** ** Profile extraction: the dictionary of extracted data *)

Lemma get_insert_eq (d : gmap string pyval) k v : get (<[k := v]> d) k = v.
Proof. unfold get. by rewrite lookup_insert_eq. Qed.

Lemma get_insert_ne (d : gmap string pyval) k k' v :
  k ≠ k' → get (<[k := v]> d) k' = get d k'.
Proof. intros Hne. unfold get. by rewrite lookup_insert_ne. Qed.

Lemma dom_insert_present (k : string) (v : pyval) (d : gmap string pyval) :
  k ∈ dom d → dom (<[k := v]> d) = dom d.
Proof. intros Hk%elem_of_dom. by apply dom_insert_lookup_L. Qed.

Section DataKeys.
Context `{Env}.

Lemma look_for_dom field pattern text data :
  field ∈ dom data → dom (look_for field pattern text data) = dom data.
Proof.
  intros Hfield. unfold look_for. destruct (negb _); [|done].
  destruct (Re.findall0 _ _); [done|]. by apply dom_insert_present.
Qed.

Lemma look_for_address_dom text data :
  "city" ∈ dom data → "state" ∈ dom data → dom (look_for_address text data) = dom data.
Proof.
  unfold look_for_address. revert data.
  induction Patterns.address_patterns as [|pattern patterns IH];
    intros data Hcity Hstate; simpl; [done|].
  destruct (Re.findall2 pattern text) as [|[c s] ms]; [by apply IH|].
  destruct (negb _); [|by apply IH].
  assert (Hdom : dom (<["state" := PStr s]> (<["city" := PStr (Str.strip c)]> data))
                 = dom data).
  { rewrite dom_insert_present; [by apply dom_insert_present|].
    by rewrite dom_insert_present. }
  rewrite IH; [done|by rewrite Hdom..].
Qed.

Lemma look_for_bond_dom patterns page_path text st :
  "bond_amount" ∈ dom (extracted_data st) →
  dom (extracted_data (look_for_bond patterns page_path text st))
  = dom (extracted_data st).
Proof.
  intros Hbond. induction patterns as [|pattern patterns IH]; simpl; [done|].
  destruct (Re.findall1 pattern text) as [|bond_str ms]; [exact IH|].
  destruct (bond_value_of text bond_str) as [n|e]; [|exact IH].
  rewrite update_evidence_data. simpl. by apply dom_insert_present.
Qed.

Lemma data_keys_dom : dom (extracted_data initial_extraction) = list_to_set data_keys.
Proof.
  unfold initial_extraction, data_keys. cbn [extracted_data].
  rewrite !dom_insert_L, dom_singleton_L. cbn [list_to_set foldr].
  by rewrite (right_id_L ∅ (∪)).
Qed.

Lemma in_data_keys k (d : gmap string pyval) :
  dom d = list_to_set data_keys → k ∈ data_keys → k ∈ dom d.
Proof. intros -> Hk. by apply elem_of_list_to_set. Qed.

Lemma process_page_dom st page :
  dom (extracted_data st) = list_to_set data_keys →
  dom (extracted_data (process_page st page)) = list_to_set data_keys.
Proof.
  intros Hst. destruct page as [page_path html]. unfold process_page.
  set (data1 := look_for "email" _ _ _).
  assert (H1 : dom data1 = list_to_set data_keys).
  { unfold data1. rewrite look_for_dom; [done|]. apply in_data_keys; [done|in_keys]. }
  set (data2 := look_for "phone_number" _ _ _).
  assert (H2 : dom data2 = list_to_set data_keys).
  { unfold data2. rewrite look_for_dom; [done|]. apply in_data_keys; [done|in_keys]. }
  set (data3 := look_for_address _ _).
  assert (H3 : dom data3 = list_to_set data_keys).
  { unfold data3. rewrite look_for_address_dom; [done|..];
      (apply in_data_keys; [done|in_keys]). }
  rewrite look_for_bond_dom; cbn [extracted_data]; [done|].
  apply in_data_keys; [done|in_keys].
Qed.

Lemma deterministic_pass_dom page_contents :
  dom (extracted_data (deterministic_pass page_contents)) = list_to_set data_keys.
Proof.
  unfold deterministic_pass. pose proof data_keys_dom as Hinit. revert Hinit.
  generalize initial_extraction.
  induction page_contents as [|page pages IH]; intros st Hst; simpl; [exact Hst|].
  apply IH. by apply process_page_dom.
Qed.

Lemma llm_fill_dom llm_extracted data :
  dom data = list_to_set data_keys →
  dom (llm_fill llm_extracted data) = list_to_set data_keys.
Proof.
  unfold llm_fill.
  assert (Hfields : Forall (λ field, field ∈ data_keys) llm_fields)
    by (repeat constructor; in_keys).
  revert data Hfields. change ["city"; "state"; "bond_amount"; "email"; "phone_number"]
    with llm_fields.
  generalize llm_fields. intros fields.
  induction fields as [|field fields IH]; intros data Hfields Hdata; simpl; [exact Hdata|].
  apply Forall_cons in Hfields as [Hfield Hfields]. apply IH; [exact Hfields|].
  destruct (negb _); [|exact Hdata].
  destruct (llm_extracted !! field); [|exact Hdata].
  rewrite dom_insert_present; [exact Hdata|]. by apply in_data_keys.
Qed.

(** The fallback, field by field: a field among [llm_fields] that is
    still falsy takes the value of the LLM's object, if it has one. *)
Lemma fill_get (llm_extracted : gmap string pyval) fields data field :
  NoDup fields →
  get (fold_left
         (λ data field,
            if negb (truthy (get data field)) then
              match llm_extracted !! field with
              | Some v => <[field := v]> data
              | None => data
              end
            else data) fields data) field
  = if bool_decide (field ∈ fields) && negb (truthy (get data field))
    then default (get data field) (llm_extracted !! field)
    else get data field.
Proof.
  intros Hnodup. revert data.
  induction Hnodup as [|f fields Hfresh Hnodup IH]; intros data; [done|].
  cbn [fold_left]. rewrite IH. destruct (decide (field = f)) as [->|Hne].
  - rewrite (bool_decide_eq_false_2 (f ∈ fields)) by done.
    rewrite (bool_decide_eq_true_2 (f ∈ f :: fields)) by left.
    cbn [andb]. destruct (negb (truthy (get data f))); [|done].
    destruct (llm_extracted !! f) as [v|]; [|done].
    cbn [default]. unfold get. by rewrite lookup_insert_eq.
  - assert (Hsame : get (if negb (truthy (get data f)) then
                           match llm_extracted !! f with
                           | Some v => <[f := v]> data
                           | None => data
                           end
                         else data) field = get data field).
    { destruct (negb _); [|done]. destruct (llm_extracted !! f); [|done].
      unfold get. by rewrite lookup_insert_ne. }
    rewrite Hsame.
    assert (Hiff : bool_decide (field ∈ f :: fields) = bool_decide (field ∈ fields)).
    { apply bool_decide_ext. rewrite elem_of_cons.
      split; [intros [Heq|Hin]; [by destruct Hne|exact Hin]|intros Hin; by right]. }
    by rewrite Hiff.
Qed.

Lemma llm_fill_get llm_extracted data field :
  get (llm_fill llm_extracted data) field
  = if bool_decide (field ∈ llm_fields) && negb (truthy (get data field))
    then default (get data field) (llm_extracted !! field)
    else get data field.
Proof.
  unfold llm_fill. apply fill_get.
  apply (bool_decide_unpack _). by vm_compute.
Qed.

(** The page recorded with the evidence is a page that was read. *)
Lemma update_evidence_page page_path text bond_str st :
  best_evidence_page (update_evidence page_path text bond_str st)
  = best_evidence_page st
  ∨ best_evidence_page (update_evidence page_path text bond_str st) = page_path.
Proof.
  unfold update_evidence. destruct (Str.find _ _); [|by left].
  destruct (_ || _); [by right|by left].
Qed.

Lemma look_for_bond_page patterns page_path text st :
  best_evidence_page (look_for_bond patterns page_path text st) = best_evidence_page st
  ∨ best_evidence_page (look_for_bond patterns page_path text st) = page_path.
Proof.
  induction patterns as [|pattern patterns IH]; simpl; [by left|].
  destruct (Re.findall1 pattern text) as [|bond_str ms]; [exact IH|].
  destruct (bond_value_of text bond_str) as [n|e]; [|exact IH].
  match goal with
  | |- context [update_evidence ?a ?b ?c ?d] =>
      destruct (update_evidence_page a b c d) as [Heq|Heq]
  end; rewrite Heq; [by left|by right].
Qed.

Lemma process_page_page st page_path html :
  best_evidence_page (process_page st (page_path, html)) = best_evidence_page st
  ∨ best_evidence_page (process_page st (page_path, html)) = page_path.
Proof.
  unfold process_page.
  match goal with
  | |- context [look_for_bond ?a ?b ?c ?d] =>
      destruct (look_for_bond_page a b c d) as [Heq|Heq]
  end; rewrite Heq; [by left|by right].
Qed.

Lemma deterministic_pass_page page_contents :
  best_evidence_page (deterministic_pass page_contents) = ""
  ∨ best_evidence_page (deterministic_pass page_contents) ∈ page_contents.*1.
Proof.
  unfold deterministic_pass.
  assert (Hgen : ∀ st,
            best_evidence_page (fold_left process_page page_contents st)
            = best_evidence_page st
            ∨ best_evidence_page (fold_left process_page page_contents st)
              ∈ page_contents.*1).
  { induction page_contents as [|[page_path html] pages IH]; intros st; [by left|].
    cbn [fold_left]. rewrite fmap_cons. cbn [fst].
    destruct (IH (process_page st (page_path, html))) as [Heq|Hin].
    - rewrite Heq. destruct (process_page_page st page_path html) as [Hst|Hst];
        rewrite Hst; [by left|right; by left].
    - right. by right. }
  apply Hgen.
Qed.

End DataKeys.

Lemma _extract_data_from_pages_dom `{Env}
    (page_contents : list (string * string)) (website : string) :
  dom (_extract_data_from_pages page_contents website) = list_to_set data_keys.
Proof.
  pose proof (deterministic_pass_dom page_contents) as Hdom.
  unfold _extract_data_from_pages.
  set (st := deterministic_pass page_contents) in *.
  set (filled := if negb _ then _ else _).
  assert (Hfilled : dom filled.1 = list_to_set data_keys).
  { unfold filled. destruct (negb _); cbn [fst]; [|done]. by apply llm_fill_dom. }
  destruct filled as [data evidence]. cbn [fst] in Hfilled.
  rewrite !dom_insert_present; [done|..].
  - apply in_data_keys; [done|in_keys].
  - rewrite dom_insert_present; apply in_data_keys; (done || in_keys).
Qed.

Lemma _extract_data_from_pages_evidence_page `{Env}
    (page_contents : list (string * string)) (website : string) :
  _extract_data_from_pages page_contents website !! "evidence_page"
  = Some (PStr (best_evidence_page (deterministic_pass page_contents))).
Proof.
  unfold _extract_data_from_pages. destruct (negb _); by rewrite lookup_insert_eq.
Qed.

(** X8: whatever the pages and whatever the LLM answers, the dictionary
    returned by [_extract_data_from_pages] has exactly the seven keys it
    starts with; [evidence_page] is a string, empty or the path of a page
    that was read, and [evidence_text] is never [None]. *)
Theorem extract_data_from_pages_shape `{Env}
    (page_contents : list (string * string)) (website : string) :
  (∀ k, is_Some (_extract_data_from_pages page_contents website !! k) ↔ k ∈ data_keys)
  ∧ (∃ page, _extract_data_from_pages page_contents website !! "evidence_page"
             = Some (PStr page)
             ∧ (page = "" ∨ page ∈ page_contents.*1))
  ∧ get (_extract_data_from_pages page_contents website) "evidence_text" ≠ PNone.
Proof.
  split_and!.
  - intros k. rewrite <- elem_of_dom, _extract_data_from_pages_dom.
    apply elem_of_list_to_set.
  - exists (best_evidence_page (deterministic_pass page_contents)).
    split; [apply _extract_data_from_pages_evidence_page|].
    apply deterministic_pass_page.
  - unfold _extract_data_from_pages.
    set (llm := _extract_with_llm _ website).
    destruct (negb _); rewrite get_insert_ne, get_insert_eq by done; [|done].
    destruct (truthy (get llm "evidence_text")) eqn:Htext; cbn [andb]; [|done].
    destruct (String.eqb _ _); [|done]. intros Hnone. by rewrite Hnone in Htext.
Qed.

Lemma _extract_data_from_pages_get `{Env} page_contents website field :
  field ≠ "evidence_page" → field ≠ "evidence_text" →
  get (_extract_data_from_pages page_contents website) field
  = if complete (extracted_data (deterministic_pass page_contents))
    then get (extracted_data (deterministic_pass page_contents)) field
    else get (llm_fill (_extract_with_llm (combined_text page_contents) website)
                       (extracted_data (deterministic_pass page_contents))) field.
Proof.
  intros Hpage Htext. unfold _extract_data_from_pages, complete, combined_text.
  destruct (truthy _ && truthy _ && truthy _); cbn [negb];
    unfold get; by rewrite !lookup_insert_ne.
Qed.

(** X9: the LLM fallback fills gaps only.  For each of the five fields it
    may fill: a value found by the patterns is kept; when city, state and
    bond amount were all found the LLM plays no part; otherwise a field
    that is still falsy takes whatever value the LLM's object has under
    that key, and stays as it is when the object lacks the key. *)
Theorem llm_fallback_fills_only_gaps `{Env}
    (page_contents : list (string * string)) (website : string) :
  let found := extracted_data (deterministic_pass page_contents) in
  let data := _extract_data_from_pages page_contents website in
  let llm_extracted := _extract_with_llm (combined_text page_contents) website in
  Forall (λ field,
            (truthy (get found field) = true → get data field = get found field)
            ∧ (complete found = true → get data field = get found field)
            ∧ (complete found = false → truthy (get found field) = false →
               get data field = default (get found field) (llm_extracted !! field)))
         llm_fields.
Proof.
  intros found data llm_extracted.
  assert (Hfield : ∀ field, field ∈ llm_fields →
            get data field
            = if complete found then get found field
              else if negb (truthy (get found field))
                   then default (get found field) (llm_extracted !! field)
                   else get found field).
  { intros field Hin. unfold data.
    rewrite _extract_data_from_pages_get.
    - fold found llm_extracted. destruct (complete found); [done|].
      rewrite llm_fill_get. by rewrite (bool_decide_eq_true_2 _ Hin).
    - intros ->. revert Hin. apply (bool_decide_unpack _). by vm_compute.
    - intros ->. revert Hin. apply (bool_decide_unpack _). by vm_compute. }
  apply Forall_forall. intros field Hin. rewrite (Hfield field Hin). split_and!.
  - intros ->. by destruct (complete found).
  - by intros ->.
  - by intros -> ->.
Qed.

(** In a world whose LLM answers, on a page without address: the phone
    number read from the page is kept, the city comes from the LLM. *)
Example llm_fills_the_city :
  let data := @_extract_data_from_pages talkative_world
                [("", "Acme Mechanical. Bonded up to $5 million. Call (512) 555-1234.")]
                "https://www.acme.com" in
  get data "phone_number" = PStr "(512) 555-1234"
  ∧ get data "city" = PStr "Austin"
  ∧ get data "email" = PStr "info@llm.example".
Proof. vm_compute. done. Qed.

(** X10: when the patterns find city, state and bond amount, the LLM is not
    consulted: the extracted data are the same in every world that reads
    the pages alike, whatever its LLM service answers. *)
Theorem llm_not_consulted_when_complete (world world' : Env)
    (page_contents : list (string * string)) (website : string) :
  @soup_text world = @soup_text world' →
  complete (extracted_data (@deterministic_pass world page_contents)) = true →
  @_extract_data_from_pages world page_contents website
  = @_extract_data_from_pages world' page_contents website.
Proof.
  intros Hsoup Hcomplete.
  assert (Hpass : @deterministic_pass world page_contents
                  = @deterministic_pass world' page_contents).
  { clear Hcomplete. unfold deterministic_pass. generalize initial_extraction.
    induction page_contents as [|[page_path html] pages IH]; intros st; [done|].
    cbn [fold_left].
    assert (Hstep : @process_page world st (page_path, html)
                    = @process_page world' st (page_path, html))
      by (unfold process_page; by rewrite Hsoup).
    rewrite Hstep. apply IH. }
  unfold _extract_data_from_pages. rewrite <- Hpass.
  unfold complete in Hcomplete. by rewrite Hcomplete.
Qed.

Lemma llm_not_consulted_when_complete_witness :
  @_extract_data_from_pages acme_world contact_page "https://www.acme.com"
  = @_extract_data_from_pages talkative_world contact_page "https://www.acme.com".
Proof.
  apply (llm_not_consulted_when_complete acme_world talkative_world).
  - reflexivity.
  - vm_compute. reflexivity.
Defined.

(** ** Profile extraction: what a retained profile holds *)

Lemma copy_fields_lookup fields (candidate profile : gmap string pyval) k :
  copy_fields fields candidate profile !! k
  = if bool_decide (k ∈ fields)
    then match candidate !! k with Some v => Some v | None => profile !! k end
    else profile !! k.
Proof.
  unfold copy_fields. revert profile.
  induction fields as [|f fields IH]; intros profile; [done|].
  cbn [fold_left]. rewrite IH. destruct (decide (k = f)) as [->|Hne].
  - rewrite (bool_decide_eq_true_2 (f ∈ f :: fields)) by left.
    destruct (candidate !! f) as [v|] eqn:Hf.
    + rewrite lookup_insert_eq. by destruct (bool_decide _).
    + by destruct (bool_decide _).
  - assert (Hiff : bool_decide (k ∈ f :: fields) = bool_decide (k ∈ fields)).
    { apply bool_decide_ext. rewrite elem_of_cons.
      split; [intros [Heq|Hin]; [by destruct Hne|exact Hin]|intros Hin; by right]. }
    rewrite Hiff.
    assert (Hsame : (match candidate !! f with
                     | Some v => <[f := v]> profile
                     | None => profile
                     end) !! k = profile !! k).
    { destruct (candidate !! f); [|done]. by rewrite lookup_insert_ne. }
    by rewrite Hsame.
Qed.

Lemma fetch_pages_elem `{Env} website page html :
  (page, html) ∈ fetch_pages website →
  page ∈ pages_to_visit ∧ http_get (Str.rstrip_slash website +:+ page) = Some html.
Proof.
  unfold fetch_pages. intros (path & Hin & Hsome)%list_elem_of_omap.
  destruct (http_get (Str.rstrip_slash website +:+ path)) as [body|] eqn:Hget;
    [|discriminate Hsome].
  cbn in Hsome. injection Hsome as <- <-. by split.
Qed.

Lemma fetch_pages_none `{Env} website :
  (∀ path, path ∈ pages_to_visit →
           http_get (Str.rstrip_slash website +:+ path) = None) →
  fetch_pages website = [].
Proof.
  intros Hnone. unfold fetch_pages.
  induction pages_to_visit as [|path paths IH]; [done|].
  csimpl. rewrite (Hnone path) by left. csimpl. apply IH.
  intros p Hp. apply Hnone. by right.
Qed.

(** The entries of a profile that is returned. *)
Lemma _extract_single_profile_retained `{Env} (candidate profile : gmap string pyval) :
  _extract_single_profile candidate = Ok (Some profile) →
  ∃ website url,
    get candidate "website" = PStr website
    ∧ profile !! "website" = Some (PStr (with_scheme website))
    ∧ profile !! "name" = Some (get_or candidate "name" (PStr ""))
    ∧ profile !! "last_checked" = Some (PStr now_isoformat)
    ∧ profile !! "lic_number" = candidate !! "lic_number"
    ∧ profile !! "lic_active" = candidate !! "lic_active"
    ∧ profile !! "source" = None
    ∧ profile !! "evidence_url" = Some (PStr url)
    ∧ (url = with_scheme website ∨ is_Some (http_get url)).
Proof.
  unfold _extract_single_profile.
  destruct (truthy (get candidate "website")) eqn:Hsite; cbn [negb];
    [|intros Hx; discriminate Hx].
  destruct (get candidate "website") as [|b|z|website] eqn:Hweb;
    try (intros Hx; discriminate Hx).
  fold (with_scheme website). set (site := with_scheme website).
  destruct (fetch_pages site) as [|page pages] eqn:Hpages;
    [intros Hx; discriminate Hx|].
  rewrite <- Hpages.
  set (extracted := _extract_data_from_pages (fetch_pages site) site).
  destruct (_ <=? _)%nat; [|intros Hx; discriminate Hx].
  intros Hx. injection Hx as <-.
  pose proof (_extract_data_from_pages_dom (fetch_pages site) site) as Hdom.
  pose proof (_extract_data_from_pages_evidence_page (fetch_pages site) site)
    as Hpage.
  pose proof (deterministic_pass_page (fetch_pages site)) as Hread.
  fold extracted in Hdom, Hpage.
  assert (Hother : ∀ k v, k ∉ data_keys → k ≠ "evidence_url" →
            (<["evidence_url" := v]>
               (update
                  (copy_fields ["lic_number"; "lic_active"] candidate
                     {[ "name" := get_or candidate "name" (PStr "");
                        "website" := PStr site;
                        "last_checked" := PStr now_isoformat ]})
                  extracted)) !! k
            = copy_fields ["lic_number"; "lic_active"] candidate
                {[ "name" := get_or candidate "name" (PStr "");
                   "website" := PStr site;
                   "last_checked" := PStr now_isoformat ]} !! k).
  { intros k v Hk Hurl. rewrite lookup_insert_ne by done. unfold update.
    apply lookup_union_r. apply not_elem_of_dom. rewrite Hdom.
    by rewrite elem_of_list_to_set. }
  assert (Hnot : ∀ k, bool_decide (k ∈ data_keys) = false → k ∉ data_keys)
    by (intros k Hk; exact (proj1 (bool_decide_eq_false _) Hk)).
  eexists website, _. split_and!.
  - done.
  - rewrite Hother; [|by apply Hnot|done]. by rewrite copy_fields_lookup.
  - rewrite Hother; [|by apply Hnot|done]. by rewrite copy_fields_lookup.
  - rewrite Hother; [|by apply Hnot|done]. by rewrite copy_fields_lookup.
  - rewrite Hother; [|by apply Hnot|done]. rewrite copy_fields_lookup.
    cbn. by destruct (candidate !! "lic_number").
  - rewrite Hother; [|by apply Hnot|done]. rewrite copy_fields_lookup.
    cbn. by destruct (candidate !! "lic_active").
  - rewrite Hother; [|by apply Hnot|done]. by rewrite copy_fields_lookup.
  - by rewrite lookup_insert_eq.
  - unfold get_or. rewrite Hpage. unfold default, from_option, id.
    destruct Hread as [Hempty|Hin].
    + left. rewrite Hempty. reflexivity.
    + apply list_elem_of_fmap in Hin as ([path html] & Heq & Hin).
       cbn [fst] in Heq. rewrite Heq. apply fetch_pages_elem in Hin as [_ Hget].
       destruct (truthy (PStr path)); [|by left]. right. by rewrite Hget.
Qed.

(** X11: the outcome of [_extract_single_profile].  Without a site, or when
    none of the eleven pages answers, there is no profile; a site that is
    not a string raises [AttributeError]; and a profile that is returned
    carries the site with its scheme, the name and the license fields as
    the discovery delivered them, the time of the visit, nothing else of
    the candidate, and an evidence address that is the site itself or
    the address of a page that answered. *)
Theorem extract_single_profile_outcome `{Env} (candidate : gmap string pyval) :
  (truthy (get candidate "website") = false →
     _extract_single_profile candidate = Ok None)
  ∧ (∀ website, get candidate "website" = PStr website →
       (∀ path, path ∈ pages_to_visit →
                http_get (Str.rstrip_slash (with_scheme website) +:+ path) = None) →
       _extract_single_profile candidate = Ok None)
  ∧ (∀ e, _extract_single_profile candidate = Raise e → exn_type e = AttributeError)
  ∧ ((∃ e, _extract_single_profile candidate = Raise e)
     ↔ truthy (get candidate "website") = true
       ∧ ∀ website, get candidate "website" ≠ PStr website)
  ∧ (∀ profile, _extract_single_profile candidate = Ok (Some profile) →
       ∃ website url,
         get candidate "website" = PStr website
         ∧ profile !! "website" = Some (PStr (with_scheme website))
         ∧ profile !! "name" = Some (get_or candidate "name" (PStr ""))
         ∧ profile !! "last_checked" = Some (PStr now_isoformat)
         ∧ profile !! "lic_number" = candidate !! "lic_number"
         ∧ profile !! "lic_active" = candidate !! "lic_active"
         ∧ profile !! "source" = None
         ∧ profile !! "evidence_url" = Some (PStr url)
         ∧ (url = with_scheme website ∨ is_Some (http_get url))).
Proof.
  split_and!.
  - intros Hsite. unfold _extract_single_profile. by rewrite Hsite.
  - intros website Hw Hnone. unfold _extract_single_profile. rewrite Hw.
    destruct (negb _); [done|]. fold (with_scheme website).
    by rewrite (fetch_pages_none _ Hnone).
  - intros e. unfold _extract_single_profile.
    destruct (negb (truthy (get candidate "website"))); [intros Hx; discriminate Hx|].
    destruct (get candidate "website") as [|b|z|website] eqn:Hweb;
      try (intros Hx; by injection Hx as <-).
    destruct (fetch_pages _); [intros Hx; discriminate Hx|].
    destruct (_ <=? _)%nat; intros Hx; discriminate Hx.
  - unfold _extract_single_profile.
    destruct (truthy (get candidate "website")) eqn:Hsite; cbn [negb].
    2:{ split; [intros [e Hx]; discriminate Hx|intros [Hx _]; discriminate Hx]. }
    destruct (get candidate "website") as [|b|z|website] eqn:Hweb.
    + discriminate Hsite.
    + split; [intros _; split; [done|by intros ?]|eauto].
    + split; [intros _; split; [done|by intros ?]|eauto].
    + split.
      * intros [e He]. destruct (fetch_pages _); [discriminate He|].
        destruct (_ <=? _)%nat; discriminate He.
      * intros [_ Hnot]. by destruct (Hnot website).
  - apply _extract_single_profile_retained.
Qed.

(** ** Profile extraction: the bond amount read by the patterns *)

Section BondValue.
Import Float64.

Lemma round_signed_nonneg num den :
  0 <= num → 0 < den →
  (∃ u, round_signed num den = F_fin u ∧ 0 <= u) ∨ round_signed num den = F_inf false.
Proof.
  intros Hnum Hden. unfold round_signed.
  pose proof (Float64Facts.round_scaled_nonneg (Z.abs num) den Hden ltac:(lia)) as Hu.
  assert (Hsign : (num <? 0) = false) by (apply Z.ltb_ge; lia). rewrite Hsign.
  destruct (overflow_units <=? _); [by right|left]. eauto.
Qed.

Lemma of_Z_million : of_Z 1000000 = F_fin (1000000 * one_units).
Proof. vm_compute. reflexivity. Qed.

Lemma parse_decimal_go_nonneg s seen acc scale digits scale' :
  Str.parse_decimal_go s seen acc scale = Some (digits, scale') →
  0 <= acc → 0 <= scale → 0 <= digits ∧ 0 <= scale'.
Proof.
  revert seen acc scale. induction s as [|c s IH]; intros seen acc scale; simpl.
  - intros Hx. injection Hx as <- <-. done.
  - destruct (Str.is_digit c).
    + intros Hgo Hacc Hscale. apply IH in Hgo; [done| |by destruct seen; lia].
      unfold Str.digit_val. lia.
    + destruct (_ && _); [|intros Hx; discriminate Hx].
      intros Hgo Hacc Hscale. by apply IH in Hgo.
Qed.

Lemma to_float_nonneg s x :
  Str.to_float s = Ok x → (∃ u, x = F_fin u ∧ 0 <= u) ∨ x = F_inf false.
Proof.
  unfold Str.to_float, Str.parse_decimal.
  destruct s as [|c s]; [intros Hx; discriminate Hx|].
  destruct (Str.parse_decimal_go (String c s) false 0 0) as [[digits scale]|] eqn:Hgo;
    [|intros Hx; discriminate Hx].
  intros Hx. injection Hx as <-.
  apply parse_decimal_go_nonneg in Hgo as [Hdigits Hscale]; [|done..].
  unfold of_decimal. pose proof Float64Facts.one_units_pos as Hone.
  destruct (round_signed_nonneg (digits * one_units) (10 ^ scale)) as [(u & -> & Hu)| ->];
    [nia|by apply Z.pow_pos_nonneg|left; eauto|by right].
Qed.

Lemma fmul_million_nonneg x :
  (∃ u, x = F_fin u ∧ 0 <= u) ∨ x = F_inf false →
  (∃ u, fmul x (of_Z 1000000) = F_fin u ∧ 0 <= u)
  ∨ fmul x (of_Z 1000000) = F_inf false.
Proof.
  rewrite of_Z_million. pose proof Float64Facts.one_units_pos as Hone.
  intros [(u & -> & Hu)| ->]; unfold fmul.
  - apply round_signed_nonneg; [nia|done].
  - right.
    assert (Hz : (1000000 * one_units =? 0) = false) by (apply Z.eqb_neq; lia).
    assert (Hs : (1000000 * one_units <? 0) = false) by (apply Z.ltb_ge; lia).
    by rewrite Hz, Hs.
Qed.

Lemma to_int_nonneg x n :
  (∃ u, x = F_fin u ∧ 0 <= u) ∨ x = F_inf false → to_int x = Ok n → 0 <= n.
Proof.
  pose proof Float64Facts.one_units_pos as Hone.
  intros [(u & -> & Hu)| ->]; unfold to_int; intros Hx; [|discriminate Hx].
  injection Hx as <-. by apply Z.quot_pos.
Qed.

End BondValue.

Lemma bond_value_of_nonneg text bond_str n :
  bond_value_of text bond_str = Ok n → 0 <= n.
Proof.
  unfold bond_value_of.
  destruct (Str.to_float (Str.remove_commas bond_str)) as [x|e] eqn:Hfloat;
    [|intros Hx; discriminate Hx].
  apply to_float_nonneg in Hfloat. cbn [mbind result_bind].
  destruct (_ || _).
  - apply to_int_nonneg. by apply fmul_million_nonneg.
  - by apply to_int_nonneg.
Qed.

Section BondFound.
Context `{Env}.

Lemma look_for_bond_nonneg patterns page_path text st :
  bond_amount_nonneg (extracted_data st) →
  bond_amount_nonneg (extracted_data (look_for_bond patterns page_path text st)).
Proof.
  intros Hst. induction patterns as [|pattern patterns IH]; simpl; [exact Hst|].
  destruct (Re.findall1 pattern text) as [|bond_str ms]; [exact IH|].
  destruct (bond_value_of text bond_str) as [n|e] eqn:Hvalue; [|exact IH].
  rewrite update_evidence_data. cbn [extracted_data].
  intros b. rewrite get_insert_eq. cbn [as_int]. intros Hb. injection Hb as <-.
  by eapply bond_value_of_nonneg.
Qed.

Lemma process_page_nonneg st page :
  bond_amount_nonneg (extracted_data st) →
  bond_amount_nonneg (extracted_data (process_page st page)).
Proof.
  intros Hst. destruct page as [page_path html]. unfold process_page.
  apply look_for_bond_nonneg. cbn [extracted_data]. intros b.
  rewrite look_for_address_other, !look_for_other by done. apply Hst.
Qed.

Lemma deterministic_pass_nonneg page_contents :
  bond_amount_nonneg (extracted_data (deterministic_pass page_contents)).
Proof.
  unfold deterministic_pass.
  assert (Hinit : bond_amount_nonneg (extracted_data initial_extraction))
    by (intros b Hb; discriminate Hb).
  revert Hinit. generalize initial_extraction.
  induction page_contents as [|page pages IH]; intros st Hst; simpl; [exact Hst|].
  apply IH. by apply process_page_nonneg.
Qed.

End BondFound.

(** X12: a bond amount read by the patterns is never negative, on any page
    text; so the data of the pattern pass meet the precondition under
    which the scoring cannot divide by zero, and so do the extracted data
    whenever the LLM's object has no [bond_amount]. *)
Theorem pattern_bond_amount_nonneg `{Env}
    (page_contents : list (string * string)) (website : string) :
  (∀ text bond_str n, bond_value_of text bond_str = Ok n → 0 <= n)
  ∧ bond_amount_nonneg (extracted_data (deterministic_pass page_contents))
  ∧ (_extract_with_llm (combined_text page_contents) website !! "bond_amount" = None →
     bond_amount_nonneg (_extract_data_from_pages page_contents website)).
Proof.
  split_and!.
  - apply bond_value_of_nonneg.
  - apply deterministic_pass_nonneg.
  - intros Hllm b. rewrite _extract_data_from_pages_get by done.
    pose proof (deterministic_pass_nonneg page_contents b) as Hfound.
    destruct (complete _); [exact Hfound|].
    rewrite llm_fill_get, Hllm. cbn [default]. by destruct (_ && _).
Qed.

(** ** Profile extraction: the evidence *)

Lemma substring_length_le n m s : (String.length (substring n m s) <= m)%nat.
Proof.
  revert n m. induction s as [|c s IH]; intros [|n] [|m]; simpl; try lia.
  - specialize (IH 0%nat m). lia.
  - apply (IH n 0%nat).
  - apply (IH n (S m)).
Qed.

Lemma lstrip_by_length p s : (String.length (Str.lstrip_by p s) <= String.length s)%nat.
Proof. induction s as [|c s IH]; simpl; [done|]. destruct (p c); simpl; lia. Qed.

Lemma rev_app_length s1 s2 :
  String.length (String.rev_app s1 s2) = (String.length s1 + String.length s2)%nat.
Proof.
  revert s2. induction s1 as [|c s1 IH]; intros s2; simpl; [done|].
  rewrite IH. simpl. lia.
Qed.

Lemma strip_length s : (String.length (Str.strip s) <= String.length s)%nat.
Proof.
  unfold Str.strip, Str.rstrip_by, String.rev.
  rewrite rev_app_length. simpl.
  etrans; [apply Nat.eq_le_incl, Nat.add_0_r|].
  etrans; [apply lstrip_by_length|].
  rewrite rev_app_length. simpl. rewrite Nat.add_0_r. apply lstrip_by_length.
Qed.

Section Evidence.
Context `{Env}.

Lemma update_evidence_length page_path text bond_str st :
  (String.length (best_evidence st) <= 200)%nat →
  (String.length (best_evidence (update_evidence page_path text bond_str st)) <= 200)%nat.
Proof.
  intros Hst. unfold update_evidence.
  destruct (Str.find _ _) as [bond_pos|]; [|exact Hst].
  destruct (_ || _); [|exact Hst]. cbn [best_evidence].
  etrans; [apply strip_length|]. unfold Str.slice.
  etrans; [apply substring_length_le|]. lia.
Qed.

Lemma look_for_bond_length patterns page_path text st :
  (String.length (best_evidence st) <= 200)%nat →
  (String.length (best_evidence (look_for_bond patterns page_path text st)) <= 200)%nat.
Proof.
  intros Hst. induction patterns as [|pattern patterns IH]; simpl; [exact Hst|].
  destruct (Re.findall1 pattern text) as [|bond_str ms]; [exact IH|].
  destruct (bond_value_of text bond_str) as [n|e]; [|exact IH].
  by apply update_evidence_length.
Qed.

Lemma deterministic_pass_length page_contents :
  (String.length (best_evidence (deterministic_pass page_contents)) <= 200)%nat.
Proof.
  unfold deterministic_pass.
  assert (Hinit : (String.length (best_evidence initial_extraction) <= 200)%nat)
    by (simpl; lia).
  revert Hinit. generalize initial_extraction.
  induction page_contents as [|[page_path html] pages IH]; intros st Hst;
    [exact Hst|].
  cbn [fold_left]. apply IH. unfold process_page. by apply look_for_bond_length.
Qed.

End Evidence.

(** X13: the evidence kept by the pattern pass is a window of at most 200
    characters of a page text, and it takes precedence: the LLM's
    [evidence_text] is used only when the patterns kept none. *)
Theorem evidence_window `{Env}
    (page_contents : list (string * string)) (website : string) :
  (String.length (best_evidence (deterministic_pass page_contents)) <= 200)%nat
  ∧ (best_evidence (deterministic_pass page_contents) ≠ "" →
     get (_extract_data_from_pages page_contents website) "evidence_text"
     = PStr (best_evidence (deterministic_pass page_contents)))
  ∧ (complete (extracted_data (deterministic_pass page_contents)) = true →
     get (_extract_data_from_pages page_contents website) "evidence_text"
     = PStr (best_evidence (deterministic_pass page_contents))).
Proof.
  split_and!.
  - apply deterministic_pass_length.
  - intros Hkept. unfold _extract_data_from_pages.
    destruct (negb _); rewrite get_insert_ne, get_insert_eq by done; [|done].
    destruct (String.eqb_spec (best_evidence (deterministic_pass page_contents)) "")
      as [Hempty|_]; [done|]. by rewrite andb_false_r.
  - intros Hcomplete. unfold _extract_data_from_pages.
    unfold complete in Hcomplete. rewrite Hcomplete. cbn [negb].
    by rewrite get_insert_ne, get_insert_eq.
Qed.

(** ** Profile extraction: the fields for which the first page wins *)

Section FirstPage.
Context `{Env}.

Lemma process_page_keeps_place st page :
  truthy (get (extracted_data st) "city") && truthy (get (extracted_data st) "state")
  = true →
  get (extracted_data (process_page st page)) "city" = get (extracted_data st) "city"
  ∧ get (extracted_data (process_page st page)) "state" = get (extracted_data st) "state".
Proof.
  intros Hset. destruct page as [page_path html]. unfold process_page.
  rewrite !look_for_bond_other by done. cbn [extracted_data].
  rewrite look_for_address_keeps; [by rewrite !look_for_other|].
  by rewrite !look_for_other.
Qed.

Lemma later_pages_keep_contact pages st field :
  field = "email" ∨ field = "phone_number" →
  truthy (get (extracted_data st) field) = true →
  get (extracted_data (fold_left process_page pages st)) field
  = get (extracted_data st) field.
Proof.
  intros Hfield. revert st. induction pages as [|page pages IH]; intros st Hset; [done|].
  cbn [fold_left].
  pose proof (process_page_keeps_contact st page field Hfield Hset) as Hpage.
  rewrite IH; [done|]. by rewrite Hpage.
Qed.

Lemma later_pages_keep_place pages st :
  truthy (get (extracted_data st) "city") && truthy (get (extracted_data st) "state")
  = true →
  get (extracted_data (fold_left process_page pages st)) "city"
  = get (extracted_data st) "city"
  ∧ get (extracted_data (fold_left process_page pages st)) "state"
    = get (extracted_data st) "state".
Proof.
  revert st. induction pages as [|page pages IH]; intros st Hset; [done|].
  cbn [fold_left].
  destruct (process_page_keeps_place st page Hset) as [Hcity Hstate].
  destruct (IH (process_page st page)) as [Hcity' Hstate'];
    [by rewrite Hcity, Hstate|].
  by rewrite Hcity', Hstate', Hcity, Hstate.
Qed.

Lemma first_page_contact field pattern path html m ms :
  (field = "email" ∧ pattern = Patterns.email_pattern)
  ∨ (field = "phone_number" ∧ pattern = Patterns.phone_pattern) →
  Re.findall0 pattern (soup_text html) = m :: ms →
  get (extracted_data (process_page initial_extraction (path, html))) field = PStr m.
Proof.
  intros Hfield Hmatch. unfold process_page.
  rewrite look_for_bond_other by (destruct Hfield as [[-> _]|[-> _]]; done).
  cbn [extracted_data].
  rewrite look_for_address_other by (destruct Hfield as [[-> _]|[-> _]]; done).
  destruct Hfield as [[-> ->]|[-> ->]].
  - rewrite look_for_other by done. unfold look_for at 1. rewrite Hmatch.
    cbn. apply get_insert_eq.
  - unfold look_for at 1. rewrite look_for_other by done.
    cbn [initial_extraction extracted_data]. rewrite Hmatch.
    cbn. apply get_insert_eq.
Qed.

End FirstPage.

(** X14: for the e-mail address, the phone number and the pair of city and
    state the first page wins.  Once the pages read so far have given an
    e-mail address or a phone number, or both a city and a state, no
    later page changes it; and the value taken from the first page is
    the first match of the pattern on that page. *)
Theorem contact_first_page_wins `{Env} (earlier later : list (string * string)) :
  let found := extracted_data (deterministic_pass earlier) in
  let final := extracted_data (deterministic_pass (earlier ++ later)) in
  Forall (λ field, truthy (get found field) = true → get final field = get found field)
         ["email"; "phone_number"]
  ∧ (truthy (get found "city") && truthy (get found "state") = true →
     get final "city" = get found "city" ∧ get final "state" = get found "state")
  ∧ (∀ path html m ms,
       Re.findall0 Patterns.email_pattern (soup_text html) = m :: ms → m ≠ "" →
       get (extracted_data (deterministic_pass ((path, html) :: later))) "email"
       = PStr m)
  ∧ (∀ path html m ms,
       Re.findall0 Patterns.phone_pattern (soup_text html) = m :: ms → m ≠ "" →
       get (extracted_data (deterministic_pass ((path, html) :: later))) "phone_number"
       = PStr m).
Proof.
  intros found final. unfold final, found, deterministic_pass.
  rewrite fold_left_app. split_and!.
  - repeat constructor; apply later_pages_keep_contact; auto.
  - apply later_pages_keep_place.
  - intros path html m ms Hmatch Hne. cbn [fold_left].
    pose proof (first_page_contact "email" _ path html m ms
                  (or_introl (conj eq_refl eq_refl)) Hmatch) as Hfirst.
    rewrite later_pages_keep_contact; [done|by left|].
    rewrite Hfirst. cbn. by destruct (String.eqb_spec m "").
  - intros path html m ms Hmatch Hne. cbn [fold_left].
    pose proof (first_page_contact "phone_number" _ path html m ms
                  (or_intror (conj eq_refl eq_refl)) Hmatch) as Hfirst.
    rewrite later_pages_keep_contact; [done|by right|].
    rewrite Hfirst. cbn. by destruct (String.eqb_spec m "").
Qed.

(** ** License verification: what it leaves alone *)

Section LicenseFrame.
Context `{Env}.

Lemma verify_license_update profile rng :
  license_update profile (verify_license profile rng).1
  ∧ (rng < (verify_license profile rng).2 <= rng + 2)%nat.
Proof.
  unfold verify_license, randint, random.
  destruct (bool_decide (profile !! "lic_number" = None)
            || negb (truthy (get profile "lic_number"))) eqn:Hmissing; cbn [fst snd].
  - split; [split|lia].
    + intros k Hn Ha. by rewrite !lookup_insert_ne.
    + intros Hset. apply orb_true_iff in Hmissing as [Hkey|Hfalsy].
      * apply bool_decide_eq_true in Hkey. unfold get in Hset.
        rewrite Hkey in Hset. discriminate Hset.
      * rewrite Hset in Hfalsy. discriminate Hfalsy.
  - split; [split|lia].
    + intros k Hn Ha. by rewrite lookup_insert_ne.
    + intros _. by rewrite lookup_insert_ne.
Qed.

Lemma verify_all_update profiles rng :
  Forall2 license_update profiles (verify_all profiles rng).1
  ∧ (rng + length profiles <= (verify_all profiles rng).2 <= rng + 2 * length profiles)%nat.
Proof.
  revert rng. induction profiles as [|p profiles IH]; intros rng; simpl.
  - split; [constructor|lia].
  - pose proof (verify_license_update p rng) as [Hp Hrng].
    destruct (verify_license p rng) as [p' rng1].
    pose proof (IH rng1) as [Hrest Hrng'].
    destruct (verify_all profiles rng1) as [rest rng2].
    cbn [fst snd] in *. split; [by constructor|lia].
Qed.

Lemma license_update_refl profiles : Forall2 license_update profiles profiles.
Proof. apply Forall2_same_length_lookup_2; [done|]. by intros i p ? -> [= ->]. Qed.

Lemma verify_licenses_update profiles state rng :
  Forall2 license_update profiles (verify_licenses profiles state rng).1.
Proof.
  unfold verify_licenses. destruct (negb _); cbn [fst];
    [apply license_update_refl|apply verify_all_update].
Qed.

End LicenseFrame.

(** X15: license verification touches nothing but the license fields.  In
    every jurisdiction it returns as many profiles as it was given, in
    the same order, each equal to its original outside [lic_number] and
    [lic_active], with a license number that was there and not empty
    kept; outside Texas it changes nothing and draws no random number,
    and in Texas it draws one or two numbers per profile. *)
Theorem verify_licenses_frame `{Env} (profiles : list (gmap string pyval))
    (state : string) (rng : nat) :
  Forall2 license_update profiles (verify_licenses profiles state rng).1
  ∧ (Str.upper state ≠ "TX" → verify_licenses profiles state rng = (profiles, rng))
  ∧ (Str.upper state = "TX" →
     (rng + length profiles <= (verify_licenses profiles state rng).2
      <= rng + 2 * length profiles)%nat).
Proof.
  unfold verify_licenses.
  destruct (String.eqb_spec (Str.upper state) "TX") as [Htx|Hother]; cbn [negb].
  - split_and!; [apply verify_all_update|done|intros _; apply verify_all_update].
  - split_and!; [apply license_update_refl|done|done].
Qed.

(** ** Project history: when it raises *)

Section HistoryErrors.
Context `{Env}.

Lemma count_keywords_returns keywords text :
  Forall (λ keyword, is_Some (re_compile_i keyword)) keywords →
  ∃ n, count_keywords keywords text = Ok n.
Proof.
  induction 1 as [|keyword keywords [r Hr] _ [n IH]]; simpl; [eauto|].
  rewrite Hr, IH. simpl. eauto.
Qed.

Lemma count_keywords_raises keywords text :
  ¬ Forall (λ keyword, is_Some (re_compile_i keyword)) keywords →
  ∃ e, count_keywords keywords text = Raise e ∧ exn_type e = RegexError.
Proof.
  induction keywords as [|keyword keywords IH]; intros Hbad; simpl.
  - destruct Hbad. constructor.
  - destruct (re_compile_i keyword) as [r|] eqn:Hr; [|eauto].
    destruct IH as (e & -> & He); [|simpl; eauto].
    intros Hall. apply Hbad. constructor; [by rewrite Hr|done].
Qed.

Lemma parse_profile_history_outcome keywords profile :
  site_is_text profile →
  (Forall (λ keyword, is_Some (re_compile_i keyword)) keywords ∨ ¬ has_project_page profile →
   ∃ profile', parse_profile_history keywords profile = Ok profile')
  ∧ (¬ Forall (λ keyword, is_Some (re_compile_i keyword)) keywords →
     has_project_page profile →
     ∃ e, parse_profile_history keywords profile = Raise e ∧ exn_type e = RegexError).
Proof.
  intros Hsite. unfold parse_profile_history, has_project_page.
  destruct (truthy (get profile "website")) eqn:Htruthy; cbn [negb].
  2:{ split; [eauto|]. intros _ (website & Hw & Hne & _).
      rewrite Hw in Htruthy. cbn in Htruthy.
      destruct (String.eqb_spec website ""); [done|discriminate Htruthy]. }
  destruct Hsite as [Hfalsy|[website Hw]]; [congruence|]. rewrite Hw.
  unfold count_projects.
  destruct (String.eqb_spec (fetch_project_page website project_paths) "")
    as [Hnone|Hpage].
  - split; [simpl; eauto|].
    intros _ (w & Hw' & _ & Hp). injection Hw' as <-. done.
  - split.
    + intros [Hall|Hno].
      * destruct (count_keywords_returns keywords
                    (soup_text (fetch_project_page website project_paths)) Hall)
          as [n ->]. simpl. eauto.
      * destruct Hno. exists website. split_and!; [done| |done].
        intros ->. rewrite Hw in Htruthy. discriminate Htruthy.
    + intros Hbad _.
      destruct (count_keywords_raises keywords
                  (soup_text (fetch_project_page website project_paths)) Hbad)
        as (e & -> & He). simpl. eauto.
Qed.

Lemma count_keywords_raise_kind keywords text e :
  count_keywords keywords text = Raise e → exn_type e = RegexError.
Proof.
  induction keywords as [|keyword keywords IH]; simpl; [intros Hx; discriminate Hx|].
  destruct (re_compile_i keyword); [|by intros [= <-]].
  destruct (count_keywords keywords text); simpl; [intros Hx; discriminate Hx|].
  intros [= <-]. by apply IH.
Qed.

Lemma parse_profile_history_raise_kind keywords profile e :
  site_is_text profile →
  parse_profile_history keywords profile = Raise e → exn_type e = RegexError.
Proof.
  intros Hsite. unfold parse_profile_history.
  destruct (truthy (get profile "website")) eqn:Htruthy; cbn [negb];
    [|intros Hx; discriminate Hx].
  destruct Hsite as [Hfalsy|[website Hw]]; [congruence|]. rewrite Hw.
  unfold count_projects. destruct (String.eqb _ _); [intros Hx; discriminate Hx|].
  destruct (count_keywords keywords _) as [n|e'] eqn:Hcount; simpl;
    [intros Hx; discriminate Hx|].
  intros [= <-]. by eapply count_keywords_raise_kind.
Qed.

Lemma parse_project_history_returns profiles state keywords :
  Forall site_is_text profiles →
  Forall (λ keyword, is_Some (re_compile_i keyword)) keywords
  ∨ Forall (λ profile, ¬ has_project_page profile) profiles →
  ∃ out, parse_project_history profiles state keywords = Ok out.
Proof.
  intros Hsites Hok. induction Hsites as [|p profiles Hp Hsites IH]; simpl; [eauto|].
  destruct (parse_profile_history_outcome keywords p Hp) as [Hreturns _].
  destruct Hreturns as [p' ->].
  { destruct Hok as [Hall|Hnone]; [by left|right].
    by apply Forall_cons in Hnone as [Hnone _]. }
  destruct IH as [rest ->].
  { destruct Hok as [Hall|Hnone]; [by left|right].
    by apply Forall_cons in Hnone as [_ Hnone]. }
  simpl. eauto.
Qed.

Lemma parse_project_history_state profiles state state' keywords :
  parse_project_history profiles state keywords
  = parse_project_history profiles state' keywords.
Proof. induction profiles as [|p profiles IH]; simpl; [done|]. by rewrite IH. Qed.

End HistoryErrors.

(** X16: when the project-history stage raises.  On profiles whose site is
    a string, the stage returns if every keyword is a valid pattern, or
    if no profile has a project page; it raises the pattern error, and
    returns no profile at all, as soon as some keyword is not a valid
    pattern and some profile has a project page.  The jurisdiction plays
    no part in the result. *)
Theorem parse_project_history_errors `{Env} (profiles : list (gmap string pyval))
    (state : string) (keywords : list string) :
  Forall site_is_text profiles →
  (Forall (λ keyword, is_Some (re_compile_i keyword)) keywords
   ∨ Forall (λ profile, ¬ has_project_page profile) profiles →
   ∃ out, parse_project_history profiles state keywords = Ok out)
  ∧ (¬ Forall (λ keyword, is_Some (re_compile_i keyword)) keywords →
     Exists has_project_page profiles →
     ∃ e, parse_project_history profiles state keywords = Raise e
          ∧ exn_type e = RegexError)
  ∧ (∀ state', parse_project_history profiles state keywords
               = parse_project_history profiles state' keywords).
Proof.
  intros Hsites. split_and!; [| |intros state'; apply parse_project_history_state].
  - by apply parse_project_history_returns.
  - intros Hbad Hsome. induction Hsites as [|p profiles Hp Hsites IH]; simpl.
    { by apply Exists_nil in Hsome. }
    destruct (parse_profile_history keywords p) as [p'|e] eqn:Hrun.
    + destruct IH as (e & -> & He); [|simpl; eauto].
      apply Exists_cons in Hsome as [Hpage|Hrest]; [|done].
      destruct (parse_profile_history_outcome keywords p Hp) as [_ Hraises].
      destruct (Hraises Hbad Hpage) as (e & He & _). congruence.
    + simpl. exists e. split; [done|]. by eapply parse_profile_history_raise_kind.
Qed.

Lemma parse_project_history_errors_witness :
  ∃ e, @parse_project_history strict_world [indebted_profile; acme_candidate] "TX"
         ["hotel"; "+1"] = Raise e
       ∧ exn_type e = RegexError.
Proof.
  assert (Hsites : Forall site_is_text [indebted_profile; acme_candidate]).
  { apply Forall_cons. split; [right; by exists "https://indebted.example"|].
    apply Forall_cons. split; [right; by exists "https://www.acme.com"|].
    apply Forall_nil_2. }
  apply (@parse_project_history_errors strict_world _ "TX" ["hotel"; "+1"] Hsites).
  - intros Hall. apply Forall_cons in Hall as [_ Hall].
    apply Forall_cons in Hall as [[r Hr] _]. vm_compute in Hr. discriminate Hr.
  - apply Exists_cons. right. apply Exists_cons. left.
    exists "https://www.acme.com". split_and!; [by vm_compute|done|by vm_compute].
Defined.

(** ** Ranking: ties, skipped profiles and errors *)

Lemma insert_desc_with_score score x l :
  with_score score (insert_desc x l) = with_score score (x :: l).
Proof.
  unfold with_score. induction l as [|y l IH]; simpl; [done|].
  destruct (Z.ltb_spec (score_of x) (score_of y)) as [Hlt|Hge]; [|done].
  rewrite (filter_cons _ y), IH, !(filter_cons _ x), (filter_cons _ y).
  destruct (decide (score_of x = score)) as [Hx|Hx]; [|done].
  destruct (decide (score_of y = score)) as [Hy|Hy]; [lia|done].
Qed.

Lemma sort_desc_with_score score l :
  with_score score (sort_desc l) = with_score score l.
Proof.
  induction l as [|x l IH]; simpl; [done|].
  rewrite insert_desc_with_score. unfold with_score in *.
  by rewrite !(filter_cons _ x), IH.
Qed.

(** X17: the final sort is stable.  Among the returned profiles, those with
    the same score stand in the order in which the profiles were given. *)
Theorem score_and_rank_stable (profiles : list (gmap string pyval))
    (target_city target_state : string) (min_bond : Z)
    (out : list (gmap string pyval)) :
  score_and_rank profiles target_city target_state min_bond = Ok out →
  ∀ score, with_score score out
           = with_score score (qualifying profiles target_city target_state min_bond).
Proof.
  unfold score_and_rank.
  destruct (rank_loop _ _ _ _ _) as [ranked|e] eqn:Hloop; simpl;
    [|intros Hx; discriminate Hx].
  intros Hx score. injection Hx as <-.
  apply rank_loop_spec in Hloop. simpl in Hloop. subst ranked.
  apply sort_desc_with_score.
Qed.

Lemma score_and_rank_stable_witness :
  ∃ out, score_and_rank [texan_profile "First"; texan_profile "Second"] "Austin" "TX" 0
         = Ok out
         ∧ with_score 40 out
           = with_score 40 (qualifying [texan_profile "First"; texan_profile "Second"]
                                       "Austin" "TX" 0).
Proof.
  exists [<["score" := PInt 40]> (texan_profile "First");
          <["score" := PInt 40]> (texan_profile "Second")].
  assert (Hrun : score_and_rank [texan_profile "First"; texan_profile "Second"]
                   "Austin" "TX" 0
                 = Ok [<["score" := PInt 40]> (texan_profile "First");
                       <["score" := PInt 40]> (texan_profile "Second")])
    by reflexivity.
  split; [exact Hrun|].
  exact (score_and_rank_stable _ "Austin" "TX" 0 _ Hrun 40).
Defined.

Lemma rank_loop_skips profiles c s m acc :
  Forall (λ profile, ¬ is_scored profile) profiles →
  rank_loop profiles c s m acc = Ok acc.
Proof.
  induction 1 as [|p profiles Hp _ IH]; simpl; [done|].
  unfold is_scored in Hp.
  destruct (truthy (get p "name")), (truthy (get p "website")); simpl;
    try exact IH.
  by destruct Hp.
Qed.

Lemma rank_loop_propagates profiles c s m acc p e :
  p ∈ profiles → is_scored p → score_profile p c s m = Raise e →
  ∃ e', rank_loop profiles c s m acc = Raise e'.
Proof.
  intros Hin [Hname Hsite] Hraise. revert acc.
  induction profiles as [|q profiles IH]; intros acc; [by apply elem_of_nil in Hin|].
  simpl. apply elem_of_cons in Hin as [<-|Hin].
  - rewrite Hname, Hsite, Hraise. simpl. eauto.
  - destruct (negb _ || negb _); [by apply IH|].
    destruct (score_profile q c s m) as [x|e'']; simpl; [by apply IH|eauto].
Qed.

(** X18: profiles the ranking skips, and values it cannot score.  A profile
    without a name or without a site is left out before any arithmetic,
    whatever its other entries; a profile with both whose bond amount or
    project count is not a number makes the whole call raise, so that no
    ranking is returned at all. *)
Theorem score_and_rank_unscorable (profiles : list (gmap string pyval))
    (target_city target_state : string) (min_bond : Z) :
  (Forall (λ profile, ¬ is_scored profile) profiles →
   score_and_rank profiles target_city target_state min_bond = Ok [])
  ∧ (∀ profile, profile ∈ profiles → is_scored profile →
       (get profile "bond_amount" ≠ PNone ∧ as_int (get profile "bond_amount") = None)
       ∨ as_int (get_or profile "tx_projects_past_5yrs" (PInt 0)) = None →
       ∃ e, score_and_rank profiles target_city target_state min_bond = Raise e)
  ∧ (∀ profile, is_scored profile →
       get profile "bond_amount" ≠ PNone → as_int (get profile "bond_amount") = None →
       ∃ e, score_and_rank [profile] target_city target_state min_bond = Raise e
            ∧ exn_type e = TypeError).
Proof.
  split_and!.
  - intros Hskip. unfold score_and_rank. by rewrite rank_loop_skips.
  - intros p Hin Hscored Hbad.
    assert (Hraise : ∃ e, score_profile p target_city target_state min_bond = Raise e).
    { unfold score_profile. destruct Hbad as [[Hsome Hnum]|Hnum].
      - unfold bonding_factor.
        destruct (get p "bond_amount") as [|b|z|str];
          [done|discriminate Hnum|discriminate Hnum|simpl; eauto].
      - destruct (bonding_factor p min_bond); simpl; [|eauto].
        unfold project_factor. rewrite Hnum. simpl. eauto. }
    destruct Hraise as [e He].
    destruct (rank_loop_propagates profiles target_city target_state min_bond []
                p e Hin Hscored He) as [e' He'].
    exists e'. unfold score_and_rank. by rewrite He'.
  - intros p [Hname Hsite] Hsome Hnum. unfold score_and_rank. simpl.
    rewrite Hname, Hsite. simpl. unfold score_profile, bonding_factor.
    destruct (get p "bond_amount") as [|b|z|str];
      [done|discriminate Hnum|discriminate Hnum|simpl; eauto].
Qed.

Example misread_profile_fails :
  match score_and_rank [example_profile; misread_profile] "Austin" "TX" 5000000 with
  | Raise e => exn_type e = TypeError
  | Ok _ => False
  end.
Proof. vm_compute. reflexivity. Qed.

(** ** Ranking a ranking *)

Lemma sort_desc_sorted_id l : StronglySorted score_ge l → sort_desc l = l.
Proof.
  induction 1 as [|x l Hsorted IH Hall]; [done|].
  cbn [sort_desc foldr]. fold (sort_desc l). rewrite IH.
  destruct l as [|y l]; [done|]. cbn [insert_desc].
  apply Forall_cons in Hall as [Hxy _]. unfold score_ge in Hxy.
  destruct (Z.ltb_spec (score_of x) (score_of y)); [lia|done].
Qed.

Lemma score_profile_ignores_score profile c s m x :
  score_profile (<["score" := PInt x]> profile) c s m = score_profile profile c s m.
Proof.
  unfold score_profile, geographic_factor, license_factor, bonding_factor,
    project_factor, get_or.
  by rewrite !get_insert_ne, lookup_insert_ne.
Qed.

Lemma qualifying_elem_score profiles c s m scored :
  scored ∈ qualifying profiles c s m →
  ∃ profile x, is_scored profile ∧ score_profile profile c s m = Ok x
               ∧ (40 <=? x) = true ∧ scored = <["score" := PInt x]> profile.
Proof.
  unfold qualifying. intros (profile & Hin & Hsome)%list_elem_of_omap.
  destruct (truthy (get profile "name")) eqn:Hname; [|discriminate Hsome].
  destruct (truthy (get profile "website")) eqn:Hsite; [|discriminate Hsome].
  cbn [andb] in Hsome.
  destruct (score_profile profile c s m) as [x|e] eqn:Hscore; [|discriminate Hsome].
  destruct (40 <=? x) eqn:Hx; [|discriminate Hsome].
  injection Hsome as <-. exists profile, x. by split_and!.
Qed.

Lemma rank_loop_ranked ranked c s m acc :
  Forall (λ scored, ∃ profile x, is_scored profile
                                 ∧ score_profile profile c s m = Ok x
                                 ∧ (40 <=? x) = true
                                 ∧ scored = <["score" := PInt x]> profile) ranked →
  rank_loop ranked c s m acc = Ok (acc ++ ranked).
Proof.
  intros Hall. revert acc.
  induction Hall as [|scored ranked (p & x & [Hname Hsite] & Hscore & Hx & ->) _ IH];
    intros acc; [by rewrite app_nil_r|].
  cbn [rank_loop]. rewrite !get_insert_ne, Hname, Hsite by done. cbn [negb orb].
  rewrite score_profile_ignores_score, Hscore. cbn [mbind result_bind].
  rewrite Hx, insert_insert_eq, IH. by rewrite <- app_assoc.
Qed.

(** X19: ranking a ranking changes nothing.  Given back to [score_and_rank]
    with the same target and minimum, a returned list is returned as it
    is: the same profiles, the same scores, the same order. *)
Theorem score_and_rank_idempotent (profiles : list (gmap string pyval))
    (target_city target_state : string) (min_bond : Z)
    (out : list (gmap string pyval)) :
  score_and_rank profiles target_city target_state min_bond = Ok out →
  score_and_rank out target_city target_state min_bond = Ok out.
Proof.
  unfold score_and_rank at 1.
  destruct (rank_loop profiles _ _ _ _) as [ranked|e] eqn:Hloop;
    cbn [mbind result_bind]; [|intros Hx; discriminate Hx].
  intros Hx. injection Hx as <-.
  apply rank_loop_spec in Hloop. cbn [app] in Hloop. subst ranked.
  unfold score_and_rank. rewrite rank_loop_ranked.
  - cbn [app mbind result_bind]. f_equal. apply sort_desc_sorted_id, sort_desc_sorted.
  - rewrite <- sort_desc_perm. apply Forall_forall. intros scored.
    apply qualifying_elem_score.
Qed.

Lemma score_and_rank_idempotent_witness :
  score_and_rank [<["score" := PInt 40]> (texan_profile "First");
                  <["score" := PInt 40]> (texan_profile "Second")] "Austin" "TX" 0
  = Ok [<["score" := PInt 40]> (texan_profile "First");
        <["score" := PInt 40]> (texan_profile "Second")].
Proof.
  apply (score_and_rank_idempotent [texan_profile "First"; texan_profile "Second"]).
  reflexivity.
Defined.

(** ** Scoring: more bond or more projects never cost points *)

Lemma project_factor_mono p p' t t' f f' :
  t <= t' →
  project_factor (<["tx_projects_past_5yrs" := PInt t]> p) = Ok f →
  project_factor (<["tx_projects_past_5yrs" := PInt t']> p') = Ok f' →
  f <= f'.
Proof.
  intros Hle. unfold project_factor, get_or. rewrite !lookup_insert_eq. cbn [default as_int].
  intros Hf Hf'. injection Hf as <-. injection Hf' as <-.
  destruct (Z.leb_spec 5 t), (Z.leb_spec 5 t'); lia.
Qed.

(** X20: with a positive minimum, a profile that differs from another only
    by a larger bond amount and a larger project count never scores
    less. *)
Theorem score_profile_monotone (profile : gmap string pyval)
    (target_city target_state : string) (min_bond b b' t t' x x' : Z) :
  0 < min_bond → b <= b' → t <= t' →
  score_profile (<["tx_projects_past_5yrs" := PInt t]>
                   (<["bond_amount" := PInt b]> profile))
                target_city target_state min_bond = Ok x →
  score_profile (<["tx_projects_past_5yrs" := PInt t']>
                   (<["bond_amount" := PInt b']> profile))
                target_city target_state min_bond = Ok x' →
  x <= x'.
Proof.
  intros Hm Hb Ht Hx Hx'.
  apply score_profile_inv in Hx as (bond & projects & Hbond & Hprojects & ->).
  apply score_profile_inv in Hx' as (bond' & projects' & Hbond' & Hprojects' & ->).
  pose proof (project_factor_mono _ _ t t' projects projects' Ht Hprojects Hprojects').
  assert (bond <= bond').
  { unfold bonding_factor in Hbond, Hbond'.
    rewrite get_insert_ne, get_insert_eq in Hbond, Hbond' by done.
    cbn [as_int] in Hbond, Hbond'. by eapply (bond_points_mono b b' min_bond). }
  assert (Hgeo : ∀ v w, geographic_factor
                          (<["tx_projects_past_5yrs" := v]> (<["bond_amount" := w]> profile))
                          target_city target_state
                        = geographic_factor profile target_city target_state).
  { intros v w. unfold geographic_factor. by rewrite !get_insert_ne. }
  assert (Hlic : ∀ v w, license_factor
                          (<["tx_projects_past_5yrs" := v]> (<["bond_amount" := w]> profile))
                        = license_factor profile).
  { intros v w. unfold license_factor. by rewrite !get_insert_ne. }
  rewrite !Hgeo, !Hlic. lia.
Qed.

Lemma score_profile_monotone_witness :
  score_profile (<["tx_projects_past_5yrs" := PInt 1]>
                   (<["bond_amount" := PInt 2500000]> (texan_profile "Texan")))
                "Austin" "TX" 5000000 = Ok 57
  ∧ score_profile (<["tx_projects_past_5yrs" := PInt 3]>
                     (<["bond_amount" := PInt 5000000]> (texan_profile "Texan")))
                  "Austin" "TX" 5000000 = Ok 80
  ∧ 57 <= 80.
Proof.
  assert (Hx : score_profile (<["tx_projects_past_5yrs" := PInt 1]>
                                (<["bond_amount" := PInt 2500000]> (texan_profile "Texan")))
                 "Austin" "TX" 5000000 = Ok 57) by (vm_compute; reflexivity).
  assert (Hx' : score_profile (<["tx_projects_past_5yrs" := PInt 3]>
                                 (<["bond_amount" := PInt 5000000]> (texan_profile "Texan")))
                  "Austin" "TX" 5000000 = Ok 80) by (vm_compute; reflexivity).
  split_and!; [exact Hx|exact Hx'|].
  apply (score_profile_monotone (texan_profile "Texan") "Austin" "TX" 5000000
           2500000 5000000 1 3 57 80); [lia|lia|lia|exact Hx|exact Hx'].
Defined.

(** ** Project history: what the keywords can do to the count *)

(** X21: the count for a fetched page.  It is 0 exactly when the page
    mentions no Texas place or no recent year: keyword mentions alone
    never make a project.  With keyword mentions the count is the smaller
    tally plus half the keyword mentions, cut at 10: it can then be lower
    than the smaller tally, but never lower than the smaller of that
    tally and 10. *)
Theorem count_projects_bounds `{Env} (project_html : string) (keywords : list string) :
  match count_projects project_html keywords with
  | Ok count =>
      let text := soup_text project_html in
      let tallied := Nat.min (tx_mentions text) (year_mentions text) in
      (project_html = "" → count = 0%nat)
      ∧ (project_html ≠ "" →
         (count = 0%nat ↔ tx_mentions text = 0%nat ∨ year_mentions text = 0%nat)
         ∧ (Nat.min tallied 10 <= count <= Nat.max tallied 10)%nat
         ∧ (keywords = [] → count = tallied))
  | Raise e => project_html ≠ "" ∧ exn_type e = RegexError
  end.
Proof.
  unfold count_projects.
  destruct (String.eqb_spec project_html "") as [->|Hpage]; [done|].
  destruct (count_keywords keywords (soup_text project_html)) as [mentions|e] eqn:Hcount;
    cbn [mbind result_bind].
  - cbn zeta. split; [done|]. intros _. unfold estimate_project_count.
    set (tx := tx_mentions (soup_text project_html)).
    set (yr := year_mentions (soup_text project_html)).
    split; [|split].
    + destruct (Nat.ltb_spec 0 mentions), (Nat.ltb_spec 0 (Nat.min tx yr)); simpl; lia.
    + destruct (Nat.ltb_spec 0 mentions), (Nat.ltb_spec 0 (Nat.min tx yr)); simpl; lia.
    + intros ->. simpl in Hcount. injection Hcount as <-. done.
  - split; [done|]. clear Hpage. revert e Hcount.
    induction keywords as [|keyword keywords IH]; simpl; [intros e Hx; discriminate Hx|].
    destruct (re_compile_i keyword); [|by intros e [= <-]].
    destruct (count_keywords keywords _); simpl; [intros e Hx; discriminate Hx|].
    intros e' [= <-]. by apply IH.
Qed.

(** ** The pipeline as a whole *)

Lemma Forall2_elem_of_r {A B} (P : A → B → Prop) l k y :
  Forall2 P l k → y ∈ k → ∃ x, x ∈ l ∧ P x y.
Proof.
  induction 1 as [|x y' l k Hxy _ IH]; [intros Hin; by apply elem_of_nil in Hin|].
  intros [->|Hin]%elem_of_cons.
  - exists x. split; [left|done].
  - destruct (IH Hin) as (x' & Hx' & HP). exists x'. split; [by right|done].
Qed.

Lemma with_scheme_scheme website :
  Str.startswith (with_scheme website) "http://"
  || Str.startswith (with_scheme website) "https://" = true.
Proof.
  unfold with_scheme.
  destruct (Str.startswith website "http://" || Str.startswith website "https://")
    eqn:Hscheme; [done|]. by destruct website.
Qed.

Section Pipeline.
Context `{Env}.

Lemma extract_profiles_scheme candidates :
  Forall has_scheme (extract_profiles candidates).
Proof.
  apply Forall_forall. intros profile Hin.
  rewrite extract_profiles_as_batch in Hin.
  apply extract_batch_elem in Hin as (candidate & _ & Hrun).
  apply _extract_single_profile_retained in Hrun as (website & url & _ & Hsite & _).
  exists (with_scheme website). split; [done|apply with_scheme_scheme].
Qed.

Lemma extract_profiles_length candidates :
  (length (extract_profiles candidates) <= length candidates)%nat.
Proof. rewrite extract_profiles_as_batch. apply omap_length_le. Qed.

Lemma parse_project_history_frame profiles state keywords out :
  parse_project_history profiles state keywords = Ok out →
  Forall2 (λ profile profile',
             ∀ k, k ≠ "tx_projects_past_5yrs" → profile' !! k = profile !! k)
          profiles out.
Proof.
  revert out. induction profiles as [|p profiles IH]; intros out; simpl.
  - intros Hx. injection Hx as <-. constructor.
  - destruct (parse_profile_history keywords p) as [p'|e] eqn:Hp; simpl;
      [|intros Hx; discriminate Hx].
    destruct (parse_project_history profiles state keywords) as [rest|e]; simpl;
      [|intros Hx; discriminate Hx].
    intros Hx. injection Hx as <-. constructor; [|by apply IH].
    apply parse_profile_history_recorded in Hp as [[_ ->]|(w & n & _ & -> & _)];
      [done|].
    intros k Hk. by rewrite lookup_insert_ne.
Qed.

Lemma qualifying_elem profiles c s m scored :
  scored ∈ qualifying profiles c s m →
  ∃ profile x, profile ∈ profiles ∧ is_scored profile
               ∧ scored = <["score" := PInt x]> profile.
Proof.
  unfold qualifying. intros (profile & Hin & Hsome)%list_elem_of_omap.
  destruct (truthy (get profile "name")) eqn:Hname; [|discriminate Hsome].
  destruct (truthy (get profile "website")) eqn:Hsite; [|discriminate Hsome].
  cbn [andb] in Hsome.
  destruct (score_profile profile c s m) as [x|e]; [|discriminate Hsome].
  destruct (40 <=? x); [|discriminate Hsome].
  injection Hsome as <-. exists profile, x. by split_and!.
Qed.

End Pipeline.

Lemma run_research_ranked `{Env} (trade city state : string) (min_bond : Z)
    (keywords : list string) (rng : nat) (out : list (gmap string pyval)) :
  (run_research trade city state min_bond keywords rng).1 = Ok out →
  (length out <= 15)%nat
  ∧ StronglySorted score_ge out
  ∧ Forall (λ profile, is_scored profile ∧ has_scheme profile) out
  ∧ (0 <= min_bond → Forall (score_within 40 100) out).
Proof.
  unfold run_research.
  pose proof (discover_candidates_length trade city state keywords rng) as Hfound.
  destruct (discover_candidates trade city state keywords rng) as [candidates rng1].
  cbn [fst] in Hfound.
  pose proof (extract_profiles_length candidates) as Hextracted.
  pose proof (extract_profiles_scheme candidates) as Hscheme.
  pose proof (verify_licenses_update (extract_profiles candidates) state rng1)
    as Hverified.
  destruct (verify_licenses (extract_profiles candidates) state rng1)
    as [verified rng2]. cbn [fst] in *.
  destruct (parse_project_history verified state keywords) as [parsed|e] eqn:Hparsed;
    cbn [mbind result_bind]; [|intros Hx; discriminate Hx].
  apply parse_project_history_frame in Hparsed.
  unfold score_and_rank.
  destruct (rank_loop parsed city state min_bond []) as [ranked|e] eqn:Hloop;
    cbn [mbind result_bind]; [|intros Hx; discriminate Hx].
  intros Hx. injection Hx as <-.
  apply rank_loop_spec in Hloop. cbn [app] in Hloop. subst ranked.
  pose proof (sort_desc_perm (qualifying parsed city state min_bond)) as Hperm.
  split_and!.
  - rewrite <- Hperm. etrans; [apply omap_length_le|].
    rewrite <- (Forall2_length _ _ _ Hparsed), <- (Forall2_length _ _ _ Hverified). lia.
  - apply sort_desc_sorted.
  - rewrite <- Hperm. apply Forall_forall. intros scored Hin.
    apply qualifying_elem in Hin as (p & x & Hp & [Hname Hsite] & ->).
    split.
    + split; by rewrite get_insert_ne.
    + destruct (Forall2_elem_of_r _ _ _ _ Hparsed Hp) as (v & Hv & Hframe).
      destruct (Forall2_elem_of_r _ _ _ _ Hverified Hv) as (q & Hq & [Hkeep _]).
      rewrite Forall_forall in Hscheme. destruct (Hscheme q Hq) as (w & Hw & Hstart).
      exists w. split; [|done].
      rewrite lookup_insert_ne, Hframe, Hkeep by done. exact Hw.
  - intros Hmin. rewrite <- Hperm. by apply qualifying_scores.
Qed.

(** X22: what a run of the whole pipeline returns.  With a minimum that is
    not negative, a run that returns gives at most fifteen results, each
    with a name, a site address with its scheme and a score between 40
    and 100, in descending order of score. *)
Theorem run_research_results `{Env} (trade city state : string) (min_bond : Z)
    (keywords : list string) (rng : nat) (out : list (gmap string pyval)) :
  0 <= min_bond →
  (run_research trade city state min_bond keywords rng).1 = Ok out →
  (length out <= 15)%nat
  ∧ Forall (score_within 40 100) out
  ∧ StronglySorted score_ge out
  ∧ Forall (λ profile, is_scored profile ∧ has_scheme profile) out.
Proof.
  intros Hmin Hrun.
  destruct (run_research_ranked _ _ _ _ _ _ _ Hrun) as (Hlen & Hsorted & Hsites & Hscores).
  split_and!; [done|by apply Hscores|done|done].
Qed.

(** In the example world the run returns one result. *)
Example austin_run_returns_one_result :
  match (@run_research austin_world "mechanical" "Austin" "TX" 5000000 ["hotel"] 0).1 with
  | Ok out => (λ profile, (get profile "name", get profile "score")) <$> out
              = [(PStr "Simulated Company 1", PInt 85)]
  | Raise _ => False
  end.
Proof. vm_compute. reflexivity. Qed.

Lemma run_research_results_witness :
  match (@run_research austin_world "mechanical" "Austin" "TX" 5000000 ["hotel"] 0).1 with
  | Ok out =>
      (λ profile, (get profile "name", get profile "score")) <$> out
      = [(PStr "Simulated Company 1", PInt 85)]
      ∧ (length out <= 15)%nat
      ∧ Forall (score_within 40 100) out
      ∧ StronglySorted score_ge out
      ∧ Forall (λ profile, is_scored profile ∧ has_scheme profile) out
  | Raise _ => False
  end.
Proof.
  pose proof austin_run_returns_one_result as Hone.
  destruct (@run_research austin_world "mechanical" "Austin" "TX" 5000000 ["hotel"] 0).1
    as [out|e] eqn:Hrun; [|done].
  split; [done|].
  apply (@run_research_results austin_world "mechanical" "Austin" "TX" 5000000
           ["hotel"] 0%nat out); [lia|exact Hrun].
Defined.

(** ** The job manager: a job from creation to its answer *)

Lemma process_research_job_present jobs_store job_id j outcome now :
  jobs_store !! job_id = Some j →
  process_research_job jobs_store job_id outcome now
  = Ok (<[job_id :=
            match outcome with
            | Ok ranked =>
                set_completed_at now
                  (set_results ranked (set_status "SUCCEEDED" (set_status "PROCESSING" j)))
            | Raise e =>
                set_error (exn_msg e) (set_status "FAILED" (set_status "PROCESSING" j))
            end]> jobs_store).
Proof.
  intros Hj. unfold process_research_job.
  rewrite (update_job_present _ _ _ j Hj).
  destruct outcome as [ranked|e]; cbn [mbind result_bind].
  - erewrite !update_job_present by apply lookup_insert_eq.
    cbn [mbind result_bind].
    erewrite !update_job_present by apply lookup_insert_eq.
    cbn [mbind result_bind].
    erewrite !update_job_present by apply lookup_insert_eq.
    by rewrite !insert_insert_eq.
  - erewrite !update_job_present by apply lookup_insert_eq.
    cbn [mbind result_bind].
    erewrite !update_job_present by apply lookup_insert_eq.
    by rewrite !insert_insert_eq.
Qed.

Lemma process_research_job_absent jobs_store job_id outcome now :
  jobs_store !! job_id = None →
  process_research_job jobs_store job_id outcome now
  = Raise (Exn KeyError ("'" +:+ job_id +:+ "'")).
Proof.
  intros Hj. unfold process_research_job, update_job. by rewrite Hj.
Qed.

(** X23: a job from creation to the end of its processing.  Processing a
    job that was created never raises; it leaves the job in one of the
    two final states, with the request and the time of creation as they
    were, all other jobs untouched, and a job that had the same
    identifier replaced.  Processing a job that is not in the store
    raises [KeyError] out of the handler, and the task returns no
    store. *)
Theorem job_lifecycle (jobs_store : gmap string job) (job_id : string)
    (req : job_request) (created now : string)
    (outcome : result (list (gmap string pyval))) :
  process_research_job (create_research_job jobs_store job_id req created)
                       job_id outcome now
  = Ok (<[job_id := finished_job req created outcome now]> jobs_store)
  ∧ (status (finished_job req created outcome now) = "SUCCEEDED"
     ∨ status (finished_job req created outcome now) = "FAILED")
  ∧ (∀ other, jobs_store !! other = None →
       process_research_job jobs_store other outcome now
       = Raise (Exn KeyError ("'" +:+ other +:+ "'"))).
Proof.
  split_and!.
  - unfold create_research_job.
    erewrite process_research_job_present by apply lookup_insert_eq.
    rewrite insert_insert_eq. by destruct outcome.
  - destruct outcome; [by left|by right].
  - intros other. apply process_research_job_absent.
Qed.

(** X24: what the status endpoint answers.  An unknown identifier gives the
    404 answer; a job that was created and not yet processed is reported
    as queued; after processing, the answer is the ranked list under
    SUCCEEDED, or under FAILED the message of the error after the words
    "Job processing failed: " (never "Unknown error"); results are sent
    under no other status. *)
Theorem get_research_results_answers (jobs_store : gmap string job)
    (job_id : string) (req : job_request) (created now : string)
    (outcome : result (list (gmap string pyval))) :
  (jobs_store !! job_id = None →
   get_research_results jobs_store job_id = NotFound "Job not found")
  ∧ get_research_results (create_research_job jobs_store job_id req created) job_id
    = StatusMessage "QUEUED" "Job is queued for processing"
  ∧ match process_research_job (create_research_job jobs_store job_id req created)
            job_id outcome now with
    | Ok jobs_store' =>
        get_research_results jobs_store' job_id
        = match outcome with
          | Ok ranked => StatusResults "SUCCEEDED" (Some ranked)
          | Raise e => StatusMessage "FAILED" ("Job processing failed: " +:+ exn_msg e)
          end
    | Raise _ => False
    end
  ∧ (∀ store id st sent,
       get_research_results store id = StatusResults st sent →
       st = "SUCCEEDED"
       ∧ ∃ j, store !! id = Some j ∧ status j = "SUCCEEDED" ∧ results j = sent).
Proof.
  split_and!.
  - intros Hj. unfold get_research_results. by rewrite Hj.
  - unfold get_research_results, create_research_job. by rewrite lookup_insert_eq.
  - unfold create_research_job.
    erewrite process_research_job_present by apply lookup_insert_eq.
    unfold get_research_results. rewrite lookup_insert_eq. by destruct outcome.
  - intros store id st sent. unfold get_research_results.
    destruct (store !! id) as [j|]; [|intros Hx; discriminate Hx].
    destruct (String.eqb (status j) "QUEUED"); [intros Hx; discriminate Hx|].
    destruct (String.eqb (status j) "PROCESSING"); [intros Hx; discriminate Hx|].
    destruct (String.eqb (status j) "FAILED"); [intros Hx; discriminate Hx|].
    destruct (String.eqb_spec (status j) "SUCCEEDED") as [Hs|_];
      [|intros Hx; discriminate Hx].
    intros Hx. injection Hx as <- <-. split; [done|]. by exists j.
Qed.

(** ** The pipeline as a whole: when it cannot fail *)

Section Returns.
Context `{Env}.

Lemma look_for_bond_plain patterns page_path text st :
  plain_amount (get (extracted_data st) "bond_amount") →
  plain_amount (get (extracted_data (look_for_bond patterns page_path text st))
                    "bond_amount").
Proof.
  intros Hst. induction patterns as [|pattern patterns IH]; simpl; [exact Hst|].
  destruct (Re.findall1 pattern text) as [|bond_str ms]; [exact IH|].
  destruct (bond_value_of text bond_str) as [n|e] eqn:Hvalue; [|exact IH].
  rewrite update_evidence_data. cbn [extracted_data]. rewrite get_insert_eq.
  right. exists n. split; [done|]. by eapply bond_value_of_nonneg.
Qed.

Lemma deterministic_pass_plain page_contents :
  plain_amount (get (extracted_data (deterministic_pass page_contents)) "bond_amount").
Proof.
  unfold deterministic_pass.
  assert (Hinit : plain_amount (get (extracted_data initial_extraction) "bond_amount"))
    by (by left).
  revert Hinit. generalize initial_extraction.
  induction page_contents as [|[page_path html] pages IH]; intros st Hst; [exact Hst|].
  cbn [fold_left]. apply IH. unfold process_page. apply look_for_bond_plain.
  cbn [extracted_data]. by rewrite look_for_address_other, !look_for_other.
Qed.

Lemma _extract_data_from_pages_plain page_contents website :
  llm_amounts_plain →
  plain_amount (get (_extract_data_from_pages page_contents website) "bond_amount").
Proof.
  intros Hllm. rewrite _extract_data_from_pages_get by done.
  pose proof (deterministic_pass_plain page_contents) as Hfound.
  destruct (complete _); [exact Hfound|]. rewrite llm_fill_get.
  destruct (_ && _); [|exact Hfound].
  destruct (_extract_with_llm (combined_text page_contents) website !! "bond_amount")
    as [v|] eqn:Hv; [|exact Hfound].
  cbn [default]. by eapply Hllm.
Qed.

Lemma _extract_single_profile_plain candidate profile :
  llm_amounts_plain →
  _extract_single_profile candidate = Ok (Some profile) →
  plain_amount (get profile "bond_amount").
Proof.
  intros Hllm. unfold _extract_single_profile.
  destruct (negb (truthy (get candidate "website"))); [intros Hx; discriminate Hx|].
  destruct (get candidate "website") as [| | |website];
    try (intros Hx; discriminate Hx).
  fold (with_scheme website).
  destruct (fetch_pages (with_scheme website)) as [|page pages] eqn:Hpages;
    [intros Hx; discriminate Hx|].
  rewrite <- Hpages.
  pose proof (_extract_data_from_pages_plain (fetch_pages (with_scheme website))
                (with_scheme website) Hllm) as Hplain.
  pose proof (_extract_data_from_pages_dom (fetch_pages (with_scheme website))
                (with_scheme website)) as Hdom.
  destruct (_ <=? _)%nat; [|intros Hx; discriminate Hx].
  intros Hx. injection Hx as <-.
  assert (Hbond : is_Some (_extract_data_from_pages (fetch_pages (with_scheme website))
                             (with_scheme website) !! "bond_amount")).
  { apply elem_of_dom. rewrite Hdom. apply elem_of_list_to_set. in_keys. }
  destruct Hbond as [v Hv]. unfold get in *. rewrite lookup_insert_ne by done.
  unfold update. rewrite (lookup_union_Some_l _ _ _ _ Hv). by rewrite Hv in Hplain.
Qed.

Lemma has_scheme_truthy profile :
  has_scheme profile →
  ∃ website, get profile "website" = PStr website ∧ website ≠ "".
Proof.
  intros (w & Hw & Hstart). exists w. unfold get. rewrite Hw. split; [done|].
  intros ->. discriminate Hstart.
Qed.

Lemma parse_profile_history_scorable keywords profile profile' :
  has_scheme profile → plain_amount (get profile "bond_amount") →
  parse_profile_history keywords profile = Ok profile' → scorable profile'.
Proof.
  intros (w & Hw & Hne)%has_scheme_truthy Hplain Hrun.
  apply parse_profile_history_recorded in Hrun
    as [[Hfalsy _]|(w' & n & _ & -> & _)].
  - rewrite Hw in Hfalsy. cbn in Hfalsy.
    destruct (String.eqb_spec w ""); [done|discriminate Hfalsy].
  - split.
    + by rewrite get_insert_ne.
    + exists (Z.of_nat n). unfold get_or. by rewrite lookup_insert_eq.
Qed.

Lemma parse_project_history_scorable profiles state keywords out :
  Forall (λ profile, has_scheme profile ∧ plain_amount (get profile "bond_amount"))
         profiles →
  parse_project_history profiles state keywords = Ok out → Forall scorable out.
Proof.
  intros Hall. revert out.
  induction Hall as [|p profiles [Hscheme Hplain] _ IH]; intros out; simpl.
  - intros Hx. injection Hx as <-. constructor.
  - destruct (parse_profile_history keywords p) as [p'|e] eqn:Hp; simpl;
      [|intros Hx; discriminate Hx].
    destruct (parse_project_history profiles state keywords) as [rest|e]; simpl;
      [|intros Hx; discriminate Hx].
    intros Hx. injection Hx as <-. constructor; [|by apply IH].
    by eapply parse_profile_history_scorable.
Qed.

End Returns.

(** X25: when the pipeline cannot fail.  If the minimum is not negative,
    every keyword is a valid pattern, and any [bond_amount] the LLM puts
    in its object is a number that is not negative (in particular when the
    LLM is out of reach), the run returns a ranking: no stage raises. *)
Theorem run_research_returns `{Env} (trade city state : string) (min_bond : Z)
    (keywords : list string) (rng : nat) :
  0 <= min_bond →
  Forall (λ keyword, is_Some (re_compile_i keyword)) keywords →
  llm_amounts_plain →
  ∃ out, (run_research trade city state min_bond keywords rng).1 = Ok out.
Proof.
  intros Hmin Hkeywords Hllm. unfold run_research.
  destruct (discover_candidates trade city state keywords rng) as [candidates rng1].
  assert (Hextracted : Forall (λ profile, has_scheme profile
                                          ∧ plain_amount (get profile "bond_amount"))
                              (extract_profiles candidates)).
  { apply Forall_forall. intros profile Hin. split.
    - pose proof (extract_profiles_scheme candidates) as Hscheme.
      rewrite Forall_forall in Hscheme. by apply Hscheme.
    - rewrite extract_profiles_as_batch in Hin.
      apply extract_batch_elem in Hin as (candidate & _ & Hrun).
      by eapply _extract_single_profile_plain. }
  pose proof (verify_licenses_update (extract_profiles candidates) state rng1)
    as Hverified.
  destruct (verify_licenses (extract_profiles candidates) state rng1)
    as [verified rng2]. cbn [fst] in *.
  assert (Hkept : Forall (λ profile, has_scheme profile
                                     ∧ plain_amount (get profile "bond_amount"))
                         verified).
  { apply Forall_forall. intros v Hv.
    destruct (Forall2_elem_of_r _ _ _ _ Hverified Hv) as (q & Hq & [Hkeep _]).
    rewrite Forall_forall in Hextracted. destruct (Hextracted q Hq) as [Hs Hp].
    split.
    - destruct Hs as (w & Hw & Hstart). exists w. by rewrite Hkeep.
    - unfold get in *. by rewrite Hkeep. }
  destruct (parse_project_history_returns verified state keywords) as [parsed Hparsed].
  { eapply Forall_impl; [exact Hkept|]. intros p [Hs _].
    apply has_scheme_truthy in Hs as (w & Hw & _). right. eauto. }
  { by left. }
  rewrite Hparsed. cbn [mbind result_bind].
  apply score_and_rank_returns; [done|].
  by eapply parse_project_history_scorable.
Qed.

Lemma run_research_returns_witness :
  ∃ out, (@run_research austin_world "mechanical" "Austin" "TX" 5000000 ["hotel"] 0).1
         = Ok out.
Proof.
  apply (@run_research_returns austin_world).
  - lia.
  - apply Forall_cons. split; [by eexists|apply Forall_nil_2].
  - intros text website v Hv. discriminate Hv.
Defined.

(** X26: what a client reads after the background task.  For a job that
    was created, the task never raises, and the status endpoint then
    answers either SUCCEEDED with the list the pipeline returned, which
    has at most fifteen entries in descending order of score, or FAILED
    with the message of the error the pipeline raised. *)
Theorem run_job_answer `{Env} (jobs_store : gmap string job) (job_id : string)
    (req : job_request) (created : string) (rng : nat) :
  match (run_job (create_research_job jobs_store job_id req created) job_id req rng).1
  with
  | Ok jobs_store' =>
      match get_research_results jobs_store' job_id with
      | StatusResults st (Some out) =>
          st = "SUCCEEDED"
          ∧ (run_research (trade req) (city req) (state req) (min_bond req)
                          (keywords req) rng).1 = Ok out
          ∧ (length out <= 15)%nat
          ∧ StronglySorted score_ge out
      | StatusMessage st message =>
          st = "FAILED"
          ∧ ∃ e, (run_research (trade req) (city req) (state req) (min_bond req)
                               (keywords req) rng).1 = Raise e
                 ∧ message = "Job processing failed: " +:+ exn_msg e
      | _ => False
      end
  | Raise _ => False
  end.
Proof.
  unfold run_job.
  pose proof (run_research_ranked (trade req) (city req) (state req) (min_bond req)
                (keywords req) rng) as Hranked.
  destruct (run_research (trade req) (city req) (state req) (min_bond req)
              (keywords req) rng) as [outcome rng']. cbn [fst] in *.
  unfold create_research_job.
  erewrite process_research_job_present by apply lookup_insert_eq.
  unfold get_research_results. rewrite lookup_insert_eq.
  destruct outcome as [out|e]; cbn.
  - destruct (Hranked out eq_refl) as (Hlen & Hsorted & _). by split_and!.
  - split; [done|]. by exists e.
Qed.
